(** * TypescriptDefinitionGenerator: a shallow embedding

    The development embeds [ts-src/TypescriptDefinitionGenerator.ts] of
    java-bridge: the type mapper ([javaTypeToTypescriptType]), the member
    converter ([convertFields], [convertMethods], [convertMethod],
    [convertConstructors]), the dependency resolver ([getPath],
    [getAdditionalImports]) and the recursive driver ([generate]).

    JavaScript strings are sequences of UTF-16 code units; they are modelled
    by [string].  Every character the generator inspects (['.'], ['['],
    [']']) is ASCII, so the two representations agree on every operation
    used here. *)

From Stdlib Require Import String Ascii List Bool Arith ZArith Lia.
From Stdlib Require Import Permutation DecimalString.
Import ListNotations.
Local Open Scope string_scope.
Local Open Scope list_scope.
Local Set Warnings "-register-all".

(** String concatenation, kept apart from list concatenation. *)
Infix "+++" := String.append (at level 60, right associativity).

(** ** JavaScript string and array primitives used by the generator *)

Module Js.

(** [s.endsWith(suffix)] *)
Definition endsWith (s suffix : string) : bool :=
  let n := String.length s in
  let m := String.length suffix in
  (m <=? n)%nat && (substring (n - m) m s =? suffix).

(** [s.substring(from)] *)
Definition substringFrom (from : nat) (s : string) : string :=
  substring from (String.length s - from) s.

(** [s.lastIndexOf(c)], [-1] when [c] does not occur. *)
Fixpoint lastIndexOf_from (c : ascii) (s : string) (i : Z) (found : Z) : Z :=
  match s with
  | EmptyString => found
  | String a s' =>
      lastIndexOf_from c s' (i + 1) (if Ascii.eqb a c then i else found)
  end.

Definition lastIndexOf (c : ascii) (s : string) : Z :=
  lastIndexOf_from c s 0 (-1).

(** [s.replaceAll(c, d)] for one-character patterns. *)
Fixpoint replaceAll (c d : ascii) (s : string) : string :=
  match s with
  | EmptyString => EmptyString
  | String a s' => String (if Ascii.eqb a c then d else a) (replaceAll c d s')
  end.

(** [s.split(c)]: never empty, [''.split('.')] is [['']]. *)
Fixpoint split (c : ascii) (s : string) : list string :=
  match s with
  | EmptyString => [EmptyString]
  | String a s' =>
      if Ascii.eqb a c then EmptyString :: split c s'
      else match split c s' with
           | [] => [String a EmptyString]
           | w :: ws => String a w :: ws
           end
  end.

(** [l.join(sep)] *)
Fixpoint join (sep : string) (l : list string) : string :=
  match l with
  | [] => EmptyString
  | [x] => x
  | x :: rest => x ++ sep ++ join sep rest
  end.

(** [l.includes(x)] on arrays of strings *)
Definition includes (x : string) (l : list string) : bool :=
  existsb (String.eqb x) l.

(** [l.findIndex(p)] as an option *)
Fixpoint findIndex {A} (p : A -> bool) (l : list A) : option nat :=
  match l with
  | [] => None
  | a :: l' => if p a then Some 0 else option_map S (findIndex p l')
  end.

(** [l.filter((value, index, self) => p value index self)] *)
Fixpoint filter_from {A} (p : A -> nat -> bool) (i : nat) (l : list A) : list A :=
  match l with
  | [] => []
  | a :: l' => if p a i then a :: filter_from p (S i) l' else filter_from p (S i) l'
  end.

Definition filteri {A} (p : A -> nat -> list A -> bool) (l : list A) : list A :=
  filter_from (fun a i => p a i l) 0 l.

(** [l.map((value, index) => f value index)] *)
Fixpoint map_from {A B} (f : A -> nat -> B) (i : nat) (l : list A) : list B :=
  match l with
  | [] => []
  | a :: l' => f a i :: map_from f (S i) l'
  end.

Definition mapi {A B} (f : A -> nat -> B) (l : list A) : list B :=
  map_from f 0 l.

(** Template-literal rendering of a number: [`${i}`]. *)
Definition numberToString (i : nat) : string :=
  NilEmpty.string_of_uint (Nat.to_uint i).

(** [!!e] on [string | null]: [null] and the empty string are falsy. *)
Definition truthy (e : option string) : bool :=
  match e with
  | Some s => negb (s =? "")
  | None => false
  end.

End Js.

(** ** The fragment of the TypeScript syntax tree built by the generator

    The tree types stand for the nodes of the [typescript] package that the
    [ts.factory.create...] calls of the source construct; each constructor
    keeps the arguments the source passes. *)

Module ts.

Inductive SyntaxKind :=
| NumberKeyword | BigIntKeyword | StringKeyword | BooleanKeyword | VoidKeyword
| PublicKeyword | PrivateKeyword | StaticKeyword | ReadonlyKeyword
| ExportKeyword | DeclareKeyword | ExtendsKeyword
| SingleLineCommentTrivia | MultiLineCommentTrivia.

Inductive TypeNode :=
| KeywordTypeNode (kind : SyntaxKind)
| NullLiteralTypeNode
| TypeReferenceNode (typeName : string) (typeArguments : list TypeNode)
| ArrayTypeNode (elementType : TypeNode)
| UnionTypeNode (types : list TypeNode).

Record SynthesizedComment := mkComment
  { commentKind : SyntaxKind;
    commentText : string;
    hasTrailingNewLine : bool }.

Record ParameterDeclaration := mkParameter
  { parameterName : string;
    parameterType : TypeNode }.

(** The only statement built is the [super()] call of the private stub. *)
Inductive Statement := SuperCallStatement.

Record Block := mkBlock
  { statements : list Statement;
    multiLine : bool }.

Inductive ClassElement :=
| PropertyDeclaration (modifiers : list SyntaxKind) (name : string)
    (type : TypeNode) (comments : list SynthesizedComment)
| MethodDeclaration (modifiers : list SyntaxKind) (name : string)
    (parameters : list ParameterDeclaration) (type : TypeNode)
    (comments : list SynthesizedComment)
| ConstructorDeclaration (modifiers : list SyntaxKind)
    (parameters : list ParameterDeclaration) (body : option Block)
    (comments : list SynthesizedComment).

Record ImportSpecifier := mkImportSpecifier
  { propertyName : option string;
    importedName : string }.

Inductive Node :=
| ImportDeclaration (namedImports : list ImportSpecifier) (moduleSpecifier : string)
| ClassDeclaration (modifiers : list SyntaxKind) (name : string)
    (extendsExpression : string) (members : list ClassElement)
    (comments : list SynthesizedComment)
| ExportDefault (expression : string).

(** [ts.addSyntheticLeadingComment(node, kind, text, true)] *)
Definition addSyntheticLeadingComment (e : ClassElement) (kind : SyntaxKind)
    (text : string) : ClassElement :=
  let c := mkComment kind text true in
  match e with
  | PropertyDeclaration m n t cs => PropertyDeclaration m n t (cs ++ [c])
  | MethodDeclaration m n ps t cs => MethodDeclaration m n ps t (cs ++ [c])
  | ConstructorDeclaration m ps b cs => ConstructorDeclaration m ps b (cs ++ [c])
  end.

Definition addSyntheticLeadingCommentToNode (n : Node) (kind : SyntaxKind)
    (text : string) : Node :=
  match n with
  | ClassDeclaration m nm h ms cs =>
      let cs' := cs ++ [mkComment kind text true] in
      (ClassDeclaration m nm h ms cs')
  | other => other
  end.

(** Observations on the tree used to state properties. *)

Definition unionMembers (t : TypeNode) : list TypeNode :=
  match t with
  | UnionTypeNode ts => ts
  | _ => []
  end.

Definition isNullLiteral (t : TypeNode) : bool :=
  match t with NullLiteralTypeNode => true | _ => false end.

Definition isKeyword (k : SyntaxKind) (t : TypeNode) : bool :=
  match t, k with
  | KeywordTypeNode NumberKeyword, NumberKeyword => true
  | KeywordTypeNode BigIntKeyword, BigIntKeyword => true
  | KeywordTypeNode StringKeyword, StringKeyword => true
  | KeywordTypeNode BooleanKeyword, BooleanKeyword => true
  | KeywordTypeNode VoidKeyword, VoidKeyword => true
  | _, _ => false
  end.

Definition isTypeReference (t : TypeNode) : bool :=
  match t with TypeReferenceNode _ _ => true | _ => false end.

(** A null literal among the members of a top-level union. *)
Definition hasNullUnion (t : TypeNode) : bool :=
  existsb isNullLiteral (unionMembers t).

Definition isConstructor (e : ClassElement) : bool :=
  match e with ConstructorDeclaration _ _ _ _ => true | _ => false end.

Definition elementModifiers (e : ClassElement) : list SyntaxKind :=
  match e with
  | PropertyDeclaration m _ _ _ => m
  | MethodDeclaration m _ _ _ _ => m
  | ConstructorDeclaration m _ _ _ => m
  end.

Definition elementParameters (e : ClassElement) : list ParameterDeclaration :=
  match e with
  | PropertyDeclaration _ _ _ _ => []
  | MethodDeclaration _ _ ps _ _ => ps
  | ConstructorDeclaration _ ps _ _ => ps
  end.

Definition elementName (e : ClassElement) : option string :=
  match e with
  | PropertyDeclaration _ n _ _ => Some n
  | MethodDeclaration _ n _ _ _ => Some n
  | ConstructorDeclaration _ _ _ _ => None
  end.

Definition elementType (e : ClassElement) : option TypeNode :=
  match e with
  | PropertyDeclaration _ _ t _ => Some t
  | MethodDeclaration _ _ _ t _ => Some t
  | ConstructorDeclaration _ _ _ _ => None
  end.

End ts.

(** ** The generator object and its state monad

    [classname] is read-only; [usesBasicOrJavaType], [additionalImports] and
    [importsToResolve] are the private mutable fields of one generator
    instance.  The [resolvedImports] array is shared by reference between
    all generators of a run, so it is kept outside of this record and
    threaded by [generate]. *)

Record Generator := mkGenerator
  { classname : string;
    usesBasicOrJavaType : bool;
    additionalImports : list string;
    importsToResolve : list string }.

(** [new TypescriptDefinitionGenerator(classname, ...)] *)
Definition newGenerator (name : string) : Generator :=
  mkGenerator name false [] [].

Definition Gen (A : Type) : Type := Generator -> A * Generator.

Definition ret {A} (a : A) : Gen A := fun this => (a, this).

Definition bind {A B} (m : Gen A) (k : A -> Gen B) : Gen B :=
  fun this => let (a, this') := m this in k a this'.

Declare Scope gen_scope.
Delimit Scope gen_scope with gen.
Notation "x <- m ;; k" := (bind m (fun x => k))
  (at level 61, m at next level, right associativity) : gen_scope.
Local Open Scope gen_scope.

(** [this.classname] *)
Definition getClassname : Gen string := fun this => (classname this, this).

(** [this.usesBasicOrJavaType = true] *)
Definition setUsesBasicOrJavaType : Gen unit :=
  fun this =>
    (tt, mkGenerator (classname this) true
           (additionalImports this) (importsToResolve this)).

(** The two pushes at the head of [createTypeReferenceNode]. *)
Definition pushImport (resolvedImports : list string) (name : string) : Gen unit :=
  fun this =>
    (tt, mkGenerator (classname this) (usesBasicOrJavaType this)
           (if Js.includes name resolvedImports
            then additionalImports this
            else additionalImports this ++ [name])
           (importsToResolve this ++ [name])).

(** [arr.map(f)] where [f] has effects on the generator: left to right. *)
Fixpoint mapM {A B} (f : A -> nat -> Gen B) (i : nat) (l : list A) : Gen (list B) :=
  match l with
  | [] => ret []
  | a :: l' =>
      b <- f a i ;;
      bs <- mapM f (S i) l' ;;
      ret (b :: bs)
  end.

(** ** Type Mapper *)

Definition primitiveToClassType (type : string) : string :=
  if type =? "boolean" then "java.lang.Boolean"
  else if type =? "byte" then "java.lang.Byte"
  else if type =? "char" then "java.lang.Character"
  else if type =? "short" then "java.lang.Short"
  else if type =? "int" then "java.lang.Integer"
  else if type =? "long" then "java.lang.Long"
  else if type =? "float" then "java.lang.Float"
  else if type =? "double" then "java.lang.Double"
  else type.

Definition isPrimitive (type : string) : bool :=
  Js.includes type
    ["boolean"; "byte"; "char"; "short"; "int"; "long"; "float"; "double"].

(** [name.substring(name.lastIndexOf('.') + 1)] *)
Definition simpleNameOf (name : string) : string :=
  Js.substringFrom (Z.to_nat (Js.lastIndexOf "." name + 1)) name.

(** The closure [createType] of [javaTypeToTypescriptType]. *)
Definition createType (strictNullTypes : bool) (type : ts.TypeNode) : ts.TypeNode :=
  if strictNullTypes
  then ts.UnionTypeNode [type; ts.NullLiteralTypeNode]
  else type.

(** The closure [createTypeReferenceNode] of [javaTypeToTypescriptType]. *)
Definition createTypeReferenceNode (resolvedImports : list string)
    (isParam : bool) (name : string) : Gen ts.TypeNode :=
  _ <- pushImport resolvedImports name ;;
  cls <- getClassname ;;
  let isSelf := (name =? cls) && isParam in
  ret (ts.TypeReferenceNode
         (if name =? cls
          then simpleNameOf name ++ (if isSelf then "Class" else "")
          else Js.replaceAll "." "_" name)
         []).

(** The closure [createUnion] of [javaTypeToTypescriptType]. *)
Definition createUnion (resolvedImports : list string) (javaType : string)
    (isParam strictNullTypes : bool)
    (type : ts.SyntaxKind) (additionalTypes : list ts.SyntaxKind)
    : Gen ts.TypeNode :=
  let types :=
    [ts.KeywordTypeNode type] ++
    (if negb (isPrimitive javaType) && strictNullTypes
     then [ts.NullLiteralTypeNode] else []) in
  if negb isParam then ret (ts.UnionTypeNode types)
  else
    ref <- createTypeReferenceNode resolvedImports isParam
             (primitiveToClassType javaType) ;;
    ret (ts.UnionTypeNode
           ([ref] ++ map ts.KeywordTypeNode additionalTypes ++ types)).

(** The second [switch] of [javaTypeToTypescriptType]: everything that is
    neither a byte array nor an array. *)
Definition mapScalarType (resolvedImports : list string) (javaType : string)
    (isParam strictNullTypes : bool) : Gen ts.TypeNode :=
  let named c := javaType =? c in
  if named "int" || named "java.lang.Integer" || named "float" || named "java.lang.Float"
     || named "double" || named "java.lang.Double" || named "byte" || named "java.lang.Byte"
     || named "short" || named "java.lang.Short"
  then createUnion resolvedImports javaType isParam strictNullTypes
         ts.NumberKeyword []
  else if named "long" || named "java.lang.Long"
  then createUnion resolvedImports javaType isParam strictNullTypes
         ts.NumberKeyword [ts.BigIntKeyword]
  else if named "char" || named "java.lang.Character" || named "java.lang.String"
  then ret (createType strictNullTypes (ts.KeywordTypeNode ts.StringKeyword))
  else if named "boolean" || named "java.lang.Boolean"
  then createUnion resolvedImports javaType isParam strictNullTypes
         ts.BooleanKeyword []
  else if named "void" || named "java.lang.Void"
  then ret (ts.KeywordTypeNode ts.VoidKeyword)
  else if named "java.lang.Object"
  then
    _ <- setUsesBasicOrJavaType ;;
    ret (createType strictNullTypes (ts.TypeReferenceNode "BasicOrJavaType" []))
  else
    ref <- createTypeReferenceNode resolvedImports isParam javaType ;;
    ret (createType strictNullTypes ref).

(** [javaTypeToTypescriptType].  The recursion of the source strips one
    trailing ["[]"] per call; [depth] bounds the number of nested calls and
    [javaTypeToTypescriptType] below starts it at the length of the name,
    which is never exhausted ([javaTypeToTypescriptType_unfold]).  The
    recursive call passes no third argument, so the element type is mapped
    with the default [strictNullTypes = true]. *)
Fixpoint javaTypeToTypescriptType_depth (depth : nat)
    (resolvedImports : list string) (javaType : string)
    (isParam strictNullTypes : bool) : Gen ts.TypeNode :=
  if (javaType =? "byte[]") || (javaType =? "java.lang.Byte[]")
  then ret (createType strictNullTypes (ts.TypeReferenceNode "Buffer" []))
  else if Js.endsWith javaType "[]"
  then
    match depth with
    | S depth' =>
        elem <- javaTypeToTypescriptType_depth depth' resolvedImports
                  (substring 0 (String.length javaType - 2) javaType)
                  isParam true ;;
        ret (createType strictNullTypes (ts.ArrayTypeNode elem))
    | O => ret (createType strictNullTypes (ts.ArrayTypeNode ts.NullLiteralTypeNode))
    end
  else mapScalarType resolvedImports javaType isParam strictNullTypes.

Definition javaTypeToTypescriptType (resolvedImports : list string)
    (javaType : string) (isParam strictNullTypes : bool) : Gen ts.TypeNode :=
  javaTypeToTypescriptType_depth (String.length javaType)
    resolvedImports javaType isParam strictNullTypes.

(** ** Plain objects used as maps

    [convertMethods] accumulates its result in an object literal [{}] of type
    [Record<string, MethodDeclaration[]>].  The own properties are kept in
    creation order. *)

Module JsObject.

Definition t (V : Type) : Type := list (string * V).

Definition empty {V} : t V := [].

(** [Object.hasOwn(o, name)] *)
Definition hasOwn {V} (o : t V) (name : string) : bool :=
  existsb (fun kv => fst kv =? name) o.

(** [o[name]] restricted to own properties *)
Fixpoint get {V} (o : t V) (name : string) : option V :=
  match o with
  | [] => None
  | (k, v) :: o' => if k =? name then Some v else get o' name
  end.

(** [o[name] = v].  On an object created by [{}] the key [__proto__] is
    the accessor inherited from [Object.prototype]: assigning an array to
    it replaces the prototype of [o] and defines no own property.  Every
    other key is defined, or overwritten in place. *)
Definition set {V} (o : t V) (name : string) (v : V) : t V :=
  if name =? "__proto__" then o
  else if hasOwn o name
  then map (fun kv => if fst kv =? name then (fst kv, v) else kv) o
  else o ++ [(name, v)].

(** [o[name].push(x)] and the like: update of an own property in place. *)
Definition update {V} (o : t V) (name : string) (f : V -> V) : t V :=
  map (fun kv => if fst kv =? name then (fst kv, f (snd kv)) else kv) o.

(** A key is an array index when it is the canonical decimal form of an
    integer below [2^32 - 1]. *)
Definition arrayIndex (k : string) : option N :=
  match NilEmpty.uint_of_string k with
  | Some d =>
      let n := N.of_uint d in
      if (NilEmpty.string_of_uint (N.to_uint n) =? k) && (n <? 4294967295)%N
      then Some n else None
  | None => None
  end.

Definition isArrayIndex (k : string) : bool :=
  match arrayIndex k with Some _ => true | None => false end.

Definition indexOfKey (k : string) : N :=
  match arrayIndex k with Some n => n | None => 0%N end.

Fixpoint insertByIndex {V} (kv : string * V) (l : list (string * V)) :=
  match l with
  | [] => [kv]
  | kv' :: l' =>
      if (indexOfKey (fst kv) <=? indexOfKey (fst kv'))%N
      then kv :: l
      else kv' :: insertByIndex kv l'
  end.

Definition sortByIndex {V} (l : list (string * V)) : list (string * V) :=
  fold_right insertByIndex [] l.

(** [Object.entries(o)]: array-index keys in ascending numeric order, then
    the other keys in creation order. *)
Definition entries {V} (o : t V) : list (string * V) :=
  sortByIndex (filter (fun kv => isArrayIndex (fst kv)) o)
  ++ filter (fun kv => negb (isArrayIndex (fst kv))) o.

End JsObject.

(** ** Reflection Client

    The reflective objects of the foreign runtime are read-only to the
    generator; they are modelled by the values their getters return.  The
    modifier bitmask is opaque and decoded through the predicates of
    [java.lang.reflect.Modifier]. *)

Module Modifier.
Class ModifierClass := mkModifier
  { isPublic : Z -> bool;
    isStatic : Z -> bool;
    isFinal : Z -> bool;
    isAbstract : Z -> bool }.
End Modifier.

Record TypeClass := mkType { getTypeName : string }.

Record DeclaredMethodClass := mkDeclaredMethod
  { method_getModifiers : Z;
    method_getName : string;
    method_getReturnType : TypeClass;
    method_getParameterTypes : list TypeClass }.

Record DeclaredConstructorClass := mkDeclaredConstructor
  { constructor_getModifiers : Z;
    constructor_getParameterTypes : list TypeClass }.

Record FieldClass := mkField
  { field_getModifiers : Z;
    field_getName : string;
    field_getType : TypeClass }.

Record ClassClass := mkClass
  { getMethods : list DeclaredMethodClass;
    getDeclaredConstructors : list DeclaredConstructorClass;
    getFields : list FieldClass;
    class_getModifiers : Z;
    isInterface : bool }.

(** The exported interfaces of the module. *)

Record MethodDeclaration := mkMethodDeclaration
  { returnType : string;
    parameters : list string;
    isStatic : bool }.

Record ModuleDeclaration := mkModuleDeclaration
  { name : string;
    contents : string }.

Definition nonNullReturnMethods : list string :=
  ["toString"; "wait"; "getClass"; "hashCode"; "notify"; "notifyAll"; "equals"].

Definition newline : string := String "010"%char EmptyString.
Definition doubleQuote : string := String "034"%char EmptyString.

(** ** Member Converter *)

Section MemberConverter.

Context {Modifier : Modifier.ModifierClass}.
Variable resolvedImports : list string.

Definition toMethodDeclaration (method : DeclaredMethodClass) : MethodDeclaration :=
  {| returnType := getTypeName (method_getReturnType method);
     parameters := map getTypeName (method_getParameterTypes method);
     isStatic := Modifier.isStatic (method_getModifiers method) |}.

Fixpoint convertMethods_loop (methods : list DeclaredMethodClass)
    (result : JsObject.t (list MethodDeclaration))
    : JsObject.t (list MethodDeclaration) :=
  match methods with
  | [] => result
  | method :: rest =>
      let modifiers := method_getModifiers method in
      if Modifier.isPublic modifiers then
        let name := method_getName method in
        let data := toMethodDeclaration method in
        convertMethods_loop rest
          (if JsObject.hasOwn result name
           then JsObject.update result name (fun l => l ++ [data])
           else JsObject.set result name [data])
      else convertMethods_loop rest result
  end.

Definition convertMethods (methods : list DeclaredMethodClass)
    : JsObject.t (list MethodDeclaration) :=
  convertMethods_loop methods JsObject.empty.

Definition fieldModifiers (modifiers : Z) : list ts.SyntaxKind :=
  [ts.PublicKeyword]
  ++ (if Modifier.isStatic modifiers then [ts.StaticKeyword] else [])
  ++ (if Modifier.isFinal modifiers then [ts.ReadonlyKeyword] else []).

Fixpoint convertFields (fields : list FieldClass) : Gen (list ts.ClassElement) :=
  match fields with
  | [] => ret []
  | field :: rest =>
      let modifiers := field_getModifiers field in
      if Modifier.isPublic modifiers then
        let name := field_getName field in
        let typeName := getTypeName (field_getType field) in
        let tsModifiers := fieldModifiers modifiers in
        type <- javaTypeToTypescriptType resolvedImports typeName true true ;;
        let declaration := ts.PropertyDeclaration tsModifiers name type [] in
        let declaration :=
          ts.addSyntheticLeadingComment declaration ts.SingleLineCommentTrivia
            (" ================== Field " +++ name +++ " ==================") in
        let declaration :=
          ts.addSyntheticLeadingComment declaration ts.MultiLineCommentTrivia
            ("*" +++ newline +++ " * Original type: '" +++ typeName +++ "'"
             +++ newline +++ " ") in
        res <- convertFields rest ;;
        ret (declaration :: res)
      else convertFields rest
  end.

Definition isAbstractOrInterface (classType : ClassClass) : bool :=
  isInterface classType || Modifier.isAbstract (class_getModifiers classType).

Definition createPrivateConstructor : ts.ClassElement :=
  let declaration :=
    ts.ConstructorDeclaration [ts.PrivateKeyword] []
      (Some (ts.mkBlock [ts.SuperCallStatement] true)) [] in
  ts.addSyntheticLeadingComment declaration ts.MultiLineCommentTrivia
    ("*" +++ newline +++ " * Private constructor to prevent instantiation" +++ newline
     +++ " * as this is either an abstract class or an interface" +++ newline +++ " ").

Definition convertParameter (param : string) (index : nat)
    : Gen ts.ParameterDeclaration :=
  let name := "var" +++ Js.numberToString index in
  type <- javaTypeToTypescriptType resolvedImports param true true ;;
  ret (ts.mkParameter name type).

Definition convertParameters (params : MethodDeclaration)
    : Gen (list ts.ParameterDeclaration) :=
  mapM convertParameter 0 (parameters params).

Definition paramComments (params : list string) : string :=
  Js.join ""
    (Js.mapi (fun p i => " * @param var" +++ Js.numberToString i
                         +++ " original type: '" +++ p +++ "'" +++ newline)
             params).

Definition createMethodComment (declaration : MethodDeclaration) : string :=
  "*" +++ newline +++ paramComments (parameters declaration)
  +++ " * @return original return type: '" +++ returnType declaration +++ "'"
  +++ newline +++ " ".

Definition createMethod (m : MethodDeclaration) (name : string) (i : nat)
    (isSync nonNullReturnType : bool) : Gen ts.ClassElement :=
  let modifiers :=
    [ts.PublicKeyword] ++ (if isStatic m then [ts.StaticKeyword] else []) in
  returnType <- javaTypeToTypescriptType resolvedImports (returnType m) false
                  (negb nonNullReturnType) ;;
  let returnType :=
    if negb isSync then ts.TypeReferenceNode "Promise" [returnType]
    else returnType in
  params <- convertParameters m ;;
  let declaration :=
    ts.MethodDeclaration modifiers (name +++ (if isSync then "Sync" else ""))
      params returnType [] in
  let declaration :=
    if (i =? 0)%nat
    then ts.addSyntheticLeadingComment declaration ts.SingleLineCommentTrivia
           (" ================== Method " +++ name +++ " ==================")
    else declaration in
  ret (ts.addSyntheticLeadingComment declaration ts.MultiLineCommentTrivia
         (createMethodComment m)).

Fixpoint convertMethod_from (i : nat) (method : list MethodDeclaration)
    (name : string) : Gen (list ts.ClassElement) :=
  match method with
  | [] => ret []
  | m :: rest =>
      let nonNullReturnType := Js.includes name nonNullReturnMethods in
      async <- createMethod m name i false nonNullReturnType ;;
      sync <- createMethod m name i true nonNullReturnType ;;
      res <- convertMethod_from (S i) rest name ;;
      ret (async :: sync :: res)
  end.

Definition convertMethod (method : list MethodDeclaration) (name : string)
    : Gen (list ts.ClassElement) :=
  convertMethod_from 0 method name.

Definition publicConstructorTypes (constructors : list DeclaredConstructorClass)
    : list (list string) :=
  map (fun c => map getTypeName (constructor_getParameterTypes c))
    (filter (fun c => Modifier.isPublic (constructor_getModifiers c)) constructors).

Definition convertConstructors (constructors : list DeclaredConstructorClass)
    : Gen (list ts.ClassElement) :=
  let types := publicConstructorTypes constructors in
  tsConstructors <-
    mapM (fun t i =>
            params <- mapM convertParameter 0 t ;;
            let declaration :=
              ts.ConstructorDeclaration [ts.PublicKeyword] params None [] in
            let declaration :=
              if (i =? 0)%nat
              then ts.addSyntheticLeadingComment declaration
                     ts.SingleLineCommentTrivia
                     " ================== Constructors =================="
              else declaration in
            let declaration :=
              if (0 <? List.length t)%nat
              then ts.addSyntheticLeadingComment declaration
                     ts.MultiLineCommentTrivia
                     ("*" +++ newline +++ paramComments t +++ " ")
              else declaration in
            ret declaration) 0 types ;;
  newInstanceMethods <-
    mapM (fun t i =>
            cls <- getClassname ;;
            createMethod {| returnType := cls; parameters := t; isStatic := true |}
              "newInstance" i false true) 0 types ;;
  ret (newInstanceMethods ++ tsConstructors).

(** The loop [for (const [key, method] of Object.entries(convertedMethods))]
    of [generate]. *)
Fixpoint convertMethodEntries (entries : list (string * list MethodDeclaration))
    : Gen (list ts.ClassElement) :=
  match entries with
  | [] => ret []
  | (key, method) :: rest =>
      ms <- convertMethod method key ;;
      res <- convertMethodEntries rest ;;
      ret (ms ++ res)
  end.

(** [onlyUnique] of [generate]: the first field of each name. *)
Definition onlyUnique (value : FieldClass) (index : nat) (self : list FieldClass)
    : bool :=
  match Js.findIndex (fun el => field_getName value =? field_getName el) self with
  | Some j => (j =? index)%nat
  | None => false
  end.

(** The part of [generate] that fills [classMembers]. *)
Definition classMembers (cls : ClassClass) : Gen (list ts.ClassElement) :=
  let fields := Js.filteri onlyUnique (getFields cls) in
  let methods := getMethods cls in
  fieldMembers <- convertFields fields ;;
  let convertedMethods := convertMethods methods in
  methodMembers <- convertMethodEntries (JsObject.entries convertedMethods) ;;
  if negb (isAbstractOrInterface cls)
  then
    convertedConstructors <- convertConstructors (getDeclaredConstructors cls) ;;
    ret (fieldMembers ++ methodMembers ++ convertedConstructors)
  else ret (fieldMembers ++ methodMembers).

End MemberConverter.

(** ** Dependency Resolver *)

(** The loop of [getPath]: the leading positions at which both arrays hold
    the same segment are overwritten with [null]; the loop breaks at the
    first difference ([importSplit[j]] is [undefined] past its end, which
    differs from every segment). *)
Fixpoint nullCommonPrefix (thisSplit importSplit : list string)
    : list (option string) * list (option string) :=
  match thisSplit, importSplit with
  | t :: thisRest, i :: importRest =>
      if i =? t
      then let (a, b) := nullCommonPrefix thisRest importRest in
           (None :: a, None :: b)
      else (map Some thisSplit, map Some importSplit)
  | _, _ => (map Some thisSplit, map Some importSplit)
  end.

Definition segmentText (e : option string) : string :=
  match e with Some s => s | None => "" end.

(** The closure [getPath] of [getAdditionalImports]. *)
Definition getPath (classname i : string) : string :=
  let (thisSplit, importSplit) :=
    nullCommonPrefix (Js.split "." classname) (Js.split "." i) in
  "./"
  +++ Js.join "../" (map (fun _ => "") (filter Js.truthy thisSplit))
  +++ Js.join "/" (map segmentText (filter Js.truthy importSplit)).

(** [unique] of [getAdditionalImports]: [self.indexOf(value) === index]. *)
Definition unique (value : string) (index : nat) (self : list string) : bool :=
  match Js.findIndex (String.eqb value) self with
  | Some j => (j =? index)%nat
  | None => false
  end.

Definition getAdditionalImports (this : Generator) : list ts.Node :=
  map (fun i =>
         ts.ImportDeclaration
           [ts.mkImportSpecifier (Some (simpleNameOf i)) (Js.replaceAll "." "_" i)]
           (getPath (classname this) i))
    (Js.filteri unique
       (filter (fun i => negb (i =? classname this)) (importsToResolve this))).

(** ** Code Emitter *)

Definition getImports (this : Generator) : ts.Node :=
  let importElements :=
    [ts.mkImportSpecifier None "importClass"; ts.mkImportSpecifier None "JavaClass"]
    ++ (if usesBasicOrJavaType this
        then [ts.mkImportSpecifier None "BasicOrJavaType"] else []) in
  ts.ImportDeclaration importElements "java-bridge".

Section Emitter.

Context {Modifier : Modifier.ModifierClass}.

(** [ts.createPrinter(...).printNode(...)] of the [typescript] package. *)
Variable printNode : ts.Node -> string.

Definition getExportStatement (this : Generator) (simpleName : string)
    (isAbstractOrInterface : bool) : list ts.Node :=
  let statement :=
    ts.ClassDeclaration [ts.ExportKeyword] simpleName
      ("importClass<typeof " +++ simpleName +++ "Class>(" +++ doubleQuote
       +++ classname this +++ doubleQuote +++ ")")
      (if isAbstractOrInterface then [createPrivateConstructor] else [])
      [] in
  [ ts.addSyntheticLeadingCommentToNode statement ts.MultiLineCommentTrivia
      ("*" +++ newline +++ " * Class " +++ classname this +++ "." +++ newline
       +++ " *" +++ newline
       +++ " * This actually imports the java class for further use." +++ newline
       +++ " * The class " +++ simpleName
       +++ "Class only defines types, this is the class you should actually import."
       +++ newline
       +++ " * Please note that this statement imports the underlying java class at runtime, which may take a while."
       +++ newline
       +++ " * This was generated by java-bridge." +++ newline
       +++ " * You should probably not edit this." +++ newline +++ " ");
    ts.ExportDefault simpleName ].

Definition getText (nodes : list (option ts.Node)) : string :=
  Js.join newline
    (map (fun n => match n with Some n => printNode n | None => "" end) nodes).

(** The declared class [simpleName + 'Class'] of [generate]. *)
Definition tsClass (simpleName : string) (members : list ts.ClassElement)
    : ts.Node :=
  ts.addSyntheticLeadingCommentToNode
    (ts.ClassDeclaration [ts.ExportKeyword; ts.DeclareKeyword]
       (simpleName +++ "Class") "JavaClass" members [])
    ts.MultiLineCommentTrivia
    ("*" +++ newline
     +++ " * This class just defines types, you should import " +++ simpleName
     +++ " instead of this." +++ newline
     +++ " * This was generated by java-bridge." +++ newline
     +++ " * You should probably not edit this." +++ newline +++ " ").

(** The nodes handed to [getText] by [generate]. *)
Definition moduleNodes (this : Generator) (cls : ClassClass)
    (members : list ts.ClassElement) : list (option ts.Node) :=
  let simpleName := simpleNameOf (classname this) in
  [Some (getImports this)]
  ++ map Some (getAdditionalImports this)
  ++ [None; Some (tsClass simpleName members); None]
  ++ map Some (getExportStatement this simpleName (isAbstractOrInterface cls)).

End Emitter.

(** ** Generator Orchestrator *)

(** How a call of the asynchronous [generate] ends: it resolves with a
    value, it rejects (the Reflection Client could not load the class), or
    the bound on the nesting of calls of the model was reached. *)
Inductive Outcome (A : Type) :=
| Resolved (a : A)
| Rejected
| OutOfFuel.
Arguments Resolved {A} a.
Arguments Rejected {A}.
Arguments OutOfFuel {A}.

Section Orchestrator.

Context {Modifier : Modifier.ModifierClass}.

(** [importClassAsync(classname).class]; [None] when the promise rejects. *)
Variable importClassAsync : string -> option ClassClass.
Variable printNode : ts.Node -> string.

(** A loop [for (const c of names) { generated = await generate(c); ... }]
    over generators that share [resolvedImports]. *)
Fixpoint generateEach
    (generate : string -> list string -> list string * Outcome (list ModuleDeclaration))
    (names : list string) (resolvedImports : list string)
    (res : list ModuleDeclaration)
    : list string * Outcome (list ModuleDeclaration) :=
  match names with
  | [] => (resolvedImports, Resolved res)
  | imported :: rest =>
      match generate imported resolvedImports with
      | (resolvedImports', Resolved generated) =>
          generateEach generate rest resolvedImports' (res ++ generated)
      | (resolvedImports', Rejected) => (resolvedImports', Rejected)
      | (resolvedImports', OutOfFuel) => (resolvedImports', OutOfFuel)
      end
  end.

(** [generate]: the first component of the result is the shared
    [resolvedImports] array after the call.  [fuel] bounds the nesting of
    the recursive calls.  The progress callback is left out: it is handed
    the class name after the push, nothing is read back from it, and it is
    taken not to touch [resolvedImports] (the one of the command-line
    handler updates a counter and the spinner text). *)
Fixpoint generate (fuel : nat) (classname : string) (resolvedImports : list string)
    : list string * Outcome (list ModuleDeclaration) :=
  match fuel with
  | O => (resolvedImports, OutOfFuel)
  | S fuel' =>
      if Js.includes classname resolvedImports
      then (resolvedImports, Resolved [])
      else
        let resolvedImports := resolvedImports ++ [classname] in
        match importClassAsync classname with
        | None => (resolvedImports, Rejected)
        | Some cls =>
            let (members, this) :=
              classMembers resolvedImports cls (newGenerator classname) in
            let sourceText := getText printNode (moduleNodes this cls members) in
            match generateEach (generate fuel') (additionalImports this)
                    resolvedImports [] with
            | (resolvedImports', Resolved res) =>
                (resolvedImports',
                 Resolved (res ++ [ {| name := classname; contents := sourceText |} ]))
            | (resolvedImports', Rejected) => (resolvedImports', Rejected)
            | (resolvedImports', OutOfFuel) => (resolvedImports', OutOfFuel)
            end
        end
  end.

(** The conversion loop of the command-line handler: one generator per
    requested class, all sharing one [resolvedImports] array that starts
    empty; the modules of each are saved as soon as they are generated. *)
Definition handler (fuel : nat) (classnames : list string)
    : list string * Outcome (list ModuleDeclaration) :=
  generateEach (generate fuel) classnames [] [].

End Orchestrator.

(** ** What a conversion registers

    [register resolvedImports delta u this] is the generator after the
    names [delta] went through [createTypeReferenceNode] in this order and
    [usesBasicOrJavaType] was set when [u] holds. *)
Definition register (resolvedImports delta : list string) (u : bool)
    (this : Generator) : Generator :=
  {| classname := classname this;
     usesBasicOrJavaType := usesBasicOrJavaType this || u;
     additionalImports :=
       additionalImports this
       ++ filter (fun n => negb (Js.includes n resolvedImports)) delta;
     importsToResolve := importsToResolve this ++ delta |}.

(** A conversion is [Tracked] when its value, the names it registers and the
    flag it sets are determined by the class being generated, and its only
    effect on the generator is to register them. *)
Definition Tracked {A} (m : list string -> Gen A) : Prop :=
  forall cls : string,
  exists (v : A) (delta : list string) (u : bool),
    forall resolvedImports this,
      classname this = cls ->
      m resolvedImports this = (v, register resolvedImports delta u this).

(** The names a class registers while its members are converted: the
    [importsToResolve] of its generator when [classMembers] is done. *)
Definition referencedNames {Modifier : Modifier.ModifierClass}
    (classname : string) (cls : ClassClass) : list string :=
  importsToResolve (snd (classMembers [] cls (newGenerator classname))).

(** The type names with a case of their own in the second [switch] of
    [javaTypeToTypescriptType]. *)
Definition scalarCases : list string :=
  ["int"; "java.lang.Integer"; "float"; "java.lang.Float"; "double";
   "java.lang.Double"; "byte"; "java.lang.Byte"; "short"; "java.lang.Short";
   "long"; "java.lang.Long"; "char"; "java.lang.Character"; "java.lang.String";
   "boolean"; "java.lang.Boolean"; "void"; "java.lang.Void"; "java.lang.Object"].

(** The cases of [javaTypeToTypescriptType], in the order in which the source
    tries them: the first [switch], the array test, and the groups of
    [case] labels of the second [switch]. *)
Inductive MappingCase :=
| ByteArrayCase
| ArrayCase
| NumberCase
| LongCase
| StringCase
| BooleanCase
| VoidCase
| ObjectCase
| ClassReferenceCase.

(** The case that handles a type name. *)
Definition mappingCase (javaType : string) : MappingCase :=
  let named c := javaType =? c in
  if named "byte[]" || named "java.lang.Byte[]" then ByteArrayCase
  else if Js.endsWith javaType "[]" then ArrayCase
  else if named "int" || named "java.lang.Integer" || named "float"
          || named "java.lang.Float" || named "double" || named "java.lang.Double"
          || named "byte" || named "java.lang.Byte" || named "short"
          || named "java.lang.Short"
  then NumberCase
  else if named "long" || named "java.lang.Long" then LongCase
  else if named "char" || named "java.lang.Character" || named "java.lang.String"
  then StringCase
  else if named "boolean" || named "java.lang.Boolean" then BooleanCase
  else if named "void" || named "java.lang.Void" then VoidCase
  else if named "java.lang.Object" then ObjectCase
  else ClassReferenceCase.

(** The names that reach the [default] case, hence [createTypeReferenceNode]. *)
Definition reachesDefaultCase (javaType : string) : bool :=
  negb (Js.endsWith javaType "[]") && negb (Js.includes javaType scalarCases).

(** [n] parent-directory steps. *)
Fixpoint parentSteps (n : nat) : string :=
  match n with
  | O => ""
  | S n' => "../" +++ parentSteps n'
  end.

(** Two lists of segments diverge when they do not start with the same
    segment: no common leading segment is left to strip. *)
Definition diverge (restThis restImport : list string) : Prop :=
  match restThis, restImport with
  | t :: _, i :: _ => t <> i
  | _, _ => True
  end.

(** The parameters of a declaration: [var0], [var1], ... each typed by the
    type mapper in parameter position with nullability requested. *)
Definition parameterDeclarations (r : list string) (this : Generator)
    (i : nat) (params : list string) : list ts.ParameterDeclaration :=
  Js.map_from
    (fun p i =>
       ts.mkParameter ("var" +++ Js.numberToString i)
         (fst (javaTypeToTypescriptType r p true true this)))
    i params.

(** The declaration built by [createMethod], before the comments: the
    return type [T] of the synchronous variant is the mapped return type,
    that of the asynchronous variant is [Promise<T>]. *)
Definition methodSignature (r : list string) (this : Generator)
    (m : MethodDeclaration) (name : string) (isSync nonNull : bool)
    : ts.ClassElement :=
  let T := fst (javaTypeToTypescriptType r (returnType m) false (negb nonNull) this) in
  ts.MethodDeclaration
    ([ts.PublicKeyword] ++ (if isStatic m then [ts.StaticKeyword] else []))
    (name +++ (if isSync then "Sync" else ""))
    (parameterDeclarations r this 0 (parameters m))
    (if isSync then T else ts.TypeReferenceNode "Promise" [T])
    [].

(** What is left of a class element when its comments are dropped. *)
Definition withoutComments (e : ts.ClassElement) : ts.ClassElement :=
  match e with
  | ts.PropertyDeclaration m n t _ => ts.PropertyDeclaration m n t []
  | ts.MethodDeclaration m n ps t _ => ts.MethodDeclaration m n ps t []
  | ts.ConstructorDeclaration m ps b _ => ts.ConstructorDeclaration m ps b []
  end.

(** The type names for which [javaTypeToTypescriptType] adds no null literal
    whatever is requested: [void] and the primitives that go through
    [createUnion]. *)
Definition neverNullTypes : list string :=
  ["void"; "java.lang.Void"; "int"; "float"; "double"; "byte"; "short";
   "long"; "boolean"].

(** The public overloads of the method [f] among [methods], in the order
    the Reflection Client lists them. *)
Definition publicOverloads {Modifier : Modifier.ModifierClass} (f : string)
    (methods : list DeclaredMethodClass) : list MethodDeclaration :=
  map toMethodDeclaration
    (filter
       (fun m => Modifier.isPublic (method_getModifiers m) && (method_getName m =? f))
       methods).

(** The constructor declarations among the members of the classes of a
    module: those of the declared class and those of the exported class. *)
Definition declaredConstructors (nodes : list (option ts.Node))
    : list ts.ClassElement :=
  flat_map
    (fun n =>
       match n with
       | Some (ts.ClassDeclaration _ _ _ members _) =>
           filter ts.isConstructor members
       | _ => []
       end)
    nodes.

(** The constructor declaration built by [convertConstructors] for the
    parameter types [t], before the comments. *)
Definition constructorSignature (r : list string) (this : Generator)
    (t : list string) : ts.ClassElement :=
  ts.ConstructorDeclaration [ts.PublicKeyword]
    (parameterDeclarations r this 0 t) None [].

(** What a call sharing [resolvedImports] leaves behind.  [names] are the
    classes the call was asked for, [r] and [r'] the shared array before
    and after it.  Whatever the outcome, [r'] extends [r].  When the call
    resolves with the modules [res]: the names added are the names of the
    modules, each once, and none was in [r] before; the classes asked for
    are resolved; and every name referenced by an emitted module is
    resolved. *)
Definition RunInvariant {Modifier : Modifier.ModifierClass}
    (importClassAsync : string -> option ClassClass)
    (names r r' : list string) (out : Outcome (list ModuleDeclaration)) : Prop :=
  exists added,
    r' = r ++ added
    /\ match out with
       | Resolved res =>
           Permutation added (map name res)
           /\ NoDup added
           /\ (forall x, In x added -> ~ In x r)
           /\ (forall c, In c names -> In c r')
           /\ (forall m cls n,
                  In m res -> importClassAsync (name m) = Some cls ->
                  In n (referencedNames (name m) cls) -> In n r')
       | _ => True
       end.

(** A finite set of class names that the Reflection Client can load and
    that is closed under the references of their members. *)
Definition closedUniverse {Modifier : Modifier.ModifierClass}
    (importClassAsync : string -> option ClassClass) (U : list string) : Prop :=
  forall c, In c U ->
    exists cls, importClassAsync c = Some cls /\ incl (referencedNames c cls) U.

(** The number of classes of [U] not yet resolved. *)
Definition unresolved (U r : list string) : nat :=
  List.length (filter (fun x => negb (Js.includes x r)) U).

(** The outcome of a loop with the modules [res0] collected before it. *)
Definition prepend (res0 : list ModuleDeclaration)
    (out : Outcome (list ModuleDeclaration)) : Outcome (list ModuleDeclaration) :=
  match out with
  | Resolved new => Resolved (res0 ++ new)
  | Rejected => Rejected
  | OutOfFuel => OutOfFuel
  end.

(** ** Observations on the constructors and factories of a module *)

Definition isStaticKeyword (k : ts.SyntaxKind) : bool :=
  match k with ts.StaticKeyword => true | _ => false end.

(** A static method declaration named [newInstance] with [N] parameters:
    the shape of the factory that [convertConstructors] declares for a
    constructor of arity [N]. *)
Definition isFactory (N : nat) (e : ts.ClassElement) : bool :=
  match e with
  | ts.MethodDeclaration modifiers name params _ _ =>
      existsb isStaticKeyword modifiers && (name =? "newInstance")
      && (List.length params =? N)%nat
  | _ => false
  end.

(** The public static methods of a class that are named [newInstance] and
    take [N] parameters. *)
Definition staticNewInstanceMethods {Modifier : Modifier.ModifierClass}
    (N : nat) (cls : ClassClass) : list DeclaredMethodClass :=
  filter
    (fun m =>
       Modifier.isPublic (method_getModifiers m)
       && Modifier.isStatic (method_getModifiers m)
       && (method_getName m =? "newInstance")
       && (List.length (method_getParameterTypes m) =? N)%nat)
    (getMethods cls).

(** The members of the classes of a module: those of the declared class
    and those of the exported class. *)
Definition declaredMembers (nodes : list (option ts.Node))
    : list ts.ClassElement :=
  flat_map
    (fun n =>
       match n with
       | Some (ts.ClassDeclaration _ _ _ members _) => members
       | _ => []
       end)
    nodes.

(** ** Sample metadata *)

(** [java.lang.reflect.Modifier] of the JDK: [PUBLIC = 0x1], [STATIC = 0x8],
    [FINAL = 0x10], [ABSTRACT = 0x400]. *)
#[local] Instance JavaModifier : Modifier.ModifierClass :=
  {| Modifier.isPublic := fun m => Z.testbit m 0;
     Modifier.isStatic := fun m => Z.testbit m 3;
     Modifier.isFinal := fun m => Z.testbit m 4;
     Modifier.isAbstract := fun m => Z.testbit m 10 |}.

(** [interface Proto { void __proto__(); void __proto__(int x); }]: both
    methods are [public abstract] (0x401), the interface is
    [public abstract interface] (0x601). *)
Definition protoInterface : ClassClass :=
  {| getMethods :=
       [ mkDeclaredMethod 1025 "__proto__" (mkType "void") [];
         mkDeclaredMethod 1025 "__proto__" (mkType "void") [mkType "int"] ];
     getDeclaredConstructors := [];
     getFields := [];
     class_getModifiers := 1537;
     isInterface := true |}.

(** [public class B { public B(int n) {} public void f() {}
    public String f(int x) {...} }] of package [a]. *)
Definition overloadedClass : ClassClass :=
  {| getMethods :=
       [ mkDeclaredMethod 1 "f" (mkType "void") [];
         mkDeclaredMethod 1 "f" (mkType "java.lang.String") [mkType "int"] ];
     getDeclaredConstructors := [ mkDeclaredConstructor 1 [mkType "int"] ];
     getFields := [];
     class_getModifiers := 1;
     isInterface := false |}.

(** [public abstract class Shape { public Shape() {} public Shape(int n) {} }]:
    the class is [public abstract] (0x401). *)
Definition abstractClass : ClassClass :=
  {| getMethods := [];
     getDeclaredConstructors :=
       [ mkDeclaredConstructor 1 []; mkDeclaredConstructor 1 [mkType "int"] ];
     getFields := [];
     class_getModifiers := 1025;
     isInterface := false |}.

(** Two classes of a package [a] that reference each other:
    [public class A { public B b; public A self() {...} }] and
    [public class B { public B link(A other) {...} }]. *)
Definition classA : ClassClass :=
  {| getMethods := [ mkDeclaredMethod 1 "self" (mkType "a.A") [] ];
     getDeclaredConstructors := [];
     getFields := [ mkField 1 "b" (mkType "a.B") ];
     class_getModifiers := 1;
     isInterface := false |}.

Definition classB : ClassClass :=
  {| getMethods := [ mkDeclaredMethod 1 "link" (mkType "a.B") [mkType "a.A"] ];
     getDeclaredConstructors := [];
     getFields := [];
     class_getModifiers := 1;
     isInterface := false |}.

(** [public class F { public F(int n) {} public static F newInstance(int n)
    {...} }] of package [a]: the method is [public static] (0x9). *)
Definition factoryClass : ClassClass :=
  {| getMethods :=
       [ mkDeclaredMethod 9 "newInstance" (mkType "a.F") [mkType "int"] ];
     getDeclaredConstructors := [ mkDeclaredConstructor 1 [mkType "int"] ];
     getFields := [];
     class_getModifiers := 1;
     isInterface := false |}.

(** Three classes of a package [lib]:
    [public class Shelf { public Shelf(Book[] books) {}
    public Label find(Book book) {...} }],
    [public class Book { public Shelf shelf; }] and
    [public class Label { public Label() {} }]. *)
Definition shelfClass : ClassClass :=
  {| getMethods :=
       [ mkDeclaredMethod 1 "find" (mkType "lib.Label") [mkType "lib.Book"] ];
     getDeclaredConstructors := [ mkDeclaredConstructor 1 [mkType "lib.Book[]"] ];
     getFields := [];
     class_getModifiers := 1;
     isInterface := false |}.

Definition bookClass : ClassClass :=
  {| getMethods := [];
     getDeclaredConstructors := [];
     getFields := [ mkField 1 "shelf" (mkType "lib.Shelf") ];
     class_getModifiers := 1;
     isInterface := false |}.

Definition labelClass : ClassClass :=
  {| getMethods := [];
     getDeclaredConstructors := [ mkDeclaredConstructor 1 [] ];
     getFields := [];
     class_getModifiers := 1;
     isInterface := false |}.

(** A Reflection Client that knows the three classes of [lib] only. *)
Definition libraryClasses (classname : string) : option ClassClass :=
  if classname =? "lib.Shelf" then Some shelfClass
  else if classname =? "lib.Book" then Some bookClass
  else if classname =? "lib.Label" then Some labelClass
  else None.

(** A Reflection Client that knows [a.A] and [a.B] only. *)
Definition sampleClasses (classname : string) : option ClassClass :=
  if classname =? "a.A" then Some classA
  else if classname =? "a.B" then Some classB
  else None.

(** A Reflection Client that knows [a.A] but not the class [a.B] that
    [a.A] references. *)
Definition partialClasses (classname : string) : option ClassClass :=
  if classname =? "a.A" then Some classA else None.

(** A printer that renders every node as its kind. *)
Definition kindPrinter (n : ts.Node) : string :=
  match n with
  | ts.ImportDeclaration _ _ => "import"
  | ts.ClassDeclaration _ _ _ _ _ => "class"
  | ts.ExportDefault _ => "export default"
  end.

(** ** Persistence *)

(** The array [p] of [save] that is handed to [path.join] after
    [sourceDir]: the class name split at its dots, with ['.ts'] appended
    to the last element ([split] never returns an empty array). *)
Definition saveSegments (name : string) : list string :=
  let p := Js.split "." name in
  removelast p ++ [last p "" +++ ".ts"].

(** ** Observations used by the further properties *)

(** The elements of a list whose key was not seen before, in order. *)
Fixpoint keepFirstBy {A} (key : A -> string) (seen : list string) (l : list A)
    : list A :=
  match l with
  | [] => []
  | a :: l' =>
      if Js.includes (key a) seen then keepFirstBy key seen l'
      else a :: keepFirstBy key (seen ++ [key a]) l'
  end.

(** The property declaration built by [convertFields] for a field, before
    the comments. *)
Definition fieldSignature {Modifier : Modifier.ModifierClass}
    (r : list string) (this : Generator) (field : FieldClass) : ts.ClassElement :=
  ts.PropertyDeclaration (fieldModifiers (field_getModifiers field))
    (field_getName field)
    (fst (javaTypeToTypescriptType r (getTypeName (field_getType field))
            true true this))
    [].

(** The import declaration built by [getAdditionalImports] for the class
    [i] in the module of [classname]. *)
Definition importDeclarationOf (classname i : string) : ts.Node :=
  ts.ImportDeclaration
    [ts.mkImportSpecifier (Some (simpleNameOf i)) (Js.replaceAll "." "_" i)]
    (getPath classname i).

(** The names imported by an import declaration. *)
Definition importedNames (n : ts.Node) : list string :=
  match n with
  | ts.ImportDeclaration specifiers _ => map ts.importedName specifiers
  | _ => []
  end.

(** The names that every module imports from [java-bridge]. *)
Definition javaBridgeNames : list string :=
  ["importClass"; "JavaClass"; "BasicOrJavaType"].

(** The identifiers bound by the import declarations of a module. *)
Definition moduleImports (nodes : list (option ts.Node)) : list string :=
  flat_map (fun n => match n with Some n => importedNames n | None => [] end)
    nodes.

(** The text of the module of a class, computed from the class alone: its
    members converted by a fresh generator that knows of no resolved
    import. *)
Definition moduleText {Modifier : Modifier.ModifierClass}
    (printNode : ts.Node -> string) (classname : string) (cls : ClassClass)
    : string :=
  getText printNode
    (moduleNodes (snd (classMembers [] cls (newGenerator classname))) cls
       (fst (classMembers [] cls (newGenerator classname)))).

(** How a relative module specifier, read as its components, is resolved
    from a directory: ["."] stays, [".."] goes to the parent, any other
    component descends. *)
Fixpoint resolveRelative (dir : list string) (components : list string)
    : list string :=
  match components with
  | [] => dir
  | c :: rest =>
      if c =? "." then resolveRelative dir rest
      else if c =? ".." then resolveRelative (removelast dir) rest
      else resolveRelative (dir ++ [c]) rest
  end.

(** A character does not occur in a string. *)
Fixpoint freeOf (c : ascii) (s : string) : bool :=
  match s with
  | EmptyString => true
  | String a s' => negb (Ascii.eqb a c) && freeOf c s'
  end.

(** The number of members of all groups of a converted-methods object. *)
Definition groupedMethods (o : JsObject.t (list MethodDeclaration)) : nat :=
  list_sum (map (fun kv => List.length (snd kv)) o).

(** ** Observations used by closure completeness *)

(** The names that the type mapper hands to [createTypeReferenceNode] when
    it maps a type name: the name itself when it reaches the
    class-reference branch, the wrapper class of a numeric or boolean type
    in parameter position, and for an array what its element type gives.
    [depth] follows the recursion of [javaTypeToTypescriptType_depth]. *)
Fixpoint registered_depth (depth : nat) (javaType : string) (isParam : bool)
    : list string :=
  match mappingCase javaType with
  | ArrayCase =>
      match depth with
      | S depth' =>
          registered_depth depth'
            (substring 0 (String.length javaType - 2) javaType) isParam
      | O => []
      end
  | NumberCase | LongCase | BooleanCase =>
      if isParam then [primitiveToClassType javaType] else []
  | ClassReferenceCase => [javaType]
  | _ => []
  end.

Definition registered (javaType : string) (isParam : bool) : list string :=
  registered_depth (String.length javaType) javaType isParam.

(** The type names of a signature with the position each is mapped in:
    the return type in return position, the parameters in parameter
    position. *)
Definition signatureTypes (returnType : string) (parameterTypes : list TypeClass)
    : list (string * bool) :=
  (returnType, false) :: map (fun p => (getTypeName p, true)) parameterTypes.

(** The type names of the members of a class that [generate] emits, read
    off the metadata: the types of the public fields (of the fields of
    one name, the first only), the signatures of the public methods (those
    named [__proto__] apart) and, for a class that is neither abstract nor
    an interface, the signatures of the [newInstance] factories of the
    public constructors, which return the class itself. *)
Definition publicMemberTypes {Modifier : Modifier.ModifierClass}
    (classname : string) (cls : ClassClass) : list (string * bool) :=
  map (fun f => (getTypeName (field_getType f), true))
    (filter (fun f => Modifier.isPublic (field_getModifiers f))
       (keepFirstBy field_getName [] (getFields cls)))
  ++ flat_map
       (fun m =>
          signatureTypes (getTypeName (method_getReturnType m))
            (method_getParameterTypes m))
       (filter
          (fun m => Modifier.isPublic (method_getModifiers m)
                    && negb (method_getName m =? "__proto__"))
          (getMethods cls))
  ++ (if isInterface cls || Modifier.isAbstract (class_getModifiers cls)
      then []
      else
        flat_map
          (fun k => signatureTypes classname (constructor_getParameterTypes k))
          (filter (fun k => Modifier.isPublic (constructor_getModifiers k))
             (getDeclaredConstructors cls))).

(** The type nodes of the signature of a class element. *)
Definition signatureTypeNodes (e : ts.ClassElement) : list ts.TypeNode :=
  match e with
  | ts.PropertyDeclaration _ _ t _ => [t]
  | ts.MethodDeclaration _ _ params t _ => t :: map ts.parameterType params
  | ts.ConstructorDeclaration _ params _ _ => map ts.parameterType params
  end.

(** A type node of an emitted signature is the mapping of one of the type
    names [types], or the [Promise] of it. *)
Definition MappedFrom (r : list string) (this : Generator)
    (types : list (string * bool)) (T : ts.TypeNode) : Prop :=
  exists jt p strict,
    In (jt, p) types
    /\ (T = fst (javaTypeToTypescriptType r jt p strict this)
        \/ T = ts.TypeReferenceNode "Promise"
                 [fst (javaTypeToTypescriptType r jt p strict this)]).

(** A conversion by the generator of the class [c] pushes the names
    [delta] to [importsToResolve], in this order, and nothing else. *)
Definition Pushes {A} (c : string) (m : Gen A) (delta : list string) : Prop :=
  forall this,
    classname this = c ->
    classname (snd (m this)) = c
    /\ importsToResolve (snd (m this)) = importsToResolve this ++ delta.

(** The names pushed for the parameters of a signature, and for a method. *)
Definition parameterPushes (params : list string) : list string :=
  flat_map (fun p => registered p true) params.

Definition methodPushes (m : MethodDeclaration) : list string :=
  registered (returnType m) false ++ parameterPushes (parameters m).

(** A set of class names that the Reflection Client can load and that holds
    every name the type mapper registers for the members of its classes. *)
Definition closedUnderReferences {Modifier : Modifier.ModifierClass}
    (importClassAsync : string -> option ClassClass) (U : list string) : Prop :=
  forall c, In c U ->
    exists cls,
      importClassAsync c = Some cls
      /\ forall jt p n,
           In (jt, p) (publicMemberTypes c cls) ->
           In n (registered jt p) -> In n U.

(** * Properties *)

(** ** Strings *)

Lemma length_substring (s : string) :
  forall n m, n + m <= String.length s -> String.length (substring n m s) = m.
Proof.
  induction s as [|a s IH]; intros n m H; simpl in *.
  - destruct n, m; simpl in *; try lia; reflexivity.
  - destruct n as [|n].
    + destruct m as [|m]; simpl; [reflexivity|].
      f_equal. apply IH. lia.
    + apply IH. lia.
Qed.

Lemma length_append (s1 s2 : string) :
  String.length (s1 +++ s2) = String.length s1 + String.length s2.
Proof. induction s1; simpl; congruence. Qed.

Lemma append_empty_r (s : string) : s +++ "" = s.
Proof. induction s; simpl; congruence. Qed.

Lemma endsWith_length (s suffix : string) :
  Js.endsWith s suffix = true -> String.length suffix <= String.length s.
Proof.
  unfold Js.endsWith. intros H.
  apply andb_true_iff in H. destruct H as [H _].
  now apply Nat.leb_le in H.
Qed.

Lemma includes_In (x : string) (l : list string) :
  Js.includes x l = true <-> In x l.
Proof.
  unfold Js.includes. rewrite existsb_exists. split.
  - intros [y [Hy E]]. apply String.eqb_eq in E. now subst.
  - intros H. exists x. split; [assumption | apply String.eqb_refl].
Qed.

Lemma includes_not_In (x : string) (l : list string) :
  Js.includes x l = false <-> ~ In x l.
Proof.
  rewrite <- includes_In. destruct (Js.includes x l); split; intros; congruence.
Qed.

(** ** The recursion of the type mapper *)

Lemma javaTypeToTypescriptType_depth_irrelevant (d1 : nat) :
  forall d2 r javaType isParam strict this,
    String.length javaType <= d1 -> String.length javaType <= d2 ->
    javaTypeToTypescriptType_depth d1 r javaType isParam strict this =
    javaTypeToTypescriptType_depth d2 r javaType isParam strict this.
Proof.
  induction d1 as [|d1 IH]; intros d2 r jt p st this H1 H2.
  - destruct jt; simpl in H1; [|lia]. destruct d2; reflexivity.
  - destruct d2 as [|d2].
    + destruct jt; simpl in H2; [|lia]. reflexivity.
    + simpl.
      destruct ((jt =? "byte[]") || (jt =? "java.lang.Byte[]")); [reflexivity|].
      destruct (Js.endsWith jt "[]") eqn:E; [|reflexivity].
      apply endsWith_length in E. simpl in E.
      unfold bind. rewrite (IH d2); [reflexivity| |];
        rewrite length_substring; lia.
Qed.

(** The equation of the source: an array type maps its element type with the
    same [isParam] and with [strictNullTypes] at its default. *)
Lemma javaTypeToTypescriptType_unfold r javaType isParam strict this :
  javaTypeToTypescriptType r javaType isParam strict this =
  (if (javaType =? "byte[]") || (javaType =? "java.lang.Byte[]")
   then ret (createType strict (ts.TypeReferenceNode "Buffer" []))
   else if Js.endsWith javaType "[]"
   then
     elem <- javaTypeToTypescriptType r
               (substring 0 (String.length javaType - 2) javaType) isParam true ;;
     ret (createType strict (ts.ArrayTypeNode elem))
   else mapScalarType r javaType isParam strict) this.
Proof.
  unfold javaTypeToTypescriptType.
  assert (Hd : String.length javaType <= String.length javaType) by lia.
  revert Hd. generalize (String.length javaType) at 2 3 as d. intros d Hd.
  destruct d as [|n].
  - destruct javaType; simpl in Hd; [reflexivity | lia].
  - simpl.
    destruct ((javaType =? "byte[]") || (javaType =? "java.lang.Byte[]"));
      [reflexivity|].
    destruct (Js.endsWith javaType "[]") eqn:E; [|reflexivity].
    apply endsWith_length in E. simpl in E.
    unfold bind.
    rewrite (javaTypeToTypescriptType_depth_irrelevant n
               (String.length (substring 0 (String.length javaType - 2) javaType)));
      [reflexivity| |]; rewrite length_substring; lia.
Qed.

(** A name without array suffix goes to the second [switch]. *)
Lemma javaTypeToTypescriptType_scalar r javaType isParam strict this :
  Js.endsWith javaType "[]" = false ->
  javaTypeToTypescriptType r javaType isParam strict this =
  mapScalarType r javaType isParam strict this.
Proof.
  intros E. rewrite javaTypeToTypescriptType_unfold.
  destruct (String.eqb_spec javaType "byte[]") as [->|_]; [discriminate E|].
  destruct (String.eqb_spec javaType "java.lang.Byte[]") as [->|_];
    [discriminate E|].
  simpl. now rewrite E.
Qed.

Ltac name_case jt c :=
  let E := fresh "E" in
  destruct (String.eqb jt c) eqn:E;
  [apply String.eqb_eq in E; subst jt | apply String.eqb_neq in E].

Ltac name_cases jt :=
  repeat match goal with
  | H : context [String.eqb jt ?c] |- _ => name_case jt c
  | |- context [String.eqb jt ?c] => name_case jt c
  end.

(** [mappingCase] names the case that [javaTypeToTypescriptType] takes. *)
Lemma javaTypeToTypescriptType_cases r javaType isParam strict this :
  javaTypeToTypescriptType r javaType isParam strict this =
  match mappingCase javaType with
  | ByteArrayCase =>
      ret (createType strict (ts.TypeReferenceNode "Buffer" [])) this
  | ArrayCase =>
      (elem <- javaTypeToTypescriptType r
                 (substring 0 (String.length javaType - 2) javaType) isParam true ;;
       ret (createType strict (ts.ArrayTypeNode elem))) this
  | NumberCase =>
      createUnion r javaType isParam strict ts.NumberKeyword [] this
  | LongCase =>
      createUnion r javaType isParam strict ts.NumberKeyword [ts.BigIntKeyword] this
  | StringCase =>
      ret (createType strict (ts.KeywordTypeNode ts.StringKeyword)) this
  | BooleanCase =>
      createUnion r javaType isParam strict ts.BooleanKeyword [] this
  | VoidCase => ret (ts.KeywordTypeNode ts.VoidKeyword) this
  | ObjectCase =>
      (_ <- setUsesBasicOrJavaType ;;
       ret (createType strict (ts.TypeReferenceNode "BasicOrJavaType" []))) this
  | ClassReferenceCase =>
      (ref <- createTypeReferenceNode r isParam javaType ;;
       ret (createType strict ref)) this
  end.
Proof.
  rewrite javaTypeToTypescriptType_unfold. unfold mappingCase, mapScalarType.
  repeat match goal with
         | |- context [if ?b then _ else _] =>
             match b with
             | context [String.eqb] => destruct b
             | Js.endsWith _ _ => destruct b
             end
         end; reflexivity.
Qed.

Lemma mappingCase_default javaType :
  mappingCase javaType = ClassReferenceCase <-> reachesDefaultCase javaType = true.
Proof.
  unfold mappingCase, reachesDefaultCase, scalarCases, Js.includes. simpl existsb.
  destruct (Js.endsWith javaType "[]") eqn:E.
  - split; [|discriminate].
    name_case javaType "byte[]"; [discriminate|].
    name_case javaType "java.lang.Byte[]"; discriminate.
  - name_case javaType "byte[]"; [discriminate|].
    name_case javaType "java.lang.Byte[]"; [discriminate|].
    cbv beta iota delta [orb negb andb].
    name_cases javaType; split; try discriminate; reflexivity.
Qed.

(** ** Type Mapper: void, and the nullability request *)

Lemma nullability_matters r javaType this :
  ~ In javaType neverNullTypes ->
  fst (javaTypeToTypescriptType r javaType false true this) <>
  fst (javaTypeToTypescriptType r javaType false false this).
Proof.
  intros Hn H. rewrite !javaTypeToTypescriptType_unfold in H.
  destruct (javaType =? "byte[]") eqn:E1;
    [apply String.eqb_eq in E1; subst; vm_compute in H; discriminate|].
  destruct (javaType =? "java.lang.Byte[]") eqn:E2;
    [apply String.eqb_eq in E2; subst; vm_compute in H; discriminate|].
  simpl in H.
  destruct (Js.endsWith javaType "[]") eqn:E3.
  - unfold bind in H.
    destruct (javaTypeToTypescriptType r _ false true this) as [e s'].
    simpl in H. discriminate.
  - unfold mapScalarType in H.
    name_cases javaType;
      try (vm_compute in H; discriminate);
      try (apply Hn; simpl; tauto).
Qed.

Lemma mappingCase_void javaType :
  mappingCase javaType = VoidCase ->
  javaType = "void" \/ javaType = "java.lang.Void".
Proof.
  unfold mappingCase.
  name_case javaType "byte[]"; [discriminate|].
  name_case javaType "java.lang.Byte[]"; [discriminate|].
  cbv beta iota delta [orb].
  destruct (Js.endsWith javaType "[]"); [discriminate|].
  name_cases javaType; try discriminate; tauto.
Qed.

(** C10 (as stated, refuted): the mapping of [void] is not the only one that
    ignores the nullability request; the primitive [int] is mapped to the
    same type, with the same effect on the generator, whether nullability
    is requested or not, in every position. *)
Lemma void_not_the_only_mapping_ignoring_nullability :
  ~ (forall javaType : string,
       (forall r isParam this,
           javaTypeToTypescriptType r javaType isParam true this =
           javaTypeToTypescriptType r javaType isParam false this) ->
       javaType = "void" \/ javaType = "java.lang.Void").
Proof.
  intros H.
  destruct (H "int") as [E|E]; [|discriminate E|discriminate E].
  intros r isParam this. destruct isParam; reflexivity.
Qed.

(** C10 (amended).  Mapping [void] or [java.lang.Void] yields the bare void keyword
    type and leaves the generator untouched, in every position and under
    both nullability modes.  The void case is the only case of the mapper
    that ignores the nullability request for every type name it handles.
    Type name by type name, the mapping is the same under both modes for
    [void], [java.lang.Void] and for the primitives that go through
    [createUnion] ([int], [float], [double], [byte], [short], [long],
    [boolean]), whose cases honour the request for their boxed
    counterparts, and for no other name. *)
Theorem void_maps_to_bare_void_keyword :
  (forall r isParam strict this,
      javaTypeToTypescriptType r "void" isParam strict this =
      (ts.KeywordTypeNode ts.VoidKeyword, this))
  /\ (forall r isParam strict this,
      javaTypeToTypescriptType r "java.lang.Void" isParam strict this =
      (ts.KeywordTypeNode ts.VoidKeyword, this))
  /\ (forall k : MappingCase,
      (forall javaType r isParam this,
          mappingCase javaType = k ->
          javaTypeToTypescriptType r javaType isParam true this =
          javaTypeToTypescriptType r javaType isParam false this)
      <-> k = VoidCase)
  /\ (forall r javaType this,
      (forall isParam,
          javaTypeToTypescriptType r javaType isParam true this =
          javaTypeToTypescriptType r javaType isParam false this)
      <-> In javaType neverNullTypes).
Proof.
  split; [reflexivity|]. split; [reflexivity|]. split.
  - intros k. split.
    + intros H.
      assert (Hdiff : forall javaType,
                 ~ In javaType neverNullTypes -> mappingCase javaType <> k).
      { intros jt Hn Hk.
        apply (nullability_matters [] jt (newGenerator "") Hn).
        now rewrite (H jt [] false (newGenerator "") Hk). }
      destruct k; try reflexivity; exfalso.
      * apply (Hdiff "byte[]"); [simpl; intuition discriminate | reflexivity].
      * apply (Hdiff "int[]"); [simpl; intuition discriminate | reflexivity].
      * apply (Hdiff "java.lang.Integer");
          [simpl; intuition discriminate | reflexivity].
      * apply (Hdiff "java.lang.Long");
          [simpl; intuition discriminate | reflexivity].
      * apply (Hdiff "java.lang.String");
          [simpl; intuition discriminate | reflexivity].
      * apply (Hdiff "java.lang.Boolean");
          [simpl; intuition discriminate | reflexivity].
      * apply (Hdiff "java.lang.Object");
          [simpl; intuition discriminate | reflexivity].
      * apply (Hdiff "a.B"); [simpl; intuition discriminate | reflexivity].
    + intros -> jt r isParam this Hk.
      destruct (mappingCase_void jt Hk) as [->| ->]; reflexivity.
  - intros r jt this. split.
    + intros H.
      destruct (in_dec string_dec jt neverNullTypes) as [Hin|Hn]; [assumption|].
      exfalso. apply (nullability_matters r jt this Hn).
      now rewrite (H false).
    + intros Hin isParam. unfold neverNullTypes in Hin. simpl in Hin.
      repeat (destruct Hin as [<-|Hin]; [destruct isParam; reflexivity|]).
      contradiction.
Qed.

(** ** Type Mapper: numeric types *)

(** The reference emitted by [createTypeReferenceNode]. *)
Lemma createTypeReferenceNode_value r isParam name this :
  fst (createTypeReferenceNode r isParam name this) =
  ts.TypeReferenceNode
    (if name =? classname this
     then simpleNameOf name +++ (if isParam then "Class" else "")
     else Js.replaceAll "." "_" name) [].
Proof.
  unfold createTypeReferenceNode, bind, pushImport, getClassname, ret. simpl.
  destruct (name =? classname this); simpl; [|reflexivity].
  destruct isParam; reflexivity.
Qed.

(** The union built by [createUnion]. *)
Lemma createUnion_value r javaType isParam strict type additionalTypes this :
  fst (createUnion r javaType isParam strict type additionalTypes this) =
  ts.UnionTypeNode
    ((if isParam
      then [fst (createTypeReferenceNode r true (primitiveToClassType javaType) this)]
           ++ map ts.KeywordTypeNode additionalTypes
      else [])
     ++ [ts.KeywordTypeNode type]
     ++ (if negb (isPrimitive javaType) && strict
         then [ts.NullLiteralTypeNode] else [])).
Proof.
  unfold createUnion. destruct isParam; [|reflexivity].
  cbv beta iota delta [negb bind ret].
  destruct (createTypeReferenceNode r true (primitiveToClassType javaType) this).
  simpl fst. now rewrite <- app_assoc.
Qed.

(** Rewrites the mapping of a concrete name whose case calls [createUnion]. *)
Ltac map_by_createUnion kind adds :=
  rewrite javaTypeToTypescriptType_scalar by reflexivity;
  match goal with
  | |- context [mapScalarType ?r ?jt ?p ?s ?this] =>
      change (mapScalarType r jt p s this)
        with (createUnion r jt p s kind adds this)
  end;
  rewrite createUnion_value, ?createTypeReferenceNode_value.

(** Fields are mapped as parameters: the property type of a public field is
    [javaTypeToTypescriptType(typeName, true)]. *)
Lemma convertFields_public_type {Modifier : Modifier.ModifierClass}
    r modifiers fieldName javaType this :
  Modifier.isPublic modifiers = true ->
  map ts.elementType
    (fst (convertFields r [mkField modifiers fieldName (mkType javaType)] this)) =
  [Some (fst (javaTypeToTypescriptType r javaType true true this))].
Proof.
  intros Hp. simpl. rewrite Hp. unfold bind, ret.
  destruct (javaTypeToTypescriptType r javaType true true this) as [t s'].
  reflexivity.
Qed.

(** C3 (as stated, refuted): the public field [count] of type
    [java.lang.Integer] of a class [a.B] is mapped to a union of three
    members, the first of which is the reference to the boxed wrapper. *)
Lemma boxed_field_union_has_wrapper_reference :
  map ts.elementType
    (fst (convertFields [] [mkField 1 "count" (mkType "java.lang.Integer")]
            (newGenerator "a.B"))) =
  [Some (ts.UnionTypeNode
           [ts.TypeReferenceNode "java_lang_Integer" [];
            ts.KeywordTypeNode ts.NumberKeyword;
            ts.NullLiteralTypeNode])]
  /\ existsb ts.isTypeReference
       (ts.unionMembers
          (fst (javaTypeToTypescriptType [] "java.lang.Integer" true true
                  (newGenerator "a.B")))) = true.
Proof. split; reflexivity. Qed.

(** C3 (amended).  A boxed numeric type in return position (where nullability
    is requested) is mapped to the union of exactly the numeric type and
    the null literal; in method-parameter position the union additionally
    starts with the reference to the boxed wrapper; and a public field is
    mapped exactly as a parameter, so its union holds the wrapper reference
    too. *)
Theorem boxed_numeric_nullability_widening {Modifier : Modifier.ModifierClass} :
  forall r this,
    Forall
      (fun javaType =>
         fst (javaTypeToTypescriptType r javaType false true this) =
         ts.UnionTypeNode
           [ts.KeywordTypeNode ts.NumberKeyword; ts.NullLiteralTypeNode]
         /\ fst (javaTypeToTypescriptType r javaType true true this) =
            ts.UnionTypeNode
              [ts.TypeReferenceNode
                 (if javaType =? classname this
                  then simpleNameOf javaType +++ "Class"
                  else Js.replaceAll "." "_" javaType) [];
               ts.KeywordTypeNode ts.NumberKeyword; ts.NullLiteralTypeNode]
         /\ (forall index,
                ts.parameterType (fst (convertParameter r javaType index this)) =
                fst (javaTypeToTypescriptType r javaType true true this))
         /\ (forall modifiers fieldName,
                Modifier.isPublic modifiers = true ->
                map ts.elementType
                  (fst (convertFields r
                          [mkField modifiers fieldName (mkType javaType)] this)) =
                [Some (fst (javaTypeToTypescriptType r javaType true true this))]))
      ["java.lang.Integer"; "java.lang.Float"; "java.lang.Double";
       "java.lang.Byte"; "java.lang.Short"].
Proof.
  intros r this.
  repeat (apply Forall_cons;
          [ split; [reflexivity|];
            split; [ map_by_createUnion ts.NumberKeyword (@nil ts.SyntaxKind);
                     reflexivity |];
            split; [ intros index; unfold convertParameter, bind, ret;
                     destruct (javaTypeToTypescriptType r _ true true this);
                     reflexivity
                   | intros; now apply convertFields_public_type ] |]).
  apply Forall_nil.
Qed.

(** C4 (as stated, refuted): in return position [long] is mapped to a union
    whose only member is the numeric type; the bigint type is absent. *)
Lemma long_return_type_has_no_bigint :
  fst (javaTypeToTypescriptType [] "long" false true (newGenerator "a.B")) =
  ts.UnionTypeNode [ts.KeywordTypeNode ts.NumberKeyword]
  /\ existsb (ts.isKeyword ts.BigIntKeyword)
       (ts.unionMembers
          (fst (javaTypeToTypescriptType [] "long" false true
                  (newGenerator "a.B")))) = false
  /\ existsb (ts.isKeyword ts.BigIntKeyword)
       (ts.unionMembers
          (fst (javaTypeToTypescriptType [] "java.lang.Long" false true
                  (newGenerator "a.B")))) = false.
Proof. repeat split; reflexivity. Qed.

(** C4 (amended).  In parameter position, and in field position, which is
    mapped as a parameter, [long] and [java.lang.Long] yield the union of
    the [java.lang.Long] wrapper reference, the bigint type and the numeric
    type; in return position they yield a union of the numeric type alone.
    In every position the null literal is appended exactly when nullability
    is requested and the source type is not the primitive [long]. *)
Theorem long_maps_to_number_and_bigint_for_parameters
    {Modifier : Modifier.ModifierClass} :
  forall r strict this,
    Forall
      (fun javaType =>
         let nullable :=
           if negb (javaType =? "long") && strict
           then [ts.NullLiteralTypeNode] else [] in
         fst (javaTypeToTypescriptType r javaType true strict this) =
         ts.UnionTypeNode
           ([ts.TypeReferenceNode
               (if "java.lang.Long" =? classname this
                then "LongClass" else "java_lang_Long") [];
             ts.KeywordTypeNode ts.BigIntKeyword;
             ts.KeywordTypeNode ts.NumberKeyword] ++ nullable)
         /\ fst (javaTypeToTypescriptType r javaType false strict this) =
            ts.UnionTypeNode ([ts.KeywordTypeNode ts.NumberKeyword] ++ nullable)
         /\ (forall modifiers fieldName,
                Modifier.isPublic modifiers = true ->
                map ts.elementType
                  (fst (convertFields r
                          [mkField modifiers fieldName (mkType javaType)] this)) =
                [Some (fst (javaTypeToTypescriptType r javaType true true this))]))
      ["long"; "java.lang.Long"].
Proof.
  intros r strict this.
  repeat (apply Forall_cons;
          [ split; [ map_by_createUnion ts.NumberKeyword [ts.BigIntKeyword];
                     destruct strict; reflexivity |];
            split; [ destruct strict; reflexivity
                   | intros; now apply convertFields_public_type ] |]).
  apply Forall_nil.
Qed.

(** ** Type Mapper: class references *)

Lemma reachesDefaultCase_mapping r javaType isParam strict this :
  reachesDefaultCase javaType = true ->
  javaTypeToTypescriptType r javaType isParam strict this =
  (ref <- createTypeReferenceNode r isParam javaType ;;
   ret (createType strict ref)) this.
Proof.
  unfold reachesDefaultCase. intros H.
  apply andb_true_iff in H. destruct H as [Ha Hs].
  apply negb_true_iff in Ha. apply negb_true_iff in Hs.
  rewrite javaTypeToTypescriptType_scalar by assumption.
  unfold mapScalarType.
  name_cases javaType; try discriminate Hs. reflexivity.
Qed.

(** ** Dependency Resolver: relative import paths *)

Lemma nullCommonPrefix_common (common restThis restImport : list string) :
  diverge restThis restImport ->
  nullCommonPrefix (common ++ restThis) (common ++ restImport) =
  (map (fun _ => None) common ++ map Some restThis,
   map (fun _ => None) common ++ map Some restImport).
Proof.
  intros Hd. induction common as [|c common IH]; simpl.
  - destruct restThis as [|t rt], restImport as [|i ri]; simpl; try reflexivity.
    simpl in Hd. destruct (String.eqb_spec i t); [congruence | reflexivity].
  - rewrite String.eqb_refl, IH. reflexivity.
Qed.

Lemma filter_truthy_segments (common rest : list string) :
  Forall (fun s => s <> "") rest ->
  filter Js.truthy (map (fun _ => None) common ++ map Some rest) = map Some rest.
Proof.
  intros Hne. induction common as [|c common IH]; simpl; [|exact IH].
  induction Hne as [|s rest Hs _ IH]; simpl; [reflexivity|].
  destruct (String.eqb_spec s ""); [contradiction|]. simpl. now rewrite IH.
Qed.

Lemma join_empty_segments (rest : list string) :
  Js.join "../" (map (fun _ => "") (map Some rest)) =
  parentSteps (List.length rest - 1).
Proof.
  destruct rest as [|s rest]; [reflexivity|].
  replace (List.length (s :: rest) - 1) with (List.length rest) by (simpl; lia).
  revert s. induction rest as [|s' rest IH]; intros s; [reflexivity|].
  change (Js.join "../" (map (fun _ => "") (map Some (s :: s' :: rest))))
    with ("" +++ "../" +++
          Js.join "../" (map (fun _ => "") (map Some (s' :: rest)))).
  rewrite IH. reflexivity.
Qed.

Lemma map_segmentText_Some (rest : list string) :
  map segmentText (map Some rest) = rest.
Proof. induction rest; simpl; congruence. Qed.

(** C8.  The relative import path strips the longest common leading sequence
    of dotted segments, ascends one directory for every remaining segment of
    the importing class but its last (the file of the class itself), and
    descends along the remaining segments of the imported class, the last
    naming the file. *)
Theorem getPath_strips_common_prefix
    (classname i : string) (common restThis restImport : list string)
    (Hthis : Js.split "." classname = common ++ restThis)
    (Himport : Js.split "." i = common ++ restImport)
    (Hlongest : diverge restThis restImport)
    (HthisSegments : Forall (fun s => s <> "") restThis)
    (HimportSegments : Forall (fun s => s <> "") restImport) :
  getPath classname i =
  "./" +++ parentSteps (List.length restThis - 1) +++ Js.join "/" restImport.
Proof.
  unfold getPath. rewrite Hthis, Himport.
  rewrite nullCommonPrefix_common by assumption.
  rewrite !filter_truthy_segments by assumption.
  now rewrite join_empty_segments, map_segmentText_Some.
Qed.

(** C8 on two imports: [a.b.C] importing [a.b.d.E], and
    [a.b.C] importing [x.y.Z]. *)
Lemma getPath_examples :
  getPath "a.b.C" "a.b.d.E" = "./d/E"
  /\ getPath "a.b.C" "x.y.Z" = "./../../x/y/Z".
Proof.
  split.
  - apply (getPath_strips_common_prefix "a.b.C" "a.b.d.E" ["a"; "b"] ["C"] ["d"; "E"]);
      try reflexivity; try (repeat constructor; discriminate).
  - apply (getPath_strips_common_prefix "a.b.C" "x.y.Z" [] ["a"; "b"; "C"] ["x"; "y"; "Z"]);
      try reflexivity; try (repeat constructor; discriminate).
Defined.

(** ** Conversions only register names *)

Lemma register_nil r this : register r [] false this = this.
Proof.
  destruct this as [c u a i]. unfold register. simpl.
  now rewrite orb_false_r, !app_nil_r.
Qed.

Lemma register_register r d1 u1 d2 u2 this :
  register r d2 u2 (register r d1 u1 this) = register r (d1 ++ d2) (u1 || u2) this.
Proof.
  unfold register. simpl.
  now rewrite filter_app, !app_assoc, orb_assoc.
Qed.

Lemma Tracked_ret {A} (a : A) : Tracked (fun _ => ret a).
Proof.
  intros c. exists a, [], false. intros r this _.
  now rewrite register_nil.
Qed.

Lemma Tracked_bind {A B} (m : list string -> Gen A) (k : list string -> A -> Gen B) :
  Tracked m -> (forall a, Tracked (fun r => k r a)) ->
  Tracked (fun r => bind (m r) (k r)).
Proof.
  intros Hm Hk c.
  destruct (Hm c) as (v1 & d1 & u1 & H1).
  destruct (Hk v1 c) as (v2 & d2 & u2 & H2).
  exists v2, (d1 ++ d2), (u1 || u2). intros r this Hc.
  unfold bind. rewrite (H1 r this Hc).
  rewrite (H2 r (register r d1 u1 this)) by exact Hc.
  now rewrite register_register.
Qed.

Lemma Tracked_getClassname : Tracked (fun _ => getClassname).
Proof.
  intros c. exists c, [], false. intros r this Hc.
  unfold getClassname. now rewrite register_nil, Hc.
Qed.

Lemma Tracked_setUsesBasicOrJavaType : Tracked (fun _ => setUsesBasicOrJavaType).
Proof.
  intros c. exists tt, [], true. intros r this _.
  unfold setUsesBasicOrJavaType, register. simpl.
  now rewrite orb_true_r, !app_nil_r.
Qed.

Lemma Tracked_pushImport name : Tracked (fun r => pushImport r name).
Proof.
  intros c. exists tt, [name], false. intros r this _.
  unfold pushImport, register. simpl. rewrite orb_false_r.
  destruct (Js.includes name r); simpl; now rewrite ?app_nil_r.
Qed.

Lemma Tracked_mapM {A B} (f : list string -> A -> nat -> Gen B) :
  (forall a i, Tracked (fun r => f r a i)) ->
  forall l i, Tracked (fun r => mapM (f r) i l).
Proof.
  intros Hf l. induction l as [|a l IH]; intros i; simpl.
  - apply Tracked_ret.
  - apply Tracked_bind; [apply Hf|]. intros b.
    apply Tracked_bind; [apply IH|]. intros bs. apply Tracked_ret.
Qed.

Lemma Tracked_createTypeReferenceNode isParam name :
  Tracked (fun r => createTypeReferenceNode r isParam name).
Proof.
  unfold createTypeReferenceNode.
  apply Tracked_bind; [apply Tracked_pushImport|]. intros _.
  apply Tracked_bind; [apply Tracked_getClassname|]. intros cls.
  apply Tracked_ret.
Qed.

Lemma Tracked_createUnion javaType isParam strict type additionalTypes :
  Tracked (fun r => createUnion r javaType isParam strict type additionalTypes).
Proof.
  unfold createUnion. destruct (negb isParam).
  - apply Tracked_ret.
  - apply Tracked_bind; [apply Tracked_createTypeReferenceNode|]. intros ref.
    apply Tracked_ret.
Qed.

Lemma Tracked_mapScalarType javaType isParam strict :
  Tracked (fun r => mapScalarType r javaType isParam strict).
Proof.
  unfold mapScalarType.
  repeat match goal with
         | |- Tracked (fun r => if ?b then _ else _) => destruct b
         end;
    try apply Tracked_createUnion; try apply Tracked_ret.
  - apply Tracked_bind; [apply Tracked_setUsesBasicOrJavaType|]. intros _.
    apply Tracked_ret.
  - apply Tracked_bind; [apply Tracked_createTypeReferenceNode|]. intros ref.
    apply Tracked_ret.
Qed.

Lemma Tracked_javaTypeToTypescriptType_depth depth :
  forall javaType isParam strict,
    Tracked (fun r => javaTypeToTypescriptType_depth depth r javaType isParam strict).
Proof.
  induction depth as [|depth IH]; intros javaType isParam strict; simpl;
    (destruct ((javaType =? "byte[]") || (javaType =? "java.lang.Byte[]"));
     [apply Tracked_ret|]);
    (destruct (Js.endsWith javaType "[]"); [|apply Tracked_mapScalarType]).
  - apply Tracked_ret.
  - apply Tracked_bind; [apply IH|]. intros elem. apply Tracked_ret.
Qed.

Lemma Tracked_javaTypeToTypescriptType javaType isParam strict :
  Tracked (fun r => javaTypeToTypescriptType r javaType isParam strict).
Proof. apply Tracked_javaTypeToTypescriptType_depth. Qed.

Lemma Tracked_value {A} (m : list string -> Gen A) :
  Tracked m ->
  forall r1 r2 this1 this2,
    classname this1 = classname this2 ->
    fst (m r1 this1) = fst (m r2 this2).
Proof.
  intros Hm r1 r2 this1 this2 Hc.
  destruct (Hm (classname this1)) as (v & d & u & H).
  rewrite (H r1 this1 eq_refl), (H r2 this2) by (symmetry; exact Hc).
  reflexivity.
Qed.

Lemma Tracked_classname {A} (m : list string -> Gen A) :
  Tracked m -> forall r this, classname (snd (m r this)) = classname this.
Proof.
  intros Hm r this.
  destruct (Hm (classname this)) as (v & d & u & H).
  now rewrite (H r this eq_refl).
Qed.

(** The names registered do not depend on [resolvedImports], which only
    selects those that go to [additionalImports]. *)
Lemma Tracked_imports {A} (m : list string -> Gen A) :
  Tracked m ->
  forall cls, exists delta,
    forall r this,
      classname this = cls ->
      importsToResolve (snd (m r this)) = importsToResolve this ++ delta
      /\ additionalImports (snd (m r this)) =
         additionalImports this
         ++ filter (fun n => negb (Js.includes n r)) delta.
Proof.
  intros Hm cls. destruct (Hm cls) as (v & d & u & H).
  exists d. intros r this Hc. rewrite (H r this Hc). split; reflexivity.
Qed.

Section TrackedMembers.

Context {Modifier : Modifier.ModifierClass}.

Lemma Tracked_convertParameter param index :
  Tracked (fun r => convertParameter r param index).
Proof.
  unfold convertParameter.
  apply Tracked_bind; [apply Tracked_javaTypeToTypescriptType|].
  intros type. apply Tracked_ret.
Qed.

Lemma Tracked_convertParameters params :
  Tracked (fun r => convertParameters r params).
Proof.
  unfold convertParameters.
  apply (Tracked_mapM (fun r => convertParameter r)).
  intros a i. apply Tracked_convertParameter.
Qed.

Lemma Tracked_createMethod m name i isSync nonNull :
  Tracked (fun r => createMethod r m name i isSync nonNull).
Proof.
  unfold createMethod.
  apply Tracked_bind; [apply Tracked_javaTypeToTypescriptType|]. intros t.
  apply Tracked_bind; [apply Tracked_convertParameters|]. intros ps.
  apply Tracked_ret.
Qed.

Lemma Tracked_convertMethod_from method name :
  forall i, Tracked (fun r => convertMethod_from r i method name).
Proof.
  induction method as [|m rest IH]; intros i; simpl.
  - apply Tracked_ret.
  - apply Tracked_bind; [apply Tracked_createMethod|]. intros a.
    apply Tracked_bind; [apply Tracked_createMethod|]. intros s.
    apply Tracked_bind; [apply IH|]. intros res. apply Tracked_ret.
Qed.

Lemma Tracked_convertMethod method name :
  Tracked (fun r => convertMethod r method name).
Proof. apply Tracked_convertMethod_from. Qed.

Lemma Tracked_convertMethodEntries entries :
  Tracked (fun r => convertMethodEntries r entries).
Proof.
  induction entries as [|[key method] rest IH]; simpl.
  - apply Tracked_ret.
  - apply Tracked_bind; [apply Tracked_convertMethod|]. intros ms.
    apply Tracked_bind; [apply IH|]. intros res. apply Tracked_ret.
Qed.

Lemma Tracked_convertFields fields :
  Tracked (fun r => convertFields r fields).
Proof.
  induction fields as [|field rest IH]; simpl.
  - apply Tracked_ret.
  - destruct (Modifier.isPublic (field_getModifiers field)); [|exact IH].
    apply Tracked_bind; [apply Tracked_javaTypeToTypescriptType|]. intros t.
    apply Tracked_bind; [apply IH|]. intros res. apply Tracked_ret.
Qed.

Lemma Tracked_convertConstructors constructors :
  Tracked (fun r => convertConstructors r constructors).
Proof.
  unfold convertConstructors.
  apply Tracked_bind.
  - apply (Tracked_mapM
             (fun r t i =>
                bind (mapM (convertParameter r) 0 t) _)).
    intros t i.
    apply Tracked_bind.
    + apply (Tracked_mapM (fun r => convertParameter r)).
      intros a j. apply Tracked_convertParameter.
    + intros ps. apply Tracked_ret.
  - intros cs. apply Tracked_bind.
    + apply (Tracked_mapM
               (fun r t i => bind getClassname _)).
      intros t i.
      apply (Tracked_bind (fun _ => getClassname)); [apply Tracked_getClassname|].
      intros cls. apply Tracked_createMethod.
    + intros ns. apply Tracked_ret.
Qed.

Lemma Tracked_classMembers cls :
  Tracked (fun r => classMembers r cls).
Proof.
  unfold classMembers.
  apply Tracked_bind; [apply Tracked_convertFields|]. intros fs.
  apply Tracked_bind; [apply Tracked_convertMethodEntries|]. intros ms.
  destruct (negb (isAbstractOrInterface cls)).
  - apply Tracked_bind; [apply Tracked_convertConstructors|]. intros cs.
    apply Tracked_ret.
  - apply Tracked_ret.
Qed.

End TrackedMembers.

(** ** Member Converter: the declarations of one method *)

Lemma bind_run {A B} (m : Gen A) (k : A -> Gen B) (this : Generator) :
  bind m k this = k (fst (m this)) (snd (m this)).
Proof. unfold bind. destruct (m this). reflexivity. Qed.

Lemma parameterDeclarations_classname r1 r2 this1 this2 params :
  classname this1 = classname this2 ->
  forall i,
    parameterDeclarations r1 this1 i params =
    parameterDeclarations r2 this2 i params.
Proof.
  intros Hc. unfold parameterDeclarations.
  induction params as [|q params IH]; intros i; [reflexivity|].
  simpl. f_equal; [|apply IH]. f_equal.
  apply (Tracked_value (fun r => javaTypeToTypescriptType r q true true)).
  - apply Tracked_javaTypeToTypescriptType.
  - exact Hc.
Qed.

Section MethodDeclarations.

Context {Modifier : Modifier.ModifierClass}.

Lemma mapM_convertParameter_value r params :
  forall i this,
    fst (mapM (convertParameter r) i params this) =
    parameterDeclarations r this i params.
Proof.
  induction params as [|p params IH]; intros i this; [reflexivity|].
  simpl. rewrite !bind_run. unfold ret. simpl fst.
  rewrite IH. unfold parameterDeclarations at 2. simpl. f_equal.
  - unfold convertParameter. rewrite bind_run. reflexivity.
  - apply parameterDeclarations_classname.
    apply (Tracked_classname (fun r => convertParameter r p i)).
    apply Tracked_convertParameter.
Qed.

Lemma withoutComments_addSyntheticLeadingComment e kind text :
  withoutComments (ts.addSyntheticLeadingComment e kind text) = withoutComments e.
Proof. destruct e; reflexivity. Qed.

Lemma createMethod_signature r m name i isSync nonNull this :
  withoutComments (fst (createMethod r m name i isSync nonNull this)) =
  methodSignature r this m name isSync nonNull.
Proof.
  unfold createMethod. rewrite !bind_run. unfold ret. simpl fst.
  rewrite withoutComments_addSyntheticLeadingComment.
  unfold convertParameters. rewrite mapM_convertParameter_value.
  rewrite (parameterDeclarations_classname r r _ this).
  - unfold methodSignature.
    destruct (i =? 0)%nat; rewrite ?withoutComments_addSyntheticLeadingComment;
      destruct isSync; reflexivity.
  - apply (Tracked_classname
             (fun r => javaTypeToTypescriptType r (returnType m) false
                         (negb nonNull))).
    apply Tracked_javaTypeToTypescriptType.
Qed.

End MethodDeclarations.

(** ** Type Mapper: references to the class being generated *)

(** C9 (as stated, refuted): in field position the class being generated is
    referenced by the self alias [BClass], as in parameter position, and
    not by the plain simple name [B] of the return position. *)
Lemma field_of_own_type_uses_self_alias :
  map ts.elementType
    (fst (convertFields [] [mkField 1 "next" (mkType "a.B")] (newGenerator "a.B"))) =
  [Some (ts.UnionTypeNode [ts.TypeReferenceNode "BClass" []; ts.NullLiteralTypeNode])]
  /\ fst (javaTypeToTypescriptType [] "a.B" false true (newGenerator "a.B")) =
     ts.UnionTypeNode [ts.TypeReferenceNode "B" []; ts.NullLiteralTypeNode].
Proof. split; reflexivity. Qed.

(** C9 (amended).  A class name that reaches the class-reference branch is
    referenced as follows.  When it is the class being generated: by the
    self alias (simple name followed by [Class]) in method-parameter
    position and in field position, which is mapped as a parameter, and by
    the plain simple name in return position; the two differ.  Any other
    class is referenced, in every position, by its dotted name with the
    dots replaced by underscores. *)
Theorem self_reference_uses_distinguished_alias
    {Modifier : Modifier.ModifierClass}
    r this javaType (Hdefault : reachesDefaultCase javaType = true) :
  (javaType = classname this ->
     (forall index,
         ts.parameterType (fst (convertParameter r javaType index this)) =
         ts.UnionTypeNode
           [ts.TypeReferenceNode (simpleNameOf javaType +++ "Class") [];
            ts.NullLiteralTypeNode])
     /\ (forall modifiers fieldName,
            Modifier.isPublic modifiers = true ->
            map ts.elementType
              (fst (convertFields r
                      [mkField modifiers fieldName (mkType javaType)] this)) =
            [Some (ts.UnionTypeNode
                     [ts.TypeReferenceNode (simpleNameOf javaType +++ "Class") [];
                      ts.NullLiteralTypeNode])])
     /\ (forall strict,
            fst (javaTypeToTypescriptType r javaType false strict this) =
            createType strict (ts.TypeReferenceNode (simpleNameOf javaType) []))
     /\ (forall m name i nonNull,
            returnType m = javaType ->
            ts.elementType (fst (createMethod r m name i true nonNull this)) =
            Some (createType (negb nonNull)
                    (ts.TypeReferenceNode (simpleNameOf javaType) [])))
     /\ simpleNameOf javaType +++ "Class" <> simpleNameOf javaType)
  /\ (javaType <> classname this ->
      forall isParam strict,
        fst (javaTypeToTypescriptType r javaType isParam strict this) =
        createType strict
          (ts.TypeReferenceNode (Js.replaceAll "." "_" javaType) [])).
Proof.
  assert (Hmap : forall isParam strict,
             fst (javaTypeToTypescriptType r javaType isParam strict this) =
             createType strict
               (fst (createTypeReferenceNode r isParam javaType this))).
  { intros isParam strict.
    rewrite reachesDefaultCase_mapping by assumption.
    unfold bind, ret.
    destruct (createTypeReferenceNode r isParam javaType this). reflexivity. }
  split.
  - intros Hself.
    assert (Hp : fst (javaTypeToTypescriptType r javaType true true this) =
                 ts.UnionTypeNode
                   [ts.TypeReferenceNode (simpleNameOf javaType +++ "Class") [];
                    ts.NullLiteralTypeNode]).
    { rewrite Hmap, createTypeReferenceNode_value.
      rewrite <- Hself, String.eqb_refl. reflexivity. }
    assert (Hr : forall strict,
               fst (javaTypeToTypescriptType r javaType false strict this) =
               createType strict (ts.TypeReferenceNode (simpleNameOf javaType) [])).
    { intros strict. rewrite Hmap, createTypeReferenceNode_value.
      rewrite <- Hself, String.eqb_refl. now rewrite append_empty_r. }
    split; [|split; [|split; [|split]]].
    + intros index. unfold convertParameter, bind, ret.
      rewrite <- Hp.
      destruct (javaTypeToTypescriptType r javaType true true this). reflexivity.
    + intros modifiers fieldName Hpub.
      rewrite convertFields_public_type by assumption. now rewrite Hp.
    + exact Hr.
    + intros m name i nonNull Hm.
      assert (Ht : forall e, ts.elementType e = ts.elementType (withoutComments e))
        by (intros e; destruct e; reflexivity).
      rewrite Ht, createMethod_signature. unfold methodSignature. simpl.
      now rewrite Hm, Hr.
    + intros E. apply (f_equal String.length) in E.
      rewrite length_append in E. simpl in E. lia.
  - intros Hother isParam strict.
    rewrite Hmap, createTypeReferenceNode_value.
    apply String.eqb_neq in Hother. now rewrite Hother.
Qed.

(** C9 on the class [a.B]: its own name reaches the class-reference branch,
    a parameter of type [a.B] is typed by [BClass], and the return type
    [a.B] by [B]. *)
Lemma self_reference_in_sample_class :
  reachesDefaultCase "a.B" = true
  /\ (forall index,
         ts.parameterType
           (fst (convertParameter [] "a.B" index (newGenerator "a.B"))) =
         ts.UnionTypeNode
           [ts.TypeReferenceNode "BClass" []; ts.NullLiteralTypeNode])
  /\ fst (javaTypeToTypescriptType [] "a.B" false false (newGenerator "a.B")) =
     ts.TypeReferenceNode "B" [].
Proof.
  split; [reflexivity|].
  destruct (proj1 (self_reference_uses_distinguished_alias
                     [] (newGenerator "a.B") "a.B" eq_refl) eq_refl)
    as (Hparam & _ & Hreturn & _ & _).
  split; [exact Hparam | exact (Hreturn false)].
Defined.

(** ** Member Converter: null unions of return types *)

Lemma return_type_without_null r javaType this :
  ts.hasNullUnion (fst (javaTypeToTypescriptType r javaType false false this)) = false.
Proof.
  rewrite javaTypeToTypescriptType_unfold.
  name_case javaType "byte[]"; [reflexivity|].
  name_case javaType "java.lang.Byte[]"; [reflexivity|].
  cbv beta iota delta [orb].
  destruct (Js.endsWith javaType "[]") eqn:E3.
  - rewrite bind_run. reflexivity.
  - unfold mapScalarType. name_cases javaType; reflexivity.
Qed.

Lemma return_type_with_null r javaType this :
  ts.hasNullUnion (fst (javaTypeToTypescriptType r javaType false true this)) =
  negb (Js.includes javaType neverNullTypes).
Proof.
  rewrite javaTypeToTypescriptType_unfold.
  unfold neverNullTypes, Js.includes. simpl existsb.
  name_case javaType "byte[]"; [reflexivity|].
  name_case javaType "java.lang.Byte[]"; [reflexivity|].
  cbv beta iota delta [orb].
  destruct (Js.endsWith javaType "[]") eqn:E3.
  - rewrite bind_run. name_cases javaType; try discriminate E3. reflexivity.
  - unfold mapScalarType. name_cases javaType; reflexivity.
Qed.

(** C7 (as stated, refuted): [compute], a method of the shape of [hashCode]
    (no parameter, return type [int]) under a name outside the list, gets
    the very declarations of [hashCode], and its return type is a union of
    the numeric type alone, without null. *)
Lemma compute_returning_int_has_no_null_union :
  map ts.elementType
    (fst (convertMethod [] [mkMethodDeclaration "int" [] false] "compute"
            (newGenerator "a.B"))) =
  [Some (ts.TypeReferenceNode "Promise"
           [ts.UnionTypeNode [ts.KeywordTypeNode ts.NumberKeyword]]);
   Some (ts.UnionTypeNode [ts.KeywordTypeNode ts.NumberKeyword])]
  /\ map ts.elementType
       (fst (convertMethod [] [mkMethodDeclaration "int" [] false] "hashCode"
               (newGenerator "a.B"))) =
     map ts.elementType
       (fst (convertMethod [] [mkMethodDeclaration "int" [] false] "compute"
               (newGenerator "a.B")))
  /\ Js.includes "compute" nonNullReturnMethods = false
  /\ ts.hasNullUnion (ts.UnionTypeNode [ts.KeywordTypeNode ts.NumberKeyword]) = false.
Proof. repeat split; reflexivity. Qed.

(** C7 (amended).  [convertMethod] builds the declarations of a method with
    the name looked up in the list of non-null-returning names.  For a name
    of the list the return type (the argument of [Promise] for the
    asynchronous variant) has no null member, whatever the Java return
    type.  For any other name it has a null member unless the Java return
    type is [void], [java.lang.Void] or one of the primitives [int],
    [float], [double], [byte], [short], [long], [boolean], which get no
    null member under any name.  Parameters are mapped with nullability
    requested whatever the name. *)
Theorem non_null_return_methods_suppress_null_on_return_type_only
    {Modifier : Modifier.ModifierClass} :
  forall r this (m : MethodDeclaration) (name : string) (i : nat) (isSync : bool),
    let nonNull := Js.includes name nonNullReturnMethods in
    let T := fst (javaTypeToTypescriptType r (returnType m) false
                    (negb nonNull) this) in
    ts.elementType (fst (createMethod r m name i isSync nonNull this)) =
      Some (if isSync then T else ts.TypeReferenceNode "Promise" [T])
    /\ (In name nonNullReturnMethods -> ts.hasNullUnion T = false)
    /\ (~ In name nonNullReturnMethods ->
        ts.hasNullUnion T = negb (Js.includes (returnType m) neverNullTypes))
    /\ ts.elementParameters (fst (createMethod r m name i isSync nonNull this)) =
       Js.mapi
         (fun p i =>
            ts.mkParameter ("var" +++ Js.numberToString i)
              (fst (javaTypeToTypescriptType r p true true this)))
         (parameters m).
Proof.
  intros r this m name i isSync nonNull T.
  pose proof (createMethod_signature r m name i isSync nonNull this) as Hsig.
  assert (Hobs : forall e, ts.elementType e = ts.elementType (withoutComments e)
                           /\ ts.elementParameters e =
                              ts.elementParameters (withoutComments e)).
  { intros e. destruct e; split; reflexivity. }
  destruct (Hobs (fst (createMethod r m name i isSync nonNull this))) as [Ht Hp].
  rewrite Ht, Hp, Hsig. clear Ht Hp Hsig Hobs.
  split; [reflexivity|]. split; [|split; [|reflexivity]].
  - intros Hin. apply includes_In in Hin.
    subst T nonNull. rewrite Hin. apply return_type_without_null.
  - intros Hn. apply includes_not_In in Hn.
    subst T nonNull. rewrite Hn. apply return_type_with_null.
Qed.

(** ** Plain objects as maps *)

Lemma insertByIndex_Permutation {V} (kv : string * V) (l : list (string * V)) :
  Permutation (JsObject.insertByIndex kv l) (kv :: l).
Proof.
  induction l as [|kv' l IH]; simpl; [reflexivity|].
  destruct (_ <=? _)%N; [reflexivity|].
  rewrite IH. apply perm_swap.
Qed.

Lemma sortByIndex_Permutation {V} (l : list (string * V)) :
  Permutation (JsObject.sortByIndex l) l.
Proof.
  induction l as [|kv l IH]; simpl; [reflexivity|].
  rewrite insertByIndex_Permutation. now constructor.
Qed.

Lemma filter_partition_Permutation {A} (p : A -> bool) (l : list A) :
  Permutation (filter p l ++ filter (fun a => negb (p a)) l) l.
Proof.
  induction l as [|a l IH]; simpl; [reflexivity|].
  destruct (p a); simpl.
  - now constructor.
  - rewrite <- Permutation_middle. now constructor.
Qed.

(** [Object.entries] lists every own property once. *)
Lemma entries_Permutation {V} (o : JsObject.t V) :
  Permutation (JsObject.entries o) o.
Proof.
  unfold JsObject.entries.
  rewrite sortByIndex_Permutation. apply filter_partition_Permutation.
Qed.

Lemma hasOwn_get {V} (o : JsObject.t V) (k : string) :
  JsObject.hasOwn o k =
  match JsObject.get o k with Some _ => true | None => false end.
Proof.
  induction o as [|[k0 v] o IH]; simpl; [reflexivity|].
  destruct (k0 =? k); [reflexivity | exact IH].
Qed.

Lemma get_update {V} (o : JsObject.t V) (name : string) (g : V -> V) (k : string) :
  JsObject.get (JsObject.update o name g) k =
  if name =? k then option_map g (JsObject.get o k) else JsObject.get o k.
Proof.
  induction o as [|[k0 v] o IH]; simpl.
  - now destruct (name =? k).
  - destruct (String.eqb_spec k0 name) as [->|Hn]; simpl.
    + destruct (String.eqb_spec name k); [reflexivity | exact IH].
    + destruct (String.eqb_spec k0 k) as [->|Hk]; [|exact IH].
      destruct (String.eqb_spec name k); [congruence | reflexivity].
Qed.

Lemma get_app_new {V} (o : JsObject.t V) (name : string) (v : V) (k : string) :
  JsObject.get o name = None ->
  JsObject.get (o ++ [(name, v)]) k =
  if name =? k then Some v else JsObject.get o k.
Proof.
  intros Hnone. induction o as [|[k0 v0] o IH]; simpl in *.
  - reflexivity.
  - destruct (String.eqb_spec k0 name) as [->|Hn]; [discriminate|].
    destruct (String.eqb_spec k0 k) as [->|Hk]; [|now apply IH].
    destruct (String.eqb_spec name k); [congruence | reflexivity].
Qed.

Lemma keys_update {V} (o : JsObject.t V) (name : string) (g : V -> V) :
  map fst (JsObject.update o name g) = map fst o.
Proof.
  unfold JsObject.update. rewrite map_map. apply map_ext.
  intros [k v]. simpl. now destruct (k =? name).
Qed.

Lemma get_None_keys {V} (o : JsObject.t V) (k : string) :
  JsObject.get o k = None -> ~ In k (map fst o).
Proof.
  induction o as [|[k0 v] o IH]; simpl; [tauto|].
  destruct (String.eqb_spec k0 k); [discriminate|].
  intros H [E|Hin]; [congruence | now apply IH].
Qed.

Lemma get_In {V} (o : JsObject.t V) (k : string) (v : V) :
  JsObject.get o k = Some v -> In (k, v) o.
Proof.
  induction o as [|[k0 v0] o IH]; simpl; [discriminate|].
  destruct (String.eqb_spec k0 k) as [->|Hn].
  - intros E. inversion E. now left.
  - intros E. right. now apply IH.
Qed.

Lemma filter_key_unique {V} (l : list (string * V)) (k : string) (v : V) :
  NoDup (map fst l) -> In (k, v) l ->
  filter (fun kv => fst kv =? k) l = [(k, v)].
Proof.
  induction l as [|[k0 v0] l IH]; simpl; [tauto|].
  intros Hnd Hin. inversion Hnd as [|? ? Hnotin Hnd']; subst.
  destruct Hin as [E|Hin].
  - inversion E; subst. rewrite String.eqb_refl. f_equal.
    clear IH Hnd Hnd'. induction l as [|[k1 v1] l IH]; [reflexivity|].
    simpl in *. destruct (String.eqb_spec k1 k) as [->|_]; [tauto|].
    apply IH. tauto.
  - destruct (String.eqb_spec k0 k) as [->|_].
    + exfalso. apply Hnotin. apply (in_map fst) in Hin. exact Hin.
    + now apply IH.
Qed.

Section ConvertMethods.

Context {Modifier : Modifier.ModifierClass}.

Lemma convertMethods_loop_keys (methods : list DeclaredMethodClass) :
  forall result,
    NoDup (map fst result) ->
    NoDup (map fst (convertMethods_loop methods result)).
Proof.
  induction methods as [|method rest IH]; intros result Hnd; simpl; [assumption|].
  destruct (Modifier.isPublic (method_getModifiers method)); [|now apply IH].
  apply IH.
  destruct (JsObject.hasOwn result (method_getName method)) eqn:Hown.
  - now rewrite keys_update.
  - unfold JsObject.set.
    destruct (method_getName method =? "__proto__"); [assumption|].
    rewrite Hown, map_app. simpl.
    rewrite hasOwn_get in Hown.
    destruct (JsObject.get result (method_getName method)) eqn:Hget;
      [discriminate|].
    apply get_None_keys in Hget.
    apply NoDup_app_remove_l with (l := []). simpl.
    apply Permutation_NoDup with (l := method_getName method :: map fst result).
    + apply Permutation_cons_append.
    + now constructor.
Qed.

(** Every name but [__proto__] ends up with its public overloads, in the
    order of the metadata. *)
Lemma convertMethods_loop_get (f : string) (methods : list DeclaredMethodClass) :
  f <> "__proto__" ->
  forall result,
    JsObject.get (convertMethods_loop methods result) f =
    match JsObject.get result f with
    | Some l => Some (l ++ publicOverloads f methods)
    | None =>
        match publicOverloads f methods with
        | [] => None
        | l => Some l
        end
    end.
Proof.
  intros Hf. unfold publicOverloads.
  induction methods as [|method rest IH]; intros result; simpl.
  - destruct (JsObject.get result f); [now rewrite app_nil_r | reflexivity].
  - destruct (Modifier.isPublic (method_getModifiers method)); simpl; [|apply IH].
    rewrite IH. clear IH.
    set (n := method_getName method). set (data := toMethodDeclaration method).
    set (po := map toMethodDeclaration _).
    destruct (JsObject.hasOwn result n) eqn:Hown.
    + rewrite get_update. rewrite hasOwn_get in Hown.
      destruct (String.eqb_spec n f) as [E|Hne].
      * rewrite E in Hown.
        destruct (JsObject.get result f); [|discriminate]. simpl.
        now rewrite <- app_assoc.
      * reflexivity.
    + unfold JsObject.set. rewrite Hown.
      destruct (String.eqb_spec n "__proto__") as [E|Hp].
      * destruct (String.eqb_spec n f); [congruence | reflexivity].
      * rewrite hasOwn_get in Hown.
        destruct (JsObject.get result n) eqn:Hget; [discriminate|].
        rewrite get_app_new by assumption.
        destruct (String.eqb_spec n f) as [E|Hne]; [|reflexivity].
        rewrite E in Hget. rewrite Hget. reflexivity.
Qed.

Lemma convertMethods_group (f : string) (methods : list DeclaredMethodClass)
    (m : MethodDeclaration) (ms : list MethodDeclaration) :
  f <> "__proto__" ->
  publicOverloads f methods = m :: ms ->
  filter (fun kv => fst kv =? f) (JsObject.entries (convertMethods methods)) =
  [(f, m :: ms)].
Proof.
  intros Hf Hpo.
  assert (Hget : JsObject.get (convertMethods methods) f = Some (m :: ms)).
  { unfold convertMethods. rewrite convertMethods_loop_get by assumption.
    simpl. now rewrite Hpo. }
  apply filter_key_unique.
  - apply Permutation_NoDup
      with (l := map fst (convertMethods methods)).
    + apply Permutation_map. symmetry. apply entries_Permutation.
    + apply convertMethods_loop_keys. constructor.
  - apply Permutation_in with (l := convertMethods methods).
    + symmetry. apply entries_Permutation.
    + now apply get_In.
Qed.

End ConvertMethods.

(** ** Member Converter: the members of a class *)

(** The value of a sequence of tracked conversions can be computed with
    every conversion started from the same generator. *)
Lemma fst_bind {A B} (m : list string -> Gen A) (k : list string -> A -> Gen B)
    r this :
  Tracked m -> (forall a, Tracked (fun r => k r a)) ->
  fst (bind (m r) (k r) this) = fst (k r (fst (m r this)) this).
Proof.
  intros Hm Hk. rewrite bind_run.
  set (a := fst (m r this)).
  apply (Tracked_value (fun r' => k r' a) (Hk a) r r).
  now apply Tracked_classname.
Qed.

Section ClassMembers.

Context {Modifier : Modifier.ModifierClass}.

Ltac solve_tracked :=
  repeat first
    [ apply Tracked_ret
    | apply Tracked_getClassname
    | apply Tracked_javaTypeToTypescriptType
    | apply Tracked_convertParameter
    | apply Tracked_convertParameters
    | apply Tracked_createMethod
    | apply Tracked_convertMethod_from
    | apply Tracked_convertMethod
    | apply Tracked_convertMethodEntries
    | apply Tracked_convertFields
    | apply Tracked_convertConstructors
    | apply (Tracked_mapM (fun r => convertParameter r)); intros ? ?
    | apply Tracked_bind; [ | intros ? ]
    | match goal with
      | |- Tracked (fun r => if ?b then _ else _) => destruct b
      end ].

(** One step of [fst_bind] on the first [bind] of the goal, with the
    conversions read as functions of [r]; the value of the first conversion
    is named, so that the next step does not read it as depending on [r]. *)
Ltac fst_bind_step r :=
  match goal with
  | |- context [fst (bind ?g ?k ?this)] =>
      let G := eval pattern r in g in
      let K := eval pattern r in k in
      match G with
      | ?F r =>
          match K with
          | ?KK r =>
              let H := fresh "H" in
              assert (H : fst (bind g k this) = fst (k (fst (g this)) this))
                by (apply (fst_bind F KK r this);
                    [solve_tracked | intros ?; solve_tracked]);
              rewrite H; clear H;
              let v := fresh "v" in
              let Hv := fresh "Hv" in
              remember (fst (g this)) as v eqn:Hv
          end
      end
  end.

Lemma convertMethod_from_cons r i m rest name this :
  fst (convertMethod_from r i (m :: rest) name this) =
  fst (createMethod r m name i false (Js.includes name nonNullReturnMethods) this)
  :: fst (createMethod r m name i true (Js.includes name nonNullReturnMethods) this)
  :: fst (convertMethod_from r (S i) rest name this).
Proof.
  simpl. do 3 fst_bind_step r. subst. reflexivity.
Qed.

Lemma convertMethodEntries_cons r key method rest this :
  fst (convertMethodEntries r ((key, method) :: rest) this) =
  fst (convertMethod r method key this) ++ fst (convertMethodEntries r rest this).
Proof.
  simpl. do 2 fst_bind_step r. subst. reflexivity.
Qed.

Lemma convertMethodEntries_app r entries1 entries2 this :
  fst (convertMethodEntries r (entries1 ++ entries2) this) =
  fst (convertMethodEntries r entries1 this)
  ++ fst (convertMethodEntries r entries2 this).
Proof.
  induction entries1 as [|[key method] rest IH]; [reflexivity|].
  rewrite <- app_comm_cons, !convertMethodEntries_cons, IH.
  now rewrite app_assoc.
Qed.

(** The class body: fields, then the method groups in the order of
    [Object.entries], then, for a concrete class, what
    [convertConstructors] returns. *)
Lemma classMembers_value r cls this :
  fst (classMembers r cls this) =
  fst (convertFields r (Js.filteri onlyUnique (getFields cls)) this)
  ++ fst (convertMethodEntries r
            (JsObject.entries (convertMethods (getMethods cls))) this)
  ++ (if isAbstractOrInterface cls then []
      else fst (convertConstructors r (getDeclaredConstructors cls) this)).
Proof.
  unfold classMembers. do 2 fst_bind_step r.
  destruct (isAbstractOrInterface cls); cbv beta iota delta [negb].
  - subst. unfold ret. simpl. now rewrite app_nil_r.
  - fst_bind_step r. subst. reflexivity.
Qed.

Lemma isConstructor_withoutComments e :
  ts.isConstructor e = ts.isConstructor (withoutComments e).
Proof. destruct e; reflexivity. Qed.

Lemma convertFields_no_constructor r fields :
  forall this, filter ts.isConstructor (fst (convertFields r fields this)) = [].
Proof.
  induction fields as [|field rest IH]; intros this; simpl; [reflexivity|].
  destruct (Modifier.isPublic (field_getModifiers field)); [|apply IH].
  rewrite !bind_run. unfold ret. simpl. apply IH.
Qed.

Lemma convertMethod_from_no_constructor r method name this :
  forall i,
    filter ts.isConstructor (fst (convertMethod_from r i method name this)) = [].
Proof.
  induction method as [|m rest IH]; intros i; [reflexivity|].
  rewrite convertMethod_from_cons. simpl.
  rewrite (isConstructor_withoutComments
             (fst (createMethod r m name i false _ this))),
          (isConstructor_withoutComments
             (fst (createMethod r m name i true _ this))),
          !createMethod_signature.
  simpl. apply IH.
Qed.

Lemma convertMethodEntries_no_constructor r entries this :
  filter ts.isConstructor (fst (convertMethodEntries r entries this)) = [].
Proof.
  induction entries as [|[key method] rest IH]; [reflexivity|].
  rewrite convertMethodEntries_cons, filter_app, IH.
  unfold convertMethod. now rewrite convertMethod_from_no_constructor.
Qed.

(** What [convertConstructors] returns for a single public constructor:
    the [newInstance] factory, then the constructor. *)
Lemma convertConstructors_single r constructors t this :
  publicConstructorTypes constructors = [t] ->
  exists factory ctor,
    fst (convertConstructors r constructors this) = [factory; ctor]
    /\ withoutComments factory =
       methodSignature r this
         {| returnType := classname this; parameters := t; isStatic := true |}
         "newInstance" false true
    /\ withoutComments ctor = constructorSignature r this t.
Proof.
  intros Ht. unfold convertConstructors. rewrite Ht. simpl mapM.
  repeat (repeat fst_bind_step r; subst).
  unfold ret, getClassname. simpl fst.
  eexists _, _. split; [reflexivity|]. split.
  - apply createMethod_signature.
  - rewrite mapM_convertParameter_value. unfold constructorSignature.
    destruct (0 <? List.length t)%nat; reflexivity.
Qed.

End ClassMembers.

(** ** Member Converter: overloads *)

(** The general statement behind C5: for every method name [f] but
    [__proto__], a class with exactly two public overloads [m1], [m2] of
    [f] has exactly one group for [f] among the entries of the converted
    methods, and the class body holds, between the members of the other
    groups, the four declarations of that group: the asynchronous
    declaration [f] with return type [Promise<T>] and the synchronous
    declaration [fSync] with return type [T], for [m1] and then for [m2]. *)
Lemma two_overloads_yield_four_declarations
    {Modifier : Modifier.ModifierClass}
    (r : list string) (c : string) (cls : ClassClass) (f : string)
    (m1 m2 : MethodDeclaration)
    (Hname : f <> "__proto__")
    (Hoverloads : publicOverloads f (getMethods cls) = [m1; m2]) :
  let this := newGenerator c in
  let nonNull := Js.includes f nonNullReturnMethods in
  exists before after group,
    JsObject.entries (convertMethods (getMethods cls)) =
      before ++ (f, [m1; m2]) :: after
    /\ filter (fun kv => fst kv =? f) (before ++ after) = []
    /\ fst (classMembers r cls this) =
       (fst (convertFields r (Js.filteri onlyUnique (getFields cls)) this)
        ++ fst (convertMethodEntries r before this))
       ++ group
       ++ (fst (convertMethodEntries r after this)
           ++ (if isAbstractOrInterface cls then []
               else fst (convertConstructors r (getDeclaredConstructors cls) this)))
    /\ map withoutComments group =
       [ methodSignature r this m1 f false nonNull;
         methodSignature r this m1 f true nonNull;
         methodSignature r this m2 f false nonNull;
         methodSignature r this m2 f true nonNull ].
Proof.
  intros this nonNull.
  pose proof (convertMethods_group f (getMethods cls) m1 [m2] Hname Hoverloads)
    as Hgroup.
  assert (Hin : In (f, [m1; m2])
                  (JsObject.entries (convertMethods (getMethods cls)))).
  { assert (Hf : In (f, [m1; m2])
                   (filter (fun kv => fst kv =? f)
                      (JsObject.entries (convertMethods (getMethods cls))))).
    { rewrite Hgroup. now left. }
    apply filter_In in Hf. tauto. }
  apply in_split in Hin. destruct Hin as (before & after & Hsplit).
  exists before, after, (fst (convertMethod r [m1; m2] f this)).
  split; [exact Hsplit|]. split; [|split].
  - rewrite Hsplit in Hgroup. rewrite filter_app in Hgroup. simpl in Hgroup.
    rewrite String.eqb_refl in Hgroup. rewrite filter_app.
    destruct (filter (fun kv => fst kv =? f) before) as [|x xs].
    + simpl in Hgroup. inversion Hgroup as [Hafter]. now rewrite Hafter.
    + simpl in Hgroup. inversion Hgroup as [[Hx Hrest]].
      destruct xs; discriminate Hrest.
  - rewrite classMembers_value, Hsplit, convertMethodEntries_app,
      convertMethodEntries_cons.
    now rewrite <- !app_assoc.
  - unfold convertMethod. rewrite !convertMethod_from_cons. simpl map.
    now rewrite !createMethod_signature.
Qed.

(** The lemma applies to the class [a.B] with the overloads [f()] and
    [f(int)]. *)
Lemma two_overloads_of_f_in_sample_class :
  exists before after group,
    JsObject.entries (convertMethods (getMethods overloadedClass)) =
      before ++ ("f", [mkMethodDeclaration "void" [] false;
                       mkMethodDeclaration "java.lang.String" ["int"] false])
             :: after
    /\ map ts.elementName group =
       [Some "f"; Some "fSync"; Some "f"; Some "fSync"]
    /\ List.length (fst (classMembers [] overloadedClass (newGenerator "a.B"))) = 6.
Proof.
  destruct (two_overloads_yield_four_declarations [] "a.B" overloadedClass "f"
              (mkMethodDeclaration "void" [] false)
              (mkMethodDeclaration "java.lang.String" ["int"] false))
    as (before & after & group & He & _ & _ & Hg).
  - discriminate.
  - reflexivity.
  - exists before, after, group. split; [exact He|]. split; [|reflexivity].
    assert (Hn : forall e, ts.elementName e = ts.elementName (withoutComments e))
      by (intros e; destruct e; reflexivity).
    rewrite (map_ext _ _ Hn), <- map_map, Hg. reflexivity.
Defined.

(** C5, on the method name [__proto__]: an interface with two public
    overloads of a method of that name gets an empty class body.  The
    assignment [result[name] = [data]] of [convertMethods] replaces the
    prototype of [result] and defines no own property, so that
    [Object.entries] lists no group and no declaration is emitted. *)
Lemma proto_overloads_are_dropped :
  List.length (publicOverloads "__proto__" (getMethods protoInterface)) = 2
  /\ convertMethods (getMethods protoInterface) = []
  /\ fst (classMembers [] protoInterface (newGenerator "a.Proto")) = [].
Proof. repeat split; reflexivity. Qed.

(** ** Member Converter: constructors *)

Section Constructors.

Context {Modifier : Modifier.ModifierClass}.

Lemma declaredConstructors_imports (imports : list ts.Node) :
  Forall (fun n => match n with ts.ImportDeclaration _ _ => True | _ => False end)
    imports ->
  declaredConstructors (map Some imports) = [].
Proof.
  induction 1 as [|n imports Hn _ IH]; [reflexivity|].
  destruct n; try contradiction. exact IH.
Qed.

(** The constructors of a module: those of the class body, then the
    private stub of the exported class when there is one. *)
Lemma declaredConstructors_moduleNodes this cls members :
  declaredConstructors (moduleNodes this cls members) =
  filter ts.isConstructor members
  ++ (if isAbstractOrInterface cls then [createPrivateConstructor] else []).
Proof.
  unfold moduleNodes, declaredConstructors.
  rewrite !flat_map_app.
  fold (declaredConstructors (map Some (getAdditionalImports this))).
  rewrite declaredConstructors_imports.
  - simpl. rewrite !app_nil_r.
    destruct (isAbstractOrInterface cls); reflexivity.
  - unfold getAdditionalImports. apply Forall_forall.
    intros n Hn. apply in_map_iff in Hn. destruct Hn as (i & <- & _). exact I.
Qed.

Lemma length_parameterDeclarations r this params :
  forall i, List.length (parameterDeclarations r this i params) = List.length params.
Proof.
  unfold parameterDeclarations.
  induction params as [|p params IH]; intros i; simpl; [reflexivity|].
  now rewrite IH.
Qed.

End Constructors.

(** ** Generator Orchestrator *)

Lemma generateEach_prepend
    (g : string -> list string -> list string * Outcome (list ModuleDeclaration))
    (names : list string) :
  forall r res0,
    generateEach g names r res0 =
    (fst (generateEach g names r []), prepend res0 (snd (generateEach g names r []))).
Proof.
  induction names as [|c rest IH]; intros r res0; simpl.
  - now rewrite app_nil_r.
  - destruct (g c r) as [r1 [generated| |]]; try reflexivity.
    rewrite (IH r1 (res0 ++ generated)), (IH r1 generated). simpl.
    destruct (snd (generateEach g rest r1 [])); simpl; try reflexivity.
    now rewrite app_assoc.
Qed.

Lemma filter_length_le {A} (p q : A -> bool) (l : list A) :
  (forall x, p x = true -> q x = true) ->
  List.length (filter p l) <= List.length (filter q l).
Proof.
  intros Hpq. induction l as [|a l IH]; simpl; [lia|].
  destruct (p a) eqn:Hp.
  - rewrite (Hpq a Hp). simpl. lia.
  - destruct (q a); simpl; lia.
Qed.

Lemma filter_length_lt {A} (p q : A -> bool) (l : list A) (c : A) :
  (forall x, p x = true -> q x = true) ->
  In c l -> q c = true -> p c = false ->
  List.length (filter p l) < List.length (filter q l).
Proof.
  intros Hpq Hin Hq Hp. induction l as [|a l IH]; simpl; [contradiction|].
  destruct Hin as [->|Hin].
  - rewrite Hp, Hq. simpl.
    pose proof (filter_length_le p q l Hpq). lia.
  - specialize (IH Hin). destruct (p a) eqn:Hpa.
    + rewrite (Hpq a Hpa). simpl. lia.
    + destruct (q a); simpl; lia.
Qed.

Lemma unresolved_grows (U r added : list string) :
  unresolved U (r ++ added) <= unresolved U r.
Proof.
  apply filter_length_le. intros x Hx.
  apply negb_true_iff in Hx. apply negb_true_iff.
  apply includes_not_In in Hx. apply includes_not_In.
  intros Hin. apply Hx. apply in_or_app. now left.
Qed.

Lemma unresolved_enter (U r : list string) (c : string) :
  In c U -> ~ In c r -> unresolved U (r ++ [c]) < unresolved U r.
Proof.
  intros HU Hr. apply filter_length_lt with (c := c).
  - intros x Hx.
    apply negb_true_iff in Hx. apply negb_true_iff.
    apply includes_not_In in Hx. apply includes_not_In.
    intros Hin. apply Hx. apply in_or_app. now left.
  - exact HU.
  - apply negb_true_iff. now apply includes_not_In.
  - apply negb_false_iff. apply includes_In. apply in_or_app. right. now left.
Qed.

Section OrchestratorProperties.

Context {Modifier : Modifier.ModifierClass}.
Variable importClassAsync : string -> option ClassClass.
Variable printNode : ts.Node -> string.

(** The generator of a class after its members are converted. *)
Lemma classMembers_imports (r : list string) (c : string) (cls : ClassClass) :
  importsToResolve (snd (classMembers r cls (newGenerator c))) =
    referencedNames c cls
  /\ additionalImports (snd (classMembers r cls (newGenerator c))) =
     filter (fun n => negb (Js.includes n r)) (referencedNames c cls).
Proof.
  destruct (Tracked_imports (fun r => classMembers r cls)
              (Tracked_classMembers cls) c) as (delta & H).
  unfold referencedNames.
  destruct (H r (newGenerator c) eq_refl) as [Hi Ha].
  destruct (H [] (newGenerator c) eq_refl) as [Hi0 _].
  rewrite Hi, Ha, Hi0. split; reflexivity.
Qed.

Lemma generateEach_invariant
    (g : string -> list string -> list string * Outcome (list ModuleDeclaration)) :
  (forall c r, RunInvariant importClassAsync [c] r (fst (g c r)) (snd (g c r))) ->
  forall names r,
    RunInvariant importClassAsync names r
      (fst (generateEach g names r [])) (snd (generateEach g names r [])).
Proof.
  intros Hg names. induction names as [|c rest IH]; intros r; simpl.
  - exists []. rewrite app_nil_r. split; [reflexivity|].
    split; [constructor|]. split; [constructor|].
    repeat split; intros; contradiction.
  - specialize (Hg c r). destruct (g c r) as [r1 out1]. simpl in Hg.
    destruct Hg as (a1 & Hr1 & Hout1).
    destruct out1 as [generated| |]; simpl;
      try (exists a1; split; [exact Hr1 | exact I]).
    rewrite generateEach_prepend. simpl.
    specialize (IH r1). destruct IH as (a2 & Hr2 & Hout2).
    exists (a1 ++ a2). split; [rewrite Hr2, Hr1; now rewrite app_assoc|].
    destruct (snd (generateEach g rest r1 [])) as [new| |]; simpl; try exact I.
    destruct Hout1 as (Hp1 & Hn1 & Hd1 & Hc1 & Hcl1).
    destruct Hout2 as (Hp2 & Hn2 & Hd2 & Hc2 & Hcl2).
    assert (Hsub : forall x, In x r1 -> In x (fst (generateEach g rest r1 []))).
    { intros x Hx. rewrite Hr2. apply in_or_app. now left. }
    split; [|split; [|split; [|split]]].
    + rewrite map_app. now apply Permutation_app.
    + apply NoDup_app; try assumption.
      intros x Hx1 Hx2. apply (Hd2 x Hx2). rewrite Hr1.
      apply in_or_app. now right.
    + intros x Hx Hr. apply in_app_or in Hx. destruct Hx as [Hx|Hx].
      * now apply (Hd1 x).
      * apply (Hd2 x Hx). rewrite Hr1. apply in_or_app. now left.
    + intros c' [<-|Hc'].
      * apply Hsub. apply Hc1. now left.
      * now apply Hc2.
    + intros m cls n Hm Hcls Hn. apply in_app_or in Hm. destruct Hm as [Hm|Hm].
      * apply Hsub. now apply (Hcl1 m cls n).
      * now apply (Hcl2 m cls n).
Qed.

Lemma generate_invariant (fuel : nat) :
  forall c r,
    RunInvariant importClassAsync [c] r
      (fst (generate importClassAsync printNode fuel c r))
      (snd (generate importClassAsync printNode fuel c r)).
Proof.
  induction fuel as [|fuel IH]; intros c r; simpl.
  - exists []. now rewrite app_nil_r.
  - destruct (Js.includes c r) eqn:Hinc; simpl.
    + exists []. rewrite app_nil_r. split; [reflexivity|].
      split; [constructor|]. split; [constructor|].
      split; [intros; contradiction|]. split.
      * intros c' [<-|[]]. now apply includes_In.
      * intros; contradiction.
    + apply includes_not_In in Hinc.
      destruct (importClassAsync c) as [cls|] eqn:Hcls; simpl;
        [|exists [c]; split; [reflexivity | exact I]].
      destruct (classMembers (r ++ [c]) cls (newGenerator c))
        as [members this] eqn:Hmembers.
      destruct (classMembers_imports (r ++ [c]) c cls) as [Himports Hadditional].
      rewrite Hmembers in Himports, Hadditional. simpl in Himports, Hadditional.
      pose proof (generateEach_invariant _ IH (additionalImports this) (r ++ [c]))
        as Heach.
      destruct (generateEach (generate importClassAsync printNode fuel)
                  (additionalImports this) (r ++ [c]) []) as [r' out].
      simpl in Heach. destruct Heach as (a & Hr' & Hout).
      exists (c :: a). split; [destruct out; simpl; rewrite Hr'; now rewrite <- app_assoc|].
      destruct out as [res| |]; simpl; try exact I.
      destruct Hout as (Hp & Hn & Hd & Hc & Hcl).
      split; [|split; [|split; [|split]]].
      * rewrite map_app. simpl.
        rewrite <- Permutation_cons_append. now constructor.
      * constructor; [|exact Hn].
        intros Hin. apply (Hd c Hin). apply in_or_app. right. now left.
      * intros x [<-|Hx]; [exact Hinc|].
        intros Hr. apply (Hd x Hx). apply in_or_app. now left.
      * intros c' [<-|[]]. rewrite Hr', <- app_assoc. apply in_or_app.
        right. now left.
      * intros m cls' n Hm Hcls' Hn'. apply in_app_or in Hm.
        destruct Hm as [Hm|[<-|[]]]; [now apply (Hcl m cls' n)|].
        simpl in Hcls'. rewrite Hcls in Hcls'. inversion Hcls'; subst cls'.
        simpl in Hn'.
        destruct (Js.includes n (r ++ [c])) eqn:Hnr.
        -- apply includes_In in Hnr. rewrite Hr'. apply in_or_app. now left.
        -- apply Hc. rewrite Hadditional. apply filter_In.
           split; [exact Hn' | now rewrite Hnr].
Qed.

(** With the classes of a closed universe, a call runs to its end as soon
    as the bound on the nesting exceeds the number of unresolved classes. *)
Lemma generateEach_terminates (U : list string) (fuel : nat) :
  (forall c r,
      In c U -> unresolved U r < fuel ->
      exists res, snd (generate importClassAsync printNode fuel c r) = Resolved res) ->
  forall names r,
    incl names U -> unresolved U r < fuel ->
    exists res,
      snd (generateEach (generate importClassAsync printNode fuel) names r []) =
      Resolved res.
Proof.
  intros Hgen names. induction names as [|c rest IH]; intros r Hincl Hfuel; simpl.
  - now exists [].
  - destruct (Hgen c r) as (generated & Hres);
      [apply Hincl; now left | exact Hfuel |].
    destruct (generate_invariant fuel c r) as (a & Hr1 & _).
    destruct (generate importClassAsync printNode fuel c r) as [r1 out].
    simpl in Hres, Hr1. subst out. simpl.
    rewrite generateEach_prepend. simpl.
    destruct (IH r1) as (new & Hnew).
    + intros x Hx. apply Hincl. now right.
    + rewrite Hr1. pose proof (unresolved_grows U r a). lia.
    + rewrite Hnew. simpl. now eexists.
Qed.

Lemma generate_terminates (U : list string) :
  closedUniverse importClassAsync U ->
  forall fuel c r,
    In c U -> unresolved U r < fuel ->
    exists res, snd (generate importClassAsync printNode fuel c r) = Resolved res.
Proof.
  intros Hclosed fuel. induction fuel as [|fuel IH]; intros c r HU Hfuel; [lia|].
  simpl. destruct (Js.includes c r) eqn:Hinc; [now exists []|].
  apply includes_not_In in Hinc.
  destruct (Hclosed c HU) as (cls & Hcls & Hrefs). rewrite Hcls.
  destruct (classMembers (r ++ [c]) cls (newGenerator c))
    as [members this] eqn:Hmembers.
  destruct (classMembers_imports (r ++ [c]) c cls) as [_ Hadditional].
  rewrite Hmembers in Hadditional. simpl in Hadditional.
  destruct (generateEach_terminates U fuel IH (additionalImports this) (r ++ [c]))
    as (res & Hres).
  - rewrite Hadditional. intros x Hx. apply filter_In in Hx.
    apply Hrefs. tauto.
  - pose proof (unresolved_enter U r c HU Hinc). lia.
  - destruct (generateEach (generate importClassAsync printNode fuel)
                (additionalImports this) (r ++ [c]) []) as [r' out].
    simpl in Hres. subst out. simpl. now eexists.
Qed.

End OrchestratorProperties.

(** C1.  Whatever its outcome, a call of [generate] only appends to the
    shared [resolvedImports].  A call for a class already in
    [resolvedImports] (asked for before, reached again through a cycle, or
    resolved by an earlier generator on the same array) resolves with the
    empty list and leaves the array as it is.  When a call resolves, the
    names of its modules are pairwise distinct, none of them was in
    [resolvedImports] before, and the array afterwards holds exactly the
    names it held before and the names of the modules.  The same holds over
    the loop of the command-line handler, whose generators share one
    array: no class name is emitted twice. *)
Theorem generate_emits_each_class_at_most_once
    {Modifier : Modifier.ModifierClass}
    (importClassAsync : string -> option ClassClass)
    (printNode : ts.Node -> string) :
  forall (fuel : nat) (classname : string) (resolvedImports : list string),
    let run := generate importClassAsync printNode fuel classname resolvedImports in
    (exists added, fst run = resolvedImports ++ added)
    /\ (In classname resolvedImports ->
        generate importClassAsync printNode (S fuel) classname resolvedImports =
        (resolvedImports, Resolved []))
    /\ (forall res,
           snd run = Resolved res ->
           NoDup (map name res)
           /\ (forall m, In m res -> ~ In (name m) resolvedImports)
           /\ (forall x, In x (fst run) <->
                         In x resolvedImports \/ In x (map name res)))
    /\ (forall classnames res,
           snd (handler importClassAsync printNode fuel classnames) = Resolved res ->
           NoDup (map name res)).
Proof.
  intros fuel c r run.
  destruct (generate_invariant importClassAsync printNode fuel c r)
    as (added & Hr' & Hout).
  fold run in Hr', Hout.
  split; [now exists added|]. split; [|split].
  - intros Hin. simpl. apply includes_In in Hin. now rewrite Hin.
  - intros res Hres. rewrite Hres in Hout.
    destruct Hout as (Hp & Hn & Hd & _ & _).
    split; [|split].
    + now apply (Permutation_NoDup Hp).
    + intros m Hm. apply Hd. apply (Permutation_in _ (Permutation_sym Hp)).
      now apply in_map.
    + intros x. rewrite Hr', in_app_iff. split.
      * intros [Hx|Hx]; [now left | right; now apply (Permutation_in _ Hp)].
      * intros [Hx|Hx]; [now left|].
        right. now apply (Permutation_in _ (Permutation_sym Hp)).
  - intros classnames res Hres. unfold handler in Hres.
    destruct (generateEach_invariant importClassAsync
                (generate importClassAsync printNode fuel)
                (generate_invariant importClassAsync printNode fuel)
                classnames []) as (a & _ & Hout').
    rewrite Hres in Hout'. destruct Hout' as (Hp & Hn & _).
    now apply (Permutation_NoDup Hp).
Qed.

(** C1 on the classes [a.A] and [a.B], which reference each other: the run
    for [a.A] resolves with one module for each, and a second call on the
    array it leaves resolves with no module. *)
Lemma cyclic_classes_are_emitted_once :
  snd (generate sampleClasses kindPrinter 3 "a.A" []) <> OutOfFuel
  /\ (forall res,
         snd (generate sampleClasses kindPrinter 3 "a.A" []) = Resolved res ->
         map name res = ["a.B"; "a.A"] /\ NoDup (map name res))
  /\ generate sampleClasses kindPrinter 3 "a.A" ["a.A"; "a.B"] =
     (["a.A"; "a.B"], Resolved []).
Proof.
  split; [vm_compute; discriminate|]. split.
  - intros res Hres. split.
    + vm_compute in Hres. inversion Hres. reflexivity.
    + apply (generate_emits_each_class_at_most_once
               sampleClasses kindPrinter 3 "a.A" []). exact Hres.
  - apply (generate_emits_each_class_at_most_once
             sampleClasses kindPrinter 2 "a.A" ["a.A"; "a.B"]).
    simpl. tauto.
Defined.

(** A name that reaches the [default] case is registered. *)
Lemma reachesDefaultCase_registers r javaType isParam strict this :
  reachesDefaultCase javaType = true ->
  importsToResolve (snd (javaTypeToTypescriptType r javaType isParam strict this)) =
  importsToResolve this ++ [javaType].
Proof.
  intros H. rewrite reachesDefaultCase_mapping by assumption.
  unfold createTypeReferenceNode. rewrite !bind_run. reflexivity.
Qed.

(** * Further properties *)

(** ** Strings and arrays *)

Lemma split_not_nil (c : ascii) (s : string) : Js.split c s <> [].
Proof.
  induction s as [|a s IH]; simpl; [discriminate|].
  destruct (Ascii.eqb a c); [discriminate|].
  destruct (Js.split c s); discriminate.
Qed.

Lemma join_split (c : ascii) (s : string) :
  Js.join (String c "") (Js.split c s) = s.
Proof.
  induction s as [|a s IH]; [reflexivity|].
  simpl. destruct (Ascii.eqb_spec a c) as [->|Hne].
  - pose proof (split_not_nil c s) as Hnil.
    destruct (Js.split c s) as [|w ws] eqn:E; [contradiction|].
    change (Js.join (String c "") ("" :: w :: ws))
      with ("" +++ String c "" +++ Js.join (String c "") (w :: ws)).
    rewrite IH. reflexivity.
  - pose proof (split_not_nil c s) as Hnil.
    destruct (Js.split c s) as [|w ws] eqn:E; [contradiction|].
    rewrite <- IH. destruct ws as [|w' ws]; reflexivity.
Qed.

Lemma split_free (c : ascii) (s : string) :
  Forall (fun w => freeOf c w = true) (Js.split c s).
Proof.
  induction s as [|a s IH]; simpl; [repeat constructor|].
  destruct (Ascii.eqb a c) eqn:E.
  - constructor; [reflexivity | exact IH].
  - pose proof (split_not_nil c s) as Hnil.
    destruct (Js.split c s) as [|w ws]; [contradiction|].
    inversion IH; subst. constructor; [|assumption].
    simpl. now rewrite E.
Qed.

Lemma findIndex_app {A} (p : A -> bool) (pre l : list A) :
  Js.findIndex p (pre ++ l) =
  if existsb p pre then Js.findIndex p pre
  else option_map (fun j => List.length pre + j) (Js.findIndex p l).
Proof.
  induction pre as [|a pre IH]; simpl.
  - destruct (Js.findIndex p l); reflexivity.
  - destruct (p a); [reflexivity|]. simpl. rewrite IH.
    destruct (existsb p pre); [reflexivity|].
    destruct (Js.findIndex p l); reflexivity.
Qed.

Lemma findIndex_bound {A} (p : A -> bool) (l : list A) (j : nat) :
  Js.findIndex p l = Some j -> j < List.length l.
Proof.
  revert j. induction l as [|a l IH]; intros j; simpl; [discriminate|].
  destruct (p a).
  - intros E. inversion E. lia.
  - destruct (Js.findIndex p l) as [k|]; simpl; [|discriminate].
    intros E. inversion E. specialize (IH k eq_refl). lia.
Qed.

Lemma includes_app (z : string) (l1 l2 : list string) :
  Js.includes z (l1 ++ l2) = Js.includes z l1 || Js.includes z l2.
Proof. unfold Js.includes. apply existsb_app. Qed.

Lemma keepFirstBy_ext {A} (key : A -> string) (l : list A) :
  forall seen1 seen2,
    (forall z, Js.includes z seen1 = Js.includes z seen2) ->
    keepFirstBy key seen1 l = keepFirstBy key seen2 l.
Proof.
  induction l as [|a l IH]; intros seen1 seen2 H; [reflexivity|].
  simpl. rewrite H. destruct (Js.includes (key a) seen2); [now apply IH|].
  f_equal. apply IH. intros z. now rewrite !includes_app, H.
Qed.

(** Filtering an array by [self.findIndex(el => key(el) === key(value)) ===
    index] keeps the first element of each key. *)
Lemma filteri_first_index {A} (key : A -> string) (l : list A) :
  Js.filteri
    (fun value index self =>
       match Js.findIndex (fun el => key value =? key el) self with
       | Some j => (j =? index)%nat
       | None => false
       end) l =
  keepFirstBy key [] l.
Proof.
  unfold Js.filteri.
  assert (G : forall suf pre,
             l = pre ++ suf ->
             Js.filter_from
               (fun a i =>
                  match Js.findIndex (fun el => key a =? key el) l with
                  | Some j => (j =? i)%nat
                  | None => false
                  end) (List.length pre) suf =
             keepFirstBy key (map key pre) suf).
  { induction suf as [|a suf IH]; intros pre Hw; [reflexivity|].
    simpl.
    assert (Hfind :
              match Js.findIndex (fun el => key a =? key el) l with
              | Some j => (j =? List.length pre)%nat
              | None => false
              end = negb (Js.includes (key a) (map key pre))).
    { rewrite Hw, findIndex_app.
      assert (Hex : existsb (fun el => key a =? key el) pre =
                    Js.includes (key a) (map key pre)).
      { unfold Js.includes. clear. induction pre as [|b pre IH]; simpl;
          [reflexivity | now rewrite IH]. }
      rewrite Hex.
      destruct (Js.includes (key a) (map key pre)); simpl.
      - destruct (Js.findIndex (fun el => key a =? key el) pre) as [j|] eqn:Ej;
          [|reflexivity].
        apply findIndex_bound in Ej. apply Nat.eqb_neq. lia.
      - rewrite String.eqb_refl. simpl.
        rewrite Nat.add_0_r. apply Nat.eqb_refl. }
    rewrite Hfind.
    assert (Hnext : Js.filter_from
                      (fun a0 i =>
                         match Js.findIndex (fun el => key a0 =? key el) l with
                         | Some j => (j =? i)%nat
                         | None => false
                         end) (S (List.length pre)) suf =
                    keepFirstBy key (map key pre ++ [key a]) suf).
    { replace (S (List.length pre)) with (List.length (pre ++ [a]))
        by (rewrite length_app; simpl; lia).
      rewrite (IH (pre ++ [a])); [now rewrite map_app|].
      rewrite Hw, <- app_assoc. reflexivity. }
    rewrite Hnext.
    destruct (Js.includes (key a) (map key pre)) eqn:Hinc; simpl; [|reflexivity].
    apply keepFirstBy_ext. intros z. rewrite includes_app. simpl.
    rewrite orb_false_r.
    destruct (String.eqb_spec z (key a)) as [->|_];
      [now rewrite Hinc | now rewrite orb_false_r]. }
  apply (G l [] eq_refl).
Qed.

Lemma keepFirstBy_keys {A} (key : A -> string) (l : list A) :
  forall seen,
    NoDup (map key (keepFirstBy key seen l))
    /\ (forall k, In k (map key (keepFirstBy key seen l)) <->
                  In k (map key l) /\ ~ In k seen)
    /\ (forall k, ~ In k seen ->
                  find (fun a => key a =? k) (keepFirstBy key seen l) =
                  find (fun a => key a =? k) l).
Proof.
  induction l as [|a l IH]; intros seen; simpl.
  - split; [constructor|]. split; [tauto | reflexivity].
  - destruct (Js.includes (key a) seen) eqn:Hinc.
    + apply includes_In in Hinc.
      destruct (IH seen) as (Hnd & Hin & Hfind).
      split; [exact Hnd|]. split.
      * intros k. rewrite Hin. split; [tauto|].
        intros [[<-|Hk] Hs]; [contradiction | tauto].
      * intros k Hk. rewrite (Hfind k Hk).
        destruct (String.eqb_spec (key a) k) as [<-|_]; [contradiction|reflexivity].
    + apply includes_not_In in Hinc.
      destruct (IH (seen ++ [key a])) as (Hnd & Hin & Hfind).
      split; [|split].
      * simpl. constructor; [|exact Hnd].
        rewrite Hin. intros [_ Hn]. apply Hn. apply in_or_app. right. now left.
      * intros k. simpl. rewrite Hin, in_app_iff. simpl. split.
        -- intros [<-|[Hk Hn]]; [tauto|]. split; [tauto|]. tauto.
        -- intros [[<-|Hk] Hs]; [now left|].
           destruct (string_dec (key a) k) as [E|Hne]; [now left|].
           right. split; [exact Hk|]. intros [?|[?|[]]]; contradiction.
      * intros k Hk. simpl.
        destruct (String.eqb_spec (key a) k) as [E|Hne]; [reflexivity|].
        apply Hfind. rewrite in_app_iff. simpl. intros [?|[?|[]]]; contradiction.
Qed.

(** ** Member Converter: fields *)

(** X1.  The fields kept by [generate] before they are converted: of the fields
    the Reflection Client lists under one name (a field and the fields it
    hides in superclasses and interfaces), the first one only.  The names
    kept are pairwise distinct, they are the names listed, and the field
    kept for a name is the first listed under it. *)
Theorem onlyUnique_keeps_first_field_of_each_name (fields : list FieldClass) :
  let kept := Js.filteri onlyUnique fields in
  NoDup (map field_getName kept)
  /\ (forall n, In n (map field_getName kept) <-> In n (map field_getName fields))
  /\ (forall n,
         find (fun f => field_getName f =? n) kept =
         find (fun f => field_getName f =? n) fields).
Proof.
  intros kept.
  assert (Hkept : kept = keepFirstBy field_getName [] fields)
    by apply (filteri_first_index field_getName).
  destruct (keepFirstBy_keys field_getName fields []) as (Hnd & Hin & Hfind).
  rewrite Hkept. split; [exact Hnd|]. split.
  - intros n. rewrite Hin. simpl. tauto.
  - intros n. apply Hfind. simpl. tauto.
Qed.

Ltac tracked :=
  repeat first
    [ apply Tracked_ret
    | apply Tracked_getClassname
    | apply Tracked_javaTypeToTypescriptType
    | apply Tracked_convertParameter
    | apply Tracked_convertParameters
    | apply Tracked_createMethod
    | apply Tracked_convertMethod_from
    | apply Tracked_convertMethod
    | apply Tracked_convertMethodEntries
    | apply Tracked_convertFields
    | apply Tracked_convertConstructors
    | apply (Tracked_mapM (fun r => convertParameter r)); intros ? ?
    | apply Tracked_bind; [ | intros ? ]
    | match goal with
      | |- Tracked (fun r => if ?b then _ else _) => destruct b
      end ].

(** The value of the first [bind] of the goal, by [fst_bind]. *)
Ltac bind_value r :=
  match goal with
  | |- context [fst (bind ?g ?k ?this)] =>
      let G := eval pattern r in g in
      let K := eval pattern r in k in
      match G with
      | ?F r =>
          match K with
          | ?KK r =>
              let H := fresh "H" in
              assert (H : fst (bind g k this) = fst (k (fst (g this)) this))
                by (apply (fst_bind F KK r this); [tracked | intros ?; tracked]);
              rewrite H; clear H;
              let v := fresh "v" in
              let Hv := fresh "Hv" in
              remember (fst (g this)) as v eqn:Hv
          end
      end
  end.

Lemma map_from_ext {A B} (f g : A -> nat -> B) (l : list A) :
  (forall a i, f a i = g a i) ->
  forall i, Js.map_from f i l = Js.map_from g i l.
Proof.
  intros H. induction l as [|a l IH]; intros i; simpl; [reflexivity|].
  now rewrite H, IH.
Qed.

Lemma map_map_from {A B C} (h : B -> C) (f : A -> nat -> B) (g : A -> C)
    (l : list A) :
  (forall a i, h (f a i) = g a) ->
  forall i, map h (Js.map_from f i l) = map g l.
Proof.
  intros H. induction l as [|a l IH]; intros i; simpl; [reflexivity|].
  now rewrite H, IH.
Qed.

(** [arr.map(f)] with a tracked [f]: every element is converted as if from
    the generator the call started with. *)
Lemma mapM_value {A B} (f : list string -> A -> nat -> Gen B) (r : list string)
    (l : list A) :
  (forall a i, Tracked (fun r => f r a i)) ->
  forall i this,
    fst (mapM (f r) i l this) = Js.map_from (fun a i => fst (f r a i this)) i l.
Proof.
  intros Hf. induction l as [|a l IH]; intros i this; [reflexivity|].
  simpl. rewrite !bind_run. unfold ret. simpl fst. f_equal.
  rewrite IH. apply map_from_ext. intros b j.
  apply (Tracked_value (fun r => f r b j) (Hf b j) r r).
  apply (Tracked_classname (fun r => f r a i) (Hf a i)).
Qed.

Section FurtherMembers.

Context {Modifier : Modifier.ModifierClass}.

Lemma convertFields_value r (fields : list FieldClass) :
  forall this,
    map withoutComments (fst (convertFields r fields this)) =
    map (fieldSignature r this)
      (filter (fun f => Modifier.isPublic (field_getModifiers f)) fields).
Proof.
  induction fields as [|field rest IH]; intros this; [reflexivity|].
  simpl. destruct (Modifier.isPublic (field_getModifiers field)); [|apply IH].
  do 2 bind_value r. subst. unfold ret. simpl fst. simpl map.
  rewrite ?withoutComments_addSyntheticLeadingComment. simpl withoutComments.
  now rewrite IH.
Qed.

(** X2.  [convertFields] emits one property declaration per public field, in the
    order of the metadata, and nothing for the other fields.  The
    declaration is [public], [static] exactly when the field is, and
    [readonly] exactly when the field is [final]; it keeps the name of the
    field and is typed by the type mapper in parameter position with
    nullability requested.  In the class body built by [generate], where
    the fields went through [onlyUnique], no two property declarations
    have the same name. *)
Theorem convertFields_emits_public_fields (r : list string) (this : Generator)
    (fields : list FieldClass) :
  map withoutComments (fst (convertFields r fields this)) =
    map (fieldSignature r this)
      (filter (fun f => Modifier.isPublic (field_getModifiers f)) fields)
  /\ (forall f,
         ts.elementModifiers (fieldSignature r this f) =
         [ts.PublicKeyword]
         ++ (if Modifier.isStatic (field_getModifiers f)
             then [ts.StaticKeyword] else [])
         ++ (if Modifier.isFinal (field_getModifiers f)
             then [ts.ReadonlyKeyword] else []))
  /\ NoDup (map ts.elementName
              (fst (convertFields r (Js.filteri onlyUnique fields) this))).
Proof.
  split; [apply convertFields_value|]. split; [reflexivity|].
  assert (Hn : forall e, ts.elementName e = ts.elementName (withoutComments e))
    by (intros e; destruct e; reflexivity).
  rewrite (map_ext _ _ Hn), <- map_map, convertFields_value, map_map.
  assert (Hnd : NoDup (map field_getName (Js.filteri onlyUnique fields))).
  { assert (Hkept : Js.filteri onlyUnique fields =
                    keepFirstBy field_getName [] fields)
      by apply (filteri_first_index field_getName).
    rewrite Hkept. apply (keepFirstBy_keys field_getName fields []). }
  revert Hnd. generalize (Js.filteri onlyUnique fields) as kept.
  induction kept as [|f kept IH]; intros Hnd; [constructor|].
  simpl in Hnd. inversion Hnd as [|? ? Hnotin Hnd']; subst.
  simpl. destruct (Modifier.isPublic (field_getModifiers f)); [|now apply IH].
  simpl. constructor; [|now apply IH].
  intros Hin. apply in_map_iff in Hin. destruct Hin as (g & Hg & Hgin).
  apply filter_In in Hgin. destruct Hgin as [Hgin _].
  simpl in Hg. inversion Hg as [Hname]. apply Hnotin.
  rewrite <- Hname. now apply in_map.
Qed.

End FurtherMembers.

(** ** Dependency Resolver: the import declarations of a module *)

Lemma getAdditionalImports_names (this : Generator) :
  exists names,
    getAdditionalImports this = map (importDeclarationOf (classname this)) names
    /\ NoDup names
    /\ ~ In (classname this) names
    /\ (forall n, In n names <->
                  In n (importsToResolve this) /\ n <> classname this).
Proof.
  set (others := filter (fun i => negb (i =? classname this)) (importsToResolve this)).
  exists (keepFirstBy (fun x => x) [] others).
  assert (Hunique : Js.filteri unique others = keepFirstBy (fun x => x) [] others)
    by apply (filteri_first_index (fun x : string => x)).
  destruct (keepFirstBy_keys (fun x : string => x) others []) as (Hnd & Hin & _).
  rewrite map_id in Hnd.
  assert (Hin' : forall n, In n (keepFirstBy (fun x => x) [] others) <->
                           In n (importsToResolve this) /\ n <> classname this).
  { intros n. specialize (Hin n). rewrite !map_id in Hin. rewrite Hin.
    unfold others. rewrite filter_In, negb_true_iff, String.eqb_neq.
    simpl. tauto. }
  split; [|split; [|split]].
  - unfold getAdditionalImports. fold others. now rewrite Hunique.
  - exact Hnd.
  - intros H. apply Hin' in H. tauto.
  - exact Hin'.
Qed.


(** X3.  [getAdditionalImports] declares one import per class referenced by the
    members, the class being generated apart: never an import of the
    module itself, never two imports of one class, and every import is the
    declaration [import { Simple as dotted_name } from path] of a
    referenced class. *)
Theorem getAdditionalImports_once_per_referenced_class (this : Generator) :
  exists names,
    getAdditionalImports this = map (importDeclarationOf (classname this)) names
    /\ NoDup names
    /\ ~ In (classname this) names
    /\ (forall n, In n names <->
                  In n (importsToResolve this) /\ n <> classname this).
Proof. apply getAdditionalImports_names. Qed.

Lemma replaceAll_injective (c d : ascii) (s : string) :
  forall t,
    freeOf d s = true -> freeOf d t = true ->
    Js.replaceAll c d s = Js.replaceAll c d t -> s = t.
Proof.
  induction s as [|a s IH]; intros [|b t] Hs Ht H; simpl in *;
    try reflexivity; try discriminate.
  apply andb_true_iff in Hs. destruct Hs as [Ha Hs].
  apply andb_true_iff in Ht. destruct Ht as [Hb Ht].
  apply negb_true_iff in Ha, Hb.
  inversion H as [[Hhead Htail]].
  f_equal; [|now apply IH].
  destruct (Ascii.eqb_spec a c) as [->|Hac], (Ascii.eqb_spec b c) as [->|Hbc];
    try reflexivity; try exact Hhead.
  - subst b. now rewrite Ascii.eqb_refl in Hb.
  - subst a. now rewrite Ascii.eqb_refl in Ha.
Qed.

Lemma NoDup_map_injective {A B} (f : A -> B) (l : list A) :
  (forall x y, In x l -> In y l -> f x = f y -> x = y) ->
  NoDup l -> NoDup (map f l).
Proof.
  intros Hinj Hnd. induction Hnd as [|a l Hnotin Hnd IH]; simpl; constructor.
  - intros Hin. apply in_map_iff in Hin. destruct Hin as (y & Hy & Hyin).
    apply Hnotin. rewrite <- (Hinj y a); simpl; auto.
  - apply IH. intros x y Hx Hy. apply Hinj; simpl; auto.
Qed.

Lemma replaceAll_free (c d : ascii) (s : string) :
  freeOf c s = true -> Js.replaceAll c d s = s.
Proof.
  induction s as [|a s IH]; intros H; [reflexivity|].
  simpl in *. apply andb_true_iff in H. destruct H as [Ha Hs].
  apply negb_true_iff in Ha. now rewrite Ha, IH.
Qed.

Lemma moduleImports_Some (imports : list ts.Node) :
  moduleImports (map Some imports) = flat_map importedNames imports.
Proof.
  unfold moduleImports. induction imports as [|n l IH]; simpl; congruence.
Qed.

(** X4.  No two import declarations of a module bind the same identifier,
    the import from [java-bridge] included, as long as no name registered
    by the members holds an underscore or is one of the three names
    imported from [java-bridge]: a referenced class is bound to its dotted
    name with the dots replaced by underscores, which tells such names
    apart from each other and from the [java-bridge] names. *)
Theorem imports_bind_distinct_identifiers
    {Modifier : Modifier.ModifierClass}
    (this : Generator) (cls : ClassClass) (members : list ts.ClassElement) :
  Forall (fun n => freeOf "_" n && negb (Js.includes n javaBridgeNames) = true)
    (importsToResolve this) ->
  NoDup (moduleImports (moduleNodes this cls members)).
Proof.
  intros Hnames.
  assert (Hfree : forall n, In n (importsToResolve this) -> freeOf "_" n = true).
  { intros n Hn. apply (proj1 (Forall_forall _ _) Hnames) in Hn.
    apply andb_true_iff in Hn. tauto. }
  assert (Hbridge : forall n, In n (importsToResolve this) ->
                              ~ In n javaBridgeNames).
  { intros n Hn. apply (proj1 (Forall_forall _ _) Hnames) in Hn.
    apply andb_true_iff in Hn. destruct Hn as [_ Hn].
    apply negb_true_iff in Hn. now apply includes_not_In. }
  destruct (getAdditionalImports_names this) as (names & Himports & Hnd & _ & Hin).
  assert (Hall : moduleImports (moduleNodes this cls members) =
                 (["importClass"; "JavaClass"]
                  ++ (if usesBasicOrJavaType this then ["BasicOrJavaType"] else []))
                 ++ map (Js.replaceAll "." "_") names).
  { unfold moduleNodes, moduleImports. rewrite !flat_map_app.
    fold (moduleImports (map Some (getAdditionalImports this))).
    rewrite moduleImports_Some, Himports.
    replace (flat_map importedNames
               (map (importDeclarationOf (classname this)) names))
      with (map (Js.replaceAll "." "_") names).
    - unfold getExportStatement, getImports.
      destruct (usesBasicOrJavaType this); simpl; now rewrite app_nil_r.
    - clear. induction names as [|n l IH]; simpl; congruence. }
  rewrite Hall. apply NoDup_app.
  - destruct (usesBasicOrJavaType this); simpl;
      repeat (constructor; [simpl; intuition discriminate|]); constructor.
  - apply NoDup_map_injective; [|exact Hnd].
    intros x y Hx Hy. apply Hin in Hx, Hy.
    apply replaceAll_injective; apply Hfree; tauto.
  - intros a Ha Halias. apply in_map_iff in Halias.
    destruct Halias as (n & Hn & Hnin). apply Hin in Hnin.
    assert (Hja : In a javaBridgeNames)
      by (destruct (usesBasicOrJavaType this); simpl in *; tauto).
    apply (Hbridge n); [tauto|].
    assert (Hn' : n = a).
    { apply (replaceAll_injective "." "_"); [apply Hfree; tauto | |].
      - simpl in Hja. destruct Hja as [<-|[<-|[<-|[]]]]; reflexivity.
      - rewrite Hn. symmetry. apply replaceAll_free.
        simpl in Hja. destruct Hja as [<-|[<-|[<-|[]]]]; reflexivity. }
    now rewrite Hn'.
Qed.

(** X4 on an example.
    The module of [a.A], whose members reference [a.B] and [a.A] itself,
    binds [importClass], [JavaClass] and [a_B]. *)
Lemma imports_of_sample_class :
  Forall (fun n => freeOf "_" n && negb (Js.includes n javaBridgeNames) = true)
    (importsToResolve (snd (classMembers [] classA (newGenerator "a.A"))))
  /\ NoDup (moduleImports
              (moduleNodes (snd (classMembers [] classA (newGenerator "a.A")))
                 classA (fst (classMembers [] classA (newGenerator "a.A")))))
  /\ moduleImports
       (moduleNodes (snd (classMembers [] classA (newGenerator "a.A")))
          classA (fst (classMembers [] classA (newGenerator "a.A")))) =
     ["importClass"; "JavaClass"; "a_B"].
Proof.
  assert (H : Forall
                (fun n => freeOf "_" n && negb (Js.includes n javaBridgeNames) = true)
                (importsToResolve
                   (snd (classMembers [] classA (newGenerator "a.A")))))
    by (vm_compute; repeat constructor).
  split; [exact H|]. split; [|reflexivity].
  exact (imports_bind_distinct_identifiers
           (snd (classMembers [] classA (newGenerator "a.A"))) classA
           (fst (classMembers [] classA (newGenerator "a.A"))) H).
Defined.

(** ** Member Converter: method groups and constructors *)

Lemma groupedMethods_Permutation (o1 o2 : JsObject.t (list MethodDeclaration)) :
  Permutation o1 o2 -> groupedMethods o1 = groupedMethods o2.
Proof.
  intros H. unfold groupedMethods.
  induction H; simpl; try lia.
Qed.

Lemma update_absent {V} (o : JsObject.t V) (n : string) (g : V -> V) :
  ~ In n (map fst o) -> JsObject.update o n g = o.
Proof.
  induction o as [|[k v] o IH]; intros Hn; [reflexivity|].
  simpl in *. destruct (String.eqb_spec k n) as [->|_]; [tauto|].
  f_equal. apply IH. tauto.
Qed.

Lemma groupedMethods_push (o : JsObject.t (list MethodDeclaration)) (n : string)
    (d : MethodDeclaration) :
  NoDup (map fst o) -> JsObject.hasOwn o n = true ->
  groupedMethods (JsObject.update o n (fun l => l ++ [d])) = groupedMethods o + 1.
Proof.
  unfold groupedMethods.
  induction o as [|[k v] o IH]; intros Hnd Hown; [discriminate|].
  inversion Hnd as [|? ? Hnotin Hnd']; subst.
  simpl in *. destruct (String.eqb_spec k n) as [->|Hne]; simpl.
  - fold (JsObject.update o n (fun l => l ++ [d])).
    rewrite update_absent by assumption. rewrite length_app. simpl. lia.
  - fold (JsObject.update o n (fun l => l ++ [d])).
    rewrite IH by assumption. lia.
Qed.

Lemma In_get {V} (o : JsObject.t V) (k : string) (v : V) :
  NoDup (map fst o) -> In (k, v) o -> JsObject.get o k = Some v.
Proof.
  induction o as [|[k' v'] o IH]; intros Hnd Hin; [contradiction|].
  simpl in *. inversion Hnd as [|? ? Hnotin Hnd']; subst.
  destruct Hin as [E|Hin].
  - inversion E; subst. now rewrite String.eqb_refl.
  - destruct (String.eqb_spec k' k) as [->|_]; [|now apply IH].
    exfalso. apply Hnotin. apply (in_map fst) in Hin. exact Hin.
Qed.

Section FurtherMethods.

Context {Modifier : Modifier.ModifierClass}.

(** No public method is lost or counted twice by the grouping, the methods
    named [__proto__] apart. *)
Lemma convertMethods_loop_groupedMethods (methods : list DeclaredMethodClass) :
  forall result,
    NoDup (map fst result) ->
    ~ In "__proto__" (map fst result) ->
    groupedMethods (convertMethods_loop methods result) =
    groupedMethods result
    + List.length
        (filter (fun m => Modifier.isPublic (method_getModifiers m)
                          && negb (method_getName m =? "__proto__")) methods).
Proof.
  induction methods as [|method rest IH]; intros result Hnd Hproto; simpl; [lia|].
  destruct (Modifier.isPublic (method_getModifiers method)) eqn:Hpub; simpl;
    [|now apply IH].
  destruct (JsObject.hasOwn result (method_getName method)) eqn:Hown.
  - rewrite IH by now rewrite keys_update.
    rewrite groupedMethods_push by assumption.
    assert (Hn : (method_getName method =? "__proto__") = false).
    { apply String.eqb_neq. intros E. apply Hproto.
      rewrite hasOwn_get in Hown.
      destruct (JsObject.get result (method_getName method)) as [l|] eqn:Hget;
        [|discriminate].
      apply get_In in Hget. rewrite E in Hget.
      apply (in_map fst) in Hget. exact Hget. }
    rewrite Hn. simpl. lia.
  - unfold JsObject.set. rewrite Hown.
    destruct (String.eqb_spec (method_getName method) "__proto__") as [Hp|Hp];
      simpl.
    + now apply IH.
    + rewrite IH.
      * unfold groupedMethods. rewrite map_app, list_sum_app. simpl. lia.
      * rewrite map_app. simpl. rewrite hasOwn_get in Hown.
        destruct (JsObject.get result (method_getName method)) eqn:Hget;
          [discriminate|].
        apply get_None_keys in Hget.
        apply Permutation_NoDup
          with (l := method_getName method :: map fst result).
        -- apply Permutation_cons_append.
        -- now constructor.
      * rewrite map_app, in_app_iff. simpl. intros [H|[H|[]]]; [tauto|].
        now apply Hp.
Qed.

Lemma convertMethod_from_value r (method : list MethodDeclaration) name this :
  forall i,
    map withoutComments (fst (convertMethod_from r i method name this)) =
    flat_map
      (fun m =>
         [ methodSignature r this m name false
             (Js.includes name nonNullReturnMethods);
           methodSignature r this m name true
             (Js.includes name nonNullReturnMethods) ])
      method.
Proof.
  induction method as [|m rest IH]; intros i; [reflexivity|].
  rewrite convertMethod_from_cons. simpl.
  now rewrite !createMethod_signature, IH.
Qed.

Lemma convertMethodEntries_length r entries this :
  List.length (fst (convertMethodEntries r entries this)) =
  2 * groupedMethods entries.
Proof.
  unfold groupedMethods.
  induction entries as [|[key method] rest IH]; [reflexivity|].
  rewrite convertMethodEntries_cons, length_app, IH. simpl.
  assert (Hm : List.length (fst (convertMethod r method key this)) =
               2 * List.length method).
  { rewrite <- (length_map withoutComments). unfold convertMethod.
    rewrite convertMethod_from_value.
    clear. induction method as [|m method IH]; [reflexivity|].
    cbn [flat_map List.length app]. rewrite IH. lia. }
  rewrite Hm. cbn [snd]. lia.
Qed.

Lemma methodSignature_classname r1 r2 this1 this2 m name isSync nonNull :
  classname this1 = classname this2 ->
  methodSignature r1 this1 m name isSync nonNull =
  methodSignature r2 this2 m name isSync nonNull.
Proof.
  intros Hc. unfold methodSignature.
  rewrite (parameterDeclarations_classname r1 r2 this1 this2 _ Hc).
  rewrite (Tracked_value
             (fun r => javaTypeToTypescriptType r (returnType m) false
                         (negb nonNull))
             (Tracked_javaTypeToTypescriptType _ _ _) r1 r2 this1 this2 Hc).
  reflexivity.
Qed.

(** The elements of the first [arr.map(f)] of the goal, by [mapM_value]. *)
Ltac mapM_values r :=
  match goal with
  | |- context [fst (mapM ?f ?start ?l ?this)] =>
      let F := eval pattern r in f in
      match F with
      | ?FF r =>
          let H := fresh "H" in
          assert (H : fst (mapM f start l this) =
                      Js.map_from (fun a j => fst (FF r a j this)) start l)
            by (apply (mapM_value FF r l); intros ? ?;
                first [ apply (Tracked_bind (fun _ => getClassname));
                        [apply Tracked_getClassname | intros ?; tracked]
                      | tracked ]);
          rewrite H; clear H
      end
  end.

Lemma convertConstructors_value r constructors this :
  map withoutComments (fst (convertConstructors r constructors this)) =
  map (fun t =>
         methodSignature r this
           {| returnType := classname this; parameters := t; isStatic := true |}
           "newInstance" false true)
    (publicConstructorTypes constructors)
  ++ map (constructorSignature r this) (publicConstructorTypes constructors).
Proof.
  unfold convertConstructors.
  generalize (publicConstructorTypes constructors) as types. intros types.
  rewrite bind_run.
  match goal with
  | |- context [snd (mapM ?f 0 types this)] =>
      remember (snd (mapM f 0 types this)) as this1 eqn:Hthis1
  end.
  assert (Hc : classname this1 = classname this).
  { subst this1.
    match goal with
    | |- classname (snd (mapM ?f 0 types this)) = _ =>
        let F := eval pattern r in f in
        match F with
        | ?FF r =>
            apply (Tracked_classname (fun r => mapM (FF r) 0 types));
            apply (Tracked_mapM FF); intros ? ?; tracked
        end
    end. }
  clear Hthis1. rewrite bind_run. unfold ret. simpl fst.
  do 2 mapM_values r. rewrite map_app. f_equal.
  - apply map_map_from. intros t i. rewrite bind_run.
    unfold getClassname. simpl. rewrite createMethod_signature, Hc.
    now apply methodSignature_classname.
  - apply map_map_from. intros t i. rewrite bind_run. unfold ret. simpl fst.
    rewrite mapM_convertParameter_value. unfold constructorSignature.
    destruct (i =? 0)%nat, (0 <? List.length t)%nat; reflexivity.
Qed.

Lemma convertMethods_loop_no_proto (methods : list DeclaredMethodClass) :
  forall result,
    ~ In "__proto__" (map fst result) ->
    ~ In "__proto__" (map fst (convertMethods_loop methods result)).
Proof.
  induction methods as [|method rest IH]; intros result Hproto; [exact Hproto|].
  simpl. destruct (Modifier.isPublic (method_getModifiers method)); [|now apply IH].
  apply IH. destruct (JsObject.hasOwn result (method_getName method)).
  - now rewrite keys_update.
  - unfold JsObject.set.
    destruct (String.eqb_spec (method_getName method) "__proto__") as [Hp|Hp];
      [exact Hproto|].
    destruct (JsObject.hasOwn result (method_getName method)).
    + rewrite map_map. simpl.
      replace (map (fun x : string * list MethodDeclaration =>
                      fst (if fst x =? method_getName method
                           then (fst x, [toMethodDeclaration method]) else x))
                 result)
        with (map fst result); [exact Hproto|].
      apply map_ext. intros [k v]. simpl.
      now destruct (k =? method_getName method).
    + rewrite map_app, in_app_iff. simpl. intros [H|[H|[]]]; [tauto|].
      now apply Hp.
Qed.

(** X5.  [convertMethods] groups the public methods by name.  The entries that
    [generate] iterates over hold one group per method name, the name
    [__proto__] apart, which gets none; the group of a name holds its
    public overloads in the order of the metadata, and is never empty;
    methods that are not public are in no group. *)
Theorem convertMethods_groups_public_overloads_by_name
    (methods : list DeclaredMethodClass) :
  let groups := JsObject.entries (convertMethods methods) in
  NoDup (map fst groups)
  /\ (forall f l,
         In (f, l) groups <->
         f <> "__proto__" /\ l <> [] /\ l = publicOverloads f methods).
Proof.
  intros groups.
  assert (Hnd : NoDup (map fst (convertMethods methods)))
    by (apply convertMethods_loop_keys; constructor).
  assert (Hperm : Permutation groups (convertMethods methods))
    by apply entries_Permutation.
  split.
  - apply (Permutation_NoDup (Permutation_map fst (Permutation_sym Hperm)) Hnd).
  - intros f l. split.
    + intros Hin. apply (Permutation_in _ Hperm) in Hin.
      assert (Hf : f <> "__proto__").
      { intros ->. apply (convertMethods_loop_no_proto methods JsObject.empty);
          [simpl; tauto|].
        apply (in_map fst) in Hin. exact Hin. }
      split; [exact Hf|].
      apply (In_get _ _ _ Hnd) in Hin. unfold convertMethods in Hin.
      rewrite (convertMethods_loop_get f methods Hf) in Hin. simpl in Hin.
      destruct (publicOverloads f methods) as [|m ms]; [discriminate|].
      inversion Hin. split; [discriminate | reflexivity].
    + intros (Hf & Hne & ->).
      apply (Permutation_in _ (Permutation_sym Hperm)). apply get_In.
      unfold convertMethods.
      rewrite (convertMethods_loop_get f methods Hf). simpl.
      destruct (publicOverloads f methods); [contradiction | reflexivity].
Qed.

(** X6.  [convertMethod] turns a group of [n] overloads into [2 n] method
    declarations: for each overload, in the order of the group, the
    asynchronous declaration [name] returning [Promise<T>] followed by the
    synchronous declaration [nameSync] returning [T].  [T] is the return
    type as the type mapper gives it in return position, with the null
    literal requested exactly when [name] is not one of
    [nonNullReturnMethods]; hence [T] is a union with the null literal
    exactly when [name] is not one of these names and the return type is
    not one of [neverNullTypes] ([void] and the primitives but [char],
    which never get one).  Every declaration is typed as if converted by
    the generator the call started with. *)
Theorem convertMethod_emits_async_then_sync_per_overload
    (r : list string) (method : list MethodDeclaration) (name : string)
    (this : Generator) :
  let nonNull := Js.includes name nonNullReturnMethods in
  let T m := fst (javaTypeToTypescriptType r (returnType m) false (negb nonNull) this) in
  map withoutComments (fst (convertMethod r method name this)) =
    flat_map
      (fun m =>
         [ ts.MethodDeclaration
             ([ts.PublicKeyword] ++ (if isStatic m then [ts.StaticKeyword] else []))
             name (parameterDeclarations r this 0 (parameters m))
             (ts.TypeReferenceNode "Promise" [T m]) [];
           ts.MethodDeclaration
             ([ts.PublicKeyword] ++ (if isStatic m then [ts.StaticKeyword] else []))
             (name +++ "Sync") (parameterDeclarations r this 0 (parameters m))
             (T m) [] ])
      method
  /\ List.length (fst (convertMethod r method name this)) =
     2 * List.length method
  /\ (forall m,
         ts.hasNullUnion (T m) =
         negb nonNull && negb (Js.includes (returnType m) neverNullTypes)).
Proof.
  intros nonNull T.
  assert (H : map withoutComments (fst (convertMethod r method name this)) =
              flat_map
                (fun m =>
                   [ methodSignature r this m name false nonNull;
                     methodSignature r this m name true nonNull ])
                method)
    by apply convertMethod_from_value.
  split; [|split].
  - rewrite H. apply flat_map_ext. intros m.
    unfold methodSignature. now rewrite append_empty_r.
  - rewrite <- (length_map withoutComments), H.
    clear. induction method as [|m method IH]; [reflexivity|].
    cbn [flat_map List.length app]. rewrite IH. lia.
  - intros m. unfold T. destruct nonNull; cbv beta iota delta [negb andb].
    + apply return_type_without_null.
    + apply return_type_with_null.
Qed.

(** X7.  [convertConstructors] emits, for the public constructors [c1 .. ck] of
    a class in the order of the metadata, the [k] static [newInstance]
    factories returning [Promise<Self>] followed by the [k] public
    constructor declarations, each with the parameters of its constructor;
    a constructor that is not public yields nothing. *)
Theorem convertConstructors_emits_factories_then_constructors
    (r : list string) (constructors : list DeclaredConstructorClass)
    (this : Generator) :
  let types :=
    map (fun c => map getTypeName (constructor_getParameterTypes c))
      (filter (fun c => Modifier.isPublic (constructor_getModifiers c))
         constructors) in
  map withoutComments (fst (convertConstructors r constructors this)) =
  map (fun t =>
         ts.MethodDeclaration [ts.PublicKeyword; ts.StaticKeyword] "newInstance"
           (parameterDeclarations r this 0 t)
           (ts.TypeReferenceNode "Promise"
              [fst (javaTypeToTypescriptType r (classname this) false false this)])
           [])
    types
  ++ map (fun t =>
            ts.ConstructorDeclaration [ts.PublicKeyword]
              (parameterDeclarations r this 0 t) None [])
       types.
Proof.
  intros types. apply convertConstructors_value.
Qed.

(** X8.  The size of a class body.  The members collected by [generate] are one
    property per public field (the first field of each name only), two
    declarations per public method, and, for a class that is neither
    abstract nor an interface, two declarations per public constructor.
    Members that are not public contribute nothing, and neither do the
    methods named [__proto__]. *)
Theorem classMembers_counts_public_members
    (r : list string) (cls : ClassClass) (this : Generator) :
  List.length (fst (classMembers r cls this)) =
  List.length
    (filter (fun f => Modifier.isPublic (field_getModifiers f))
       (keepFirstBy field_getName [] (getFields cls)))
  + 2 * List.length
          (filter (fun m => Modifier.isPublic (method_getModifiers m)
                            && negb (method_getName m =? "__proto__"))
             (getMethods cls))
  + (if isAbstractOrInterface cls then 0
     else 2 * List.length
                (filter (fun c => Modifier.isPublic (constructor_getModifiers c))
                   (getDeclaredConstructors cls))).
Proof.
  rewrite classMembers_value, !length_app.
  rewrite <- (length_map withoutComments
                (fst (convertFields r _ this))), convertFields_value, length_map.
  rewrite (filteri_first_index field_getName).
  rewrite convertMethodEntries_length.
  rewrite (groupedMethods_Permutation _ _ (entries_Permutation _)).
  unfold convertMethods.
  rewrite convertMethods_loop_groupedMethods by (simpl; first [constructor | tauto]).
  change (groupedMethods JsObject.empty) with 0.
  destruct (isAbstractOrInterface cls); [simpl; lia|].
  rewrite <- (length_map withoutComments
                (fst (convertConstructors r _ this))), convertConstructors_value.
  rewrite length_app, !length_map. unfold publicConstructorTypes.
  rewrite length_map. lia.
Qed.

End FurtherMethods.

(** ** Generator Orchestrator: what a run emits *)

Section FurtherOrchestrator.

Context {Modifier : Modifier.ModifierClass}.
Variable importClassAsync : string -> option ClassClass.
Variable printNode : ts.Node -> string.

(** The nodes of a module read the class name, the flag and the names to
    resolve of the generator, never [additionalImports]. *)
Lemma moduleNodes_ext (this1 this2 : Generator) cls members :
  classname this1 = classname this2 ->
  usesBasicOrJavaType this1 = usesBasicOrJavaType this2 ->
  importsToResolve this1 = importsToResolve this2 ->
  moduleNodes this1 cls members = moduleNodes this2 cls members.
Proof.
  intros Hc Hu Hi.
  unfold moduleNodes, getImports, getAdditionalImports, getExportStatement.
  now rewrite Hc, Hu, Hi.
Qed.

(** The text of a module does not depend on the names resolved before the
    members were converted. *)
Lemma moduleText_resolvedImports (r : list string) (c : string) (cls : ClassClass) :
  getText printNode
    (moduleNodes (snd (classMembers r cls (newGenerator c))) cls
       (fst (classMembers r cls (newGenerator c)))) =
  moduleText printNode c cls.
Proof.
  unfold moduleText.
  destruct (Tracked_classMembers cls c) as (v & delta & u & H).
  rewrite (H r (newGenerator c) eq_refl), (H [] (newGenerator c) eq_refl).
  simpl fst. simpl snd. apply f_equal. apply moduleNodes_ext; reflexivity.
Qed.

Lemma generateEach_Forall (P : ModuleDeclaration -> Prop)
    (g : string -> list string -> list string * Outcome (list ModuleDeclaration)) :
  (forall c r r' res, g c r = (r', Resolved res) -> Forall P res) ->
  forall names r res0 r' res,
    Forall P res0 ->
    generateEach g names r res0 = (r', Resolved res) ->
    Forall P res.
Proof.
  intros Hg names. induction names as [|c rest IH]; intros r res0 r' res H0 Hrun.
  - simpl in Hrun. inversion Hrun; subst. exact H0.
  - simpl in Hrun. destruct (g c r) as [r1 [generated| |]] eqn:Hc;
      try discriminate.
    apply (IH r1 (res0 ++ generated) r' res); [|exact Hrun].
    apply Forall_app. split; [exact H0 | now apply (Hg c r r1)].
Qed.

Lemma generate_step (fuel : nat) (c : string) (r r' : list string)
    (res : list ModuleDeclaration) :
  generate importClassAsync printNode (S fuel) c r = (r', Resolved res) ->
  (In c r /\ r' = r /\ res = [])
  \/ (~ In c r
      /\ exists cls res0,
           importClassAsync c = Some cls
           /\ generateEach (generate importClassAsync printNode fuel)
                (filter (fun n => negb (Js.includes n (r ++ [c])))
                   (referencedNames c cls))
                (r ++ [c]) [] = (r', Resolved res0)
           /\ res = res0 ++ [ {| name := c; contents := moduleText printNode c cls |} ]).
Proof.
  simpl. destruct (Js.includes c r) eqn:Hinc.
  - intros H. inversion H; subst. left. apply includes_In in Hinc. tauto.
  - apply includes_not_In in Hinc. intros H. right. split; [exact Hinc|].
    destruct (importClassAsync c) as [cls|]; [|discriminate].
    exists cls.
    pose proof (moduleText_resolvedImports (r ++ [c]) c cls) as Htext.
    destruct (classMembers_imports (r ++ [c]) c cls) as [_ Hadditional].
    destruct (classMembers (r ++ [c]) cls (newGenerator c)) as [members this].
    simpl in Htext, Hadditional. rewrite Htext, Hadditional in H.
    destruct (generateEach (generate importClassAsync printNode fuel) _ (r ++ [c]) [])
      as [r1 [res0| |]]; try discriminate.
    inversion H; subst. exists res0. tauto.
Qed.

Lemma generate_Forall (P : ModuleDeclaration -> Prop) :
  (forall c cls,
      importClassAsync c = Some cls ->
      P {| name := c; contents := moduleText printNode c cls |}) ->
  forall fuel c r r' res,
    generate importClassAsync printNode fuel c r = (r', Resolved res) ->
    Forall P res.
Proof.
  intros HP fuel. induction fuel as [|fuel IH]; intros c r r' res Hrun;
    [discriminate|].
  apply generate_step in Hrun.
  destruct Hrun as [(_ & _ & ->)|(_ & cls & res0 & Hcls & Heach & ->)];
    [constructor|].
  apply Forall_app. split.
  - eapply (generateEach_Forall P _ IH); [|exact Heach]. constructor.
  - constructor; [now apply HP | constructor].
Qed.

(** X9.  The text emitted for a class depends on the class alone.  When a call
    of [generate] resolves, every module of the result is the module of a
    class the Reflection Client loaded, and its text is the one a fresh
    generator with no resolved import produces for that class: neither
    the names resolved before the call, nor the order in which the
    classes were reached, nor the other generators sharing
    [resolvedImports] change it.  When the requested class was not
    resolved before, its module is the last of the result, after the
    modules of the classes it made the call convert. *)
Theorem generate_module_text_depends_on_class_only
    (fuel : nat) (c : string) (r r' : list string) (res : list ModuleDeclaration) :
  generate importClassAsync printNode fuel c r = (r', Resolved res) ->
  Forall
    (fun m =>
       exists cls,
         importClassAsync (name m) = Some cls
         /\ contents m = moduleText printNode (name m) cls)
    res
  /\ (~ In c r ->
      exists cls res0,
        importClassAsync c = Some cls
        /\ res = res0 ++ [ {| name := c; contents := moduleText printNode c cls |} ]).
Proof.
  intros Hrun. split.
  - apply (generate_Forall _ (fun c cls Hcls => ex_intro _ cls (conj Hcls eq_refl))
             fuel c r r' res Hrun).
  - intros Hnew. destruct fuel as [|fuel]; [discriminate|].
    apply generate_step in Hrun.
    destruct Hrun as [(Hin & _)|(_ & cls & res0 & Hcls & _ & ->)];
      [contradiction|].
    now exists cls, res0.
Qed.

(** A loop rejects only when one of its calls does. *)
Lemma generateEach_rejected
    (g : string -> list string -> list string * Outcome (list ModuleDeclaration)) :
  (forall c r, exists added, fst (g c r) = r ++ added) ->
  (forall c r r',
      g c r = (r', Rejected) ->
      exists x, importClassAsync x = None /\ In x r' /\ ~ In x r) ->
  forall names r res0 r',
    generateEach g names r res0 = (r', Rejected) ->
    exists x, importClassAsync x = None /\ In x r' /\ ~ In x r.
Proof.
  intros Hext Hrej names.
  induction names as [|c rest IH]; intros r res0 r' Hrun; [discriminate|].
  simpl in Hrun. destruct (Hext c r) as (added & Hadded).
  destruct (g c r) as [r1 [generated| |]] eqn:Hc; try discriminate.
  - destruct (IH r1 (res0 ++ generated) r' Hrun) as (x & Hx & Hin & Hnot).
    exists x. split; [exact Hx|]. split; [exact Hin|].
    intros Hr. apply Hnot. simpl in Hadded. rewrite Hadded.
    apply in_or_app. now left.
  - inversion Hrun; subst r1. now apply (Hrej c r).
Qed.

Lemma generate_extends (fuel : nat) (c : string) (r : list string) :
  exists added, fst (generate importClassAsync printNode fuel c r) = r ++ added.
Proof.
  destruct (generate_invariant importClassAsync printNode fuel c r)
    as (added & Hr' & _).
  now exists added.
Qed.

Lemma generateEach_extends (fuel : nat) (names r : list string) :
  exists added,
    fst (generateEach (generate importClassAsync printNode fuel) names r []) =
    r ++ added.
Proof.
  destruct (generateEach_invariant importClassAsync
              (generate importClassAsync printNode fuel)
              (generate_invariant importClassAsync printNode fuel) names r)
    as (added & Hr' & _).
  now exists added.
Qed.

Lemma generate_rejected (fuel : nat) :
  forall c r r',
    generate importClassAsync printNode fuel c r = (r', Rejected) ->
    In c r'
    /\ exists x, importClassAsync x = None /\ In x r' /\ ~ In x r.
Proof.
  induction fuel as [|fuel IH]; intros c r r' Hrun; [discriminate|].
  simpl in Hrun. destruct (Js.includes c r) eqn:Hinc; [discriminate|].
  apply includes_not_In in Hinc.
  destruct (importClassAsync c) as [cls|] eqn:Hcls.
  - destruct (classMembers (r ++ [c]) cls (newGenerator c)) as [members this].
    destruct (generateEach_extends fuel (additionalImports this) (r ++ [c]))
      as (added & Hadded).
    destruct (generateEach (generate importClassAsync printNode fuel)
                (additionalImports this) (r ++ [c]) [])
      as [r1 [res0| |]] eqn:Heach; try discriminate.
    inversion Hrun; subst r1. simpl in Hadded. split.
    + rewrite Hadded. apply in_or_app. left. apply in_or_app. right. now left.
    + destruct (generateEach_rejected _ (generate_extends fuel)
                  (fun c r r' H => proj2 (IH c r r' H)) _ _ _ _ Heach)
        as (x & Hx & Hin & Hnot).
      exists x. split; [exact Hx|]. split; [exact Hin|].
      intros Hr. apply Hnot. apply in_or_app. now left.
  - inversion Hrun; subst r'. split.
    + apply in_or_app. right. now left.
    + exists c. split; [exact Hcls|]. split; [|exact Hinc].
      apply in_or_app. right. now left.
Qed.

(** X10.  What a failed class load leaves behind.  The model rejects a call
    of [generate] in one case, the one of [importClassAsync] rejecting for
    the requested class or for a class reached from it (the rejections
    that the progress callback or a reflective call on a loaded class may
    raise are outside the model).  After such a call the shared
    [resolvedImports] holds the requested class and the class that could
    not be loaded, which was not resolved before, although no module was
    returned for either: the names are pushed before the class is loaded
    and never removed.  From then on [generate] resolves with no module
    for every name of the array, so that a second attempt on the same
    array does not load the class again. *)
Theorem generate_rejection_leaves_names_resolved
    (fuel : nat) (c : string) (r r' : list string) :
  generate importClassAsync printNode fuel c r = (r', Rejected) ->
  In c r'
  /\ (exists x, importClassAsync x = None /\ ~ In x r /\ In x r')
  /\ (forall x, In x r -> In x r')
  /\ forall y fuel',
       In y r' ->
       generate importClassAsync printNode (S fuel') y r' = (r', Resolved []).
Proof.
  intros Hrun. destruct (generate_rejected fuel c r r' Hrun) as [Hc Hx].
  split; [exact Hc|]. split; [|split].
  - destruct Hx as (x & Hload & Hin & Hnot). exists x. tauto.
  - destruct (generate_extends fuel c r) as (added & Hadded).
    rewrite Hrun in Hadded. simpl in Hadded. subst r'.
    intros x Hin. apply in_or_app. now left.
  - intros y fuel' Hy. simpl. apply includes_In in Hy. now rewrite Hy.
Qed.

Lemma generateEach_fuel
    (g g' : string -> list string -> list string * Outcome (list ModuleDeclaration)) :
  (forall c r, snd (g c r) <> OutOfFuel -> g' c r = g c r) ->
  forall names r res0,
    snd (generateEach g names r res0) <> OutOfFuel ->
    generateEach g' names r res0 = generateEach g names r res0.
Proof.
  intros Hg names. induction names as [|c rest IH]; intros r res0 Hout;
    [reflexivity|].
  simpl in *. destruct (g c r) as [r1 out] eqn:Hc.
  assert (Hc' : g' c r = (r1, out)).
  { rewrite <- Hc. apply Hg. rewrite Hc. simpl.
    intros ->. now apply Hout. }
  rewrite Hc'. destruct out as [generated| |]; try reflexivity.
  now apply IH.
Qed.

Lemma generate_fuel_S (fuel : nat) :
  forall c r,
    snd (generate importClassAsync printNode fuel c r) <> OutOfFuel ->
    generate importClassAsync printNode (S fuel) c r =
    generate importClassAsync printNode fuel c r.
Proof.
  induction fuel as [|fuel IH]; intros c r Hout; [now contradiction Hout|].
  change (generate importClassAsync printNode (S (S fuel)) c r)
    with (if Js.includes c r then (r, Resolved [])
          else
            match importClassAsync c with
            | None => (r ++ [c], Rejected)
            | Some cls =>
                let (members, this) :=
                  classMembers (r ++ [c]) cls (newGenerator c) in
                match generateEach (generate importClassAsync printNode (S fuel))
                        (additionalImports this) (r ++ [c]) [] with
                | (r', Resolved res) =>
                    (r', Resolved
                           (res ++ [ {| name := c;
                                        contents :=
                                          getText printNode
                                            (moduleNodes this cls members) |} ]))
                | (r', Rejected) => (r', Rejected)
                | (r', OutOfFuel) => (r', OutOfFuel)
                end
            end).
  simpl in Hout |- *.
  destruct (Js.includes c r); [reflexivity|].
  destruct (importClassAsync c) as [cls|]; [|reflexivity].
  destruct (classMembers (r ++ [c]) cls (newGenerator c)) as [members this].
  rewrite (generateEach_fuel (generate importClassAsync printNode fuel)
             (generate importClassAsync printNode (S fuel)) IH).
  - reflexivity.
  - destruct (generateEach (generate importClassAsync printNode fuel)
                (additionalImports this) (r ++ [c]) []) as [r1 [res| |]];
      simpl in *; congruence.
Qed.

(** The bound on the nesting is an artefact of the model and does not show
    in the result: a call that ends within the bound, resolved or
    rejected, ends in the same way, with the same modules and the same
    [resolvedImports], under every larger bound. *)
Lemma generate_outcome_independent_of_bound
    (fuel fuel' : nat) (c : string) (r : list string) :
  snd (generate importClassAsync printNode fuel c r) <> OutOfFuel ->
  fuel <= fuel' ->
  generate importClassAsync printNode fuel' c r =
  generate importClassAsync printNode fuel c r.
Proof.
  intros Hout Hle. induction Hle as [|fuel' Hle IH]; [reflexivity|].
  rewrite <- IH. apply generate_fuel_S. now rewrite IH.
Qed.

(** A loop over classes of [U] emits modules of [U] when each call does. *)
Lemma generateEach_within (U : list string)
    (g : string -> list string -> list string * Outcome (list ModuleDeclaration)) :
  (forall c r r' res,
      In c U -> g c r = (r', Resolved res) ->
      Forall (fun m => In (name m) U) res) ->
  forall names r res0 r' res,
    incl names U ->
    Forall (fun m => In (name m) U) res0 ->
    generateEach g names r res0 = (r', Resolved res) ->
    Forall (fun m => In (name m) U) res.
Proof.
  intros Hg names.
  induction names as [|c rest IH]; intros r res0 r' res Hincl H0 Hrun.
  - simpl in Hrun. inversion Hrun; subst. exact H0.
  - simpl in Hrun. destruct (g c r) as [r1 [generated| |]] eqn:Hc;
      try discriminate.
    apply (IH r1 (res0 ++ generated) r' res); [| |exact Hrun].
    + intros x Hx. apply Hincl. now right.
    + apply Forall_app. split; [exact H0|].
      apply (Hg c r r1); [apply Hincl; now left | exact Hc].
Qed.

(** From a class of a closed universe, [generate] converts classes of the
    universe only. *)
Lemma generate_within (U : list string) :
  closedUniverse importClassAsync U ->
  forall fuel c r r' res,
    In c U ->
    generate importClassAsync printNode fuel c r = (r', Resolved res) ->
    Forall (fun m => In (name m) U) res.
Proof.
  intros Hclosed fuel.
  induction fuel as [|fuel IH]; intros c r r' res HU Hrun; [discriminate|].
  apply generate_step in Hrun.
  destruct Hrun as [(_ & _ & ->)|(_ & cls & res0 & Hcls & Heach & ->)];
    [constructor|].
  destruct (Hclosed c HU) as (cls' & Hcls' & Hrefs).
  rewrite Hcls in Hcls'. inversion Hcls'; subst cls'.
  apply Forall_app. split.
  - eapply (generateEach_within U _ IH); [| |exact Heach]; [|constructor].
    intros x Hx. apply filter_In in Hx. apply Hrefs. tauto.
  - constructor; [exact HU | constructor].
Qed.

Lemma unresolved_le (U r : list string) : unresolved U r <= List.length U.
Proof.
  unfold unresolved.
  induction U as [|x U IH]; simpl; [lia|].
  destruct (negb (Js.includes x r)); simpl; lia.
Qed.

(** X12.  The conversion loop of the command-line handler on a closed universe
    of loadable classes: it resolves; every requested class has a module;
    no class has two, also when it was requested twice or is referenced
    by several requested classes; every class referenced by a module has
    a module; nothing outside the universe is converted; and the shared
    [resolvedImports] ends as the names of the modules handed to [save]. *)
Theorem handler_converts_requested_classes_once
    (U classnames : list string) :
  closedUniverse importClassAsync U ->
  incl classnames U ->
  exists res,
    snd (handler importClassAsync printNode (S (List.length U)) classnames) =
    Resolved res
    /\ (forall c, In c classnames -> In c (map name res))
    /\ NoDup (map name res)
    /\ (forall m cls n,
           In m res -> importClassAsync (name m) = Some cls ->
           In n (referencedNames (name m) cls) -> In n (map name res))
    /\ incl (map name res) U
    /\ Permutation
         (fst (handler importClassAsync printNode (S (List.length U)) classnames))
         (map name res).
Proof.
  intros Hclosed Hincl. unfold handler.
  assert (Hfuel : unresolved U [] < S (List.length U))
    by (pose proof (unresolved_le U []); lia).
  destruct (generateEach_terminates importClassAsync printNode U
              (S (List.length U))
              (generate_terminates importClassAsync printNode U Hclosed
                 (S (List.length U)))
              classnames [] Hincl Hfuel) as (res & Hres).
  exists res. split; [exact Hres|].
  destruct (generateEach_invariant importClassAsync
              (generate importClassAsync printNode (S (List.length U)))
              (generate_invariant importClassAsync printNode (S (List.length U)))
              classnames []) as (added & Hr' & Hout).
  rewrite Hres in Hout. destruct Hout as (Hp & Hn & _ & Hc & Hcl).
  change ([] ++ added) with added in Hr'. rewrite Hr' in Hc, Hcl |- *.
  split; [|split; [|split; [|split]]]; [| | | |exact Hp].
  - intros c Hin. apply (Permutation_in _ Hp). now apply Hc.
  - now apply (Permutation_NoDup Hp).
  - intros m cls n Hm Hcls Hin. apply (Permutation_in _ Hp).
    now apply (Hcl m cls n).
  - assert (HU : Forall (fun m => In (name m) U) res).
    { destruct (generateEach
                  (generate importClassAsync printNode (S (List.length U)))
                  classnames [] []) as [r1 out] eqn:Hrun.
      simpl in Hres. subst out.
      apply (generateEach_within U
               (generate importClassAsync printNode (S (List.length U)))
               (generate_within U Hclosed (S (List.length U)))
               classnames [] [] r1 res Hincl); [constructor | exact Hrun]. }
    intros x Hx. apply in_map_iff in Hx. destruct Hx as (m & <- & Hm).
    now apply (proj1 (Forall_forall _ _) HU).
Qed.

End FurtherOrchestrator.

(** ** Generator Orchestrator: the sample classes *)

Lemma sampleClasses_closed : closedUniverse sampleClasses ["a.A"; "a.B"].
Proof.
  intros c [<-|[<-|[]]].
  - exists classA. split; [reflexivity|].
    intros n Hn. vm_compute in Hn. simpl. tauto.
  - exists classB. split; [reflexivity|].
    intros n Hn. vm_compute in Hn. simpl. tauto.
Qed.

(** X9 on an example.
    On the classes [a.A] and [a.B], which reference each other, the run
    for [a.A] emits the module of [a.B] and then that of [a.A], each with
    the text of its class. *)
Lemma cyclic_classes_module_texts :
  generate sampleClasses kindPrinter 3 "a.A" [] =
    (["a.A"; "a.B"],
     Resolved [ {| name := "a.B"; contents := moduleText kindPrinter "a.B" classB |};
                {| name := "a.A"; contents := moduleText kindPrinter "a.A" classA |} ])
  /\ Forall
       (fun m =>
          exists cls,
            sampleClasses (name m) = Some cls
            /\ contents m = moduleText kindPrinter (name m) cls)
       [ {| name := "a.B"; contents := moduleText kindPrinter "a.B" classB |};
         {| name := "a.A"; contents := moduleText kindPrinter "a.A" classA |} ].
Proof.
  assert (Hrun : generate sampleClasses kindPrinter 3 "a.A" [] =
                 (["a.A"; "a.B"],
                  Resolved
                    [ {| name := "a.B";
                         contents := moduleText kindPrinter "a.B" classB |};
                      {| name := "a.A";
                         contents := moduleText kindPrinter "a.A" classA |} ]))
    by (vm_compute; reflexivity).
  split; [exact Hrun|].
  exact (proj1 (generate_module_text_depends_on_class_only
                  sampleClasses kindPrinter 3 "a.A" [] _ _ Hrun)).
Defined.

(** X10 on an example.
    With a Reflection Client that cannot load [a.B], the run for [a.A]
    rejects and leaves both names in the shared array; a second run for
    [a.A] or for [a.B] resolves with no module. *)
Lemma unloadable_reference_rejects_once :
  generate partialClasses kindPrinter 3 "a.A" [] = (["a.A"; "a.B"], Rejected)
  /\ In "a.A" ["a.A"; "a.B"]
  /\ (exists x, partialClasses x = None /\ ~ In x [] /\ In x ["a.A"; "a.B"])
  /\ (forall x, In x [] -> In x ["a.A"; "a.B"])
  /\ forall y fuel',
       In y ["a.A"; "a.B"] ->
       generate partialClasses kindPrinter (S fuel') y ["a.A"; "a.B"] =
       (["a.A"; "a.B"], Resolved []).
Proof.
  assert (Hrun : generate partialClasses kindPrinter 3 "a.A" [] =
                 (["a.A"; "a.B"], Rejected))
    by (vm_compute; reflexivity).
  split; [exact Hrun|].
  exact (generate_rejection_leaves_names_resolved
           partialClasses kindPrinter 3 "a.A" [] ["a.A"; "a.B"] Hrun).
Defined.

(** X12 on an example.
    The handler asked for [a.B], [a.A] and [a.B] again converts each of
    the two classes once. *)
Lemma handler_on_cyclic_classes :
  closedUniverse sampleClasses ["a.A"; "a.B"]
  /\ incl ["a.B"; "a.A"; "a.B"] ["a.A"; "a.B"]
  /\ exists res,
       snd (handler sampleClasses kindPrinter 3 ["a.B"; "a.A"; "a.B"]) =
       Resolved res
       /\ (forall c, In c ["a.B"; "a.A"; "a.B"] -> In c (map name res))
       /\ NoDup (map name res)
       /\ (forall m cls n,
              In m res -> sampleClasses (name m) = Some cls ->
              In n (referencedNames (name m) cls) -> In n (map name res))
       /\ incl (map name res) ["a.A"; "a.B"]
       /\ Permutation
            (fst (handler sampleClasses kindPrinter 3 ["a.B"; "a.A"; "a.B"]))
            (map name res).
Proof.
  assert (Hincl : incl ["a.B"; "a.A"; "a.B"] ["a.A"; "a.B"])
    by (intros x Hx; simpl in *; tauto).
  split; [exact sampleClasses_closed|]. split; [exact Hincl|].
  exact (handler_converts_requested_classes_once
           sampleClasses kindPrinter ["a.A"; "a.B"] ["a.B"; "a.A"; "a.B"]
           sampleClasses_closed Hincl).
Defined.

(** ** Type Mapper: nullability, arrays and primitives *)

Lemma createUnion_effect r javaType isParam s1 s2 type additional this :
  snd (createUnion r javaType isParam s1 type additional this) =
  snd (createUnion r javaType isParam s2 type additional this).
Proof.
  unfold createUnion. destruct isParam; reflexivity.
Qed.

Lemma mapScalarType_effect r javaType isParam s1 s2 this :
  snd (mapScalarType r javaType isParam s1 this) =
  snd (mapScalarType r javaType isParam s2 this).
Proof.
  unfold mapScalarType.
  repeat match goal with
         | |- context [if ?b then _ else _] =>
             match b with
             | context [String.eqb] => destruct b
             end
         end;
    try apply createUnion_effect; try reflexivity.
Qed.

(** X13.  What a type registers does not depend on the nullability requested:
    [javaTypeToTypescriptType] leaves the generator in the same state,
    hence a module has the same imports, whether the null literal is asked
    for or not. *)
Theorem javaTypeToTypescriptType_effect_ignores_nullability
    (r : list string) (javaType : string) (isParam s1 s2 : bool)
    (this : Generator) :
  snd (javaTypeToTypescriptType r javaType isParam s1 this) =
  snd (javaTypeToTypescriptType r javaType isParam s2 this).
Proof.
  rewrite !javaTypeToTypescriptType_unfold.
  destruct ((javaType =? "byte[]") || (javaType =? "java.lang.Byte[]"));
    [reflexivity|].
  destruct (Js.endsWith javaType "[]").
  - rewrite !bind_run. reflexivity.
  - apply mapScalarType_effect.
Qed.

Lemma substring_append_l (s t : string) :
  substring 0 (String.length s) (s +++ t) = s.
Proof.
  induction s as [|a s IH]; simpl; [now destruct t|]. now rewrite IH.
Qed.

Lemma substring_append_r (s t : string) :
  substring (String.length s) (String.length t) (s +++ t) = t.
Proof.
  induction s as [|a s IH]; simpl; [|exact IH].
  induction t as [|b t IHt]; simpl; [reflexivity|]. now rewrite IHt.
Qed.

Lemma append_cancel_r (s s' t : string) : s +++ t = s' +++ t -> s = s'.
Proof.
  intros H.
  assert (Hlen : String.length s = String.length s').
  { apply (f_equal String.length) in H. rewrite !length_append in H. lia. }
  rewrite <- (substring_append_l s t), H, Hlen. apply substring_append_l.
Qed.

Lemma endsWith_append (s t : string) : Js.endsWith (s +++ t) t = true.
Proof.
  unfold Js.endsWith. rewrite length_append.
  replace (String.length s + String.length t - String.length t)
    with (String.length s) by lia.
  rewrite substring_append_r, String.eqb_refl, andb_true_r.
  apply Nat.leb_le. lia.
Qed.

(** X14.  An array type [E[]], byte arrays apart, maps to the array of the mapped
    element type, and the element type is mapped with nullability
    requested whatever was requested for the array itself: the recursive
    call of the source passes no [strictNullTypes].  The position
    [isParam] is handed down, and the array registers what its element
    type registers. *)
Theorem array_element_type_is_always_nullable
    (r : list string) (elementType : string) (isParam strict : bool)
    (this : Generator) :
  elementType <> "byte" -> elementType <> "java.lang.Byte" ->
  javaTypeToTypescriptType r (elementType +++ "[]") isParam strict this =
  (createType strict
     (ts.ArrayTypeNode
        (fst (javaTypeToTypescriptType r elementType isParam true this))),
   snd (javaTypeToTypescriptType r elementType isParam true this)).
Proof.
  intros Hbyte HByte. rewrite javaTypeToTypescriptType_unfold.
  destruct (String.eqb_spec (elementType +++ "[]") "byte[]") as [E|_];
    [apply (append_cancel_r elementType "byte" "[]") in E; contradiction|].
  destruct (String.eqb_spec (elementType +++ "[]") "java.lang.Byte[]") as [E|_];
    [apply (append_cancel_r elementType "java.lang.Byte" "[]") in E;
     contradiction|].
  cbv beta iota delta [orb].
  rewrite endsWith_append, length_append.
  replace (String.length elementType + String.length "[]" - 2)
    with (String.length elementType) by (simpl; lia).
  rewrite substring_append_l, bind_run. reflexivity.
Qed.

(** X14 on an example.
    [int[]] as a return type that is asked to leave the null literal out
    is the plain array of [number]. *)
Lemma int_array_without_null :
  "int" <> "byte" /\ "int" <> "java.lang.Byte"
  /\ forall r this,
       javaTypeToTypescriptType r ("int" +++ "[]") false false this =
       (createType false
          (ts.ArrayTypeNode
             (fst (javaTypeToTypescriptType r "int" false true this))),
        snd (javaTypeToTypescriptType r "int" false true this)).
Proof.
  assert (H1 : "int" <> "byte") by discriminate.
  assert (H2 : "int" <> "java.lang.Byte") by discriminate.
  split; [exact H1|]. split; [exact H2|].
  exact (fun r this =>
           array_element_type_is_always_nullable r "int" false false this H1 H2).
Defined.

(** X15.  A primitive type is mapped as its wrapper class with the null literal
    left out: both give the same type and register the same names, in
    either position.  For every primitive but [char] the nullability
    requested makes no difference. *)
Theorem primitive_is_mapped_as_its_wrapper_class
    (r : list string) (type : string) (isParam : bool) (this : Generator) :
  isPrimitive type = true ->
  javaTypeToTypescriptType r type isParam false this =
    javaTypeToTypescriptType r (primitiveToClassType type) isParam false this
  /\ (type <> "char" ->
      javaTypeToTypescriptType r type isParam true this =
      javaTypeToTypescriptType r type isParam false this).
Proof.
  intros H. apply includes_In in H. simpl in H.
  destruct H as [<-|[<-|[<-|[<-|[<-|[<-|[<-|[<-|[]]]]]]]]];
    (split; [reflexivity | intros Hc; try reflexivity; now contradiction Hc]).
Qed.

(** X15 on an example.
    [long] in parameter position is mapped as [java.lang.Long] without the
    null literal. *)
Lemma long_is_mapped_as_its_wrapper_class :
  isPrimitive "long" = true
  /\ forall r this,
       javaTypeToTypescriptType r "long" true false this =
         javaTypeToTypescriptType r (primitiveToClassType "long") true false this
       /\ ("long" <> "char" ->
           javaTypeToTypescriptType r "long" true true this =
           javaTypeToTypescriptType r "long" true false this).
Proof.
  assert (H : isPrimitive "long" = true) by reflexivity.
  split; [exact H|].
  exact (fun r this => primitive_is_mapped_as_its_wrapper_class r "long" true this H).
Defined.

(** ** Persistence: the layout of the saved modules *)

Lemma split_free_id (c : ascii) (s : string) :
  freeOf c s = true -> Js.split c s = [s].
Proof.
  induction s as [|a s IH]; intros H; [reflexivity|].
  simpl in *. apply andb_true_iff in H. destruct H as [Ha Hs].
  apply negb_true_iff in Ha. rewrite Ha, (IH Hs). reflexivity.
Qed.

Lemma split_append (c : ascii) (s t : string) :
  freeOf c s = true ->
  Js.split c (s +++ String c t) = s :: Js.split c t.
Proof.
  induction s as [|a s IH]; intros H; simpl.
  - now rewrite Ascii.eqb_refl.
  - simpl in H. apply andb_true_iff in H. destruct H as [Ha Hs].
    apply negb_true_iff in Ha. rewrite Ha, (IH Hs). reflexivity.
Qed.

Lemma split_join (c : ascii) (l : list string) :
  l <> [] -> Forall (fun s => freeOf c s = true) l ->
  Js.split c (Js.join (String c "") l) = l.
Proof.
  intros Hnil Hfree. induction Hfree as [|s l Hs Hl IH]; [contradiction|].
  destruct l as [|s' l].
  - simpl. now apply split_free_id.
  - change (Js.join (String c "") (s :: s' :: l))
      with (s +++ String c (Js.join (String c "") (s' :: l))).
    rewrite split_append by exact Hs. f_equal. apply IH. discriminate.
Qed.

Lemma split_parentSteps (n : nat) (t : string) :
  Js.split "/" (parentSteps n +++ t) = repeat ".." n ++ Js.split "/" t.
Proof.
  induction n as [|n IH]; [reflexivity|].
  change (parentSteps (S n) +++ t) with (".." +++ String "/" (parentSteps n +++ t)).
  rewrite split_append by reflexivity. simpl. now rewrite IH.
Qed.

Lemma resolveRelative_parents (common d rest : list string) :
  resolveRelative (common ++ d) (repeat ".." (List.length d) ++ rest) =
  resolveRelative common rest.
Proof.
  induction d as [|x d IH] using rev_ind; [now rewrite app_nil_r|].
  rewrite length_app, Nat.add_comm. simpl.
  rewrite app_assoc, removelast_last. exact IH.
Qed.

Lemma resolveRelative_descends (rest : list string) :
  Forall (fun s => s <> "." /\ s <> "..") rest ->
  forall dir, resolveRelative dir rest = dir ++ rest.
Proof.
  induction 1 as [|s rest [Hdot Hdots] _ IH]; intros dir; simpl;
    [now rewrite app_nil_r|].
  destruct (String.eqb_spec s ".") as [|_]; [contradiction|].
  destruct (String.eqb_spec s "..") as [|_]; [contradiction|].
  rewrite IH, <- app_assoc. reflexivity.
Qed.

(** X16.  The import path of a module leads to the file that [save] writes for
    the imported class.  Take two classes whose dotted names diverge
    after the segments [common], neither name being a prefix of the
    other, with the segments of the imported class fit to be path
    components.  Resolved from the directory [save] puts the importing
    module in, the path returned by [getPath] is the segment array of the
    imported class; with ['.ts'] appended to its last component it is the
    array [save] hands to [path.join] for the imported class. *)
Theorem import_path_resolves_to_saved_file
    (classname i : string) (common restThis restImport : list string) :
  Js.split "." classname = common ++ restThis ->
  Js.split "." i = common ++ restImport ->
  diverge restThis restImport ->
  restThis <> [] ->
  restImport <> [] ->
  Forall (fun s => s <> "") restThis ->
  Forall (fun s => s <> "" /\ s <> "." /\ s <> ".." /\ freeOf "/" s = true)
    restImport ->
  let target :=
    resolveRelative (removelast (saveSegments classname))
      (Js.split "/" (getPath classname i)) in
  target = Js.split "." i
  /\ saveSegments i = removelast target ++ [last target "" +++ ".ts"].
Proof.
  intros Hthis Himport Hdiv HthisNil HimportNil HthisSeg HimportSeg target.
  assert (Htarget : target = Js.split "." i).
  { unfold target, saveSegments, getPath.
    rewrite removelast_last, Hthis, Himport.
    rewrite nullCommonPrefix_common by assumption.
    rewrite !filter_truthy_segments;
      [|eapply Forall_impl; [|exact HimportSeg]; simpl; tauto | assumption].
    rewrite join_empty_segments, map_segmentText_Some.
    change ("./" +++ parentSteps (List.length restThis - 1)
            +++ Js.join "/" restImport)
      with ("." +++ String "/" (parentSteps (List.length restThis - 1)
                                +++ Js.join "/" restImport)).
    rewrite split_append by reflexivity.
    rewrite split_parentSteps, split_join;
      [|assumption | eapply Forall_impl; [|exact HimportSeg]; simpl; tauto].
    rewrite removelast_app by assumption.
    replace (List.length restThis - 1) with (List.length (removelast restThis)).
    - simpl. rewrite resolveRelative_parents. apply resolveRelative_descends.
      eapply Forall_impl; [|exact HimportSeg]. simpl. tauto.
    - destruct restThis as [|x l] using rev_ind; [contradiction|].
      rewrite removelast_last, length_app. simpl. lia. }
  split; [exact Htarget|]. now rewrite Htarget.
Qed.

(** X16 on an example.
    [a.b.C] importing [a.d.e.F]: the path [./../d/e/F] resolved from the
    directory [a/b] is [a/d/e/F]. *)
Lemma import_path_of_sample_classes :
  let target :=
    resolveRelative (removelast (saveSegments "a.b.C"))
      (Js.split "/" (getPath "a.b.C" "a.d.e.F")) in
  target = Js.split "." "a.d.e.F"
  /\ saveSegments "a.d.e.F" = removelast target ++ [last target "" +++ ".ts"].
Proof.
  apply (import_path_resolves_to_saved_file "a.b.C" "a.d.e.F"
           ["a"] ["b"; "C"] ["d"; "e"; "F"]).
  - reflexivity.
  - reflexivity.
  - simpl. discriminate.
  - discriminate.
  - discriminate.
  - repeat constructor; discriminate.
  - repeat constructor; discriminate.
Defined.

Lemma substring_all (s : string) : substring 0 (String.length s) s = s.
Proof. induction s as [|a s IH]; simpl; congruence. Qed.

Lemma split_single (c : ascii) (s : string) :
  forall w, Js.split c s = [w] -> freeOf c s = true.
Proof.
  induction s as [|a s IH]; intros w H; [reflexivity|].
  simpl in *. pose proof (split_not_nil c s) as Hnil.
  destruct (Ascii.eqb a c).
  - destruct (Js.split c s); [contradiction | discriminate].
  - destruct (Js.split c s) as [|w' ws]; [contradiction|].
    inversion H; subst. simpl. now apply (IH w').
Qed.

Lemma last_split_cons (c a : ascii) (s : string) :
  last (Js.split c (String a s)) "" =
  if freeOf c (String a s) then String a s else last (Js.split c s) "".
Proof.
  simpl. pose proof (split_not_nil c s) as Hnil.
  destruct (Ascii.eqb a c); simpl.
  - destruct (Js.split c s); [contradiction | reflexivity].
  - destruct (freeOf c s) eqn:Hfree.
    + now rewrite (split_free_id c s Hfree).
    + destruct (Js.split c s) as [|w ws] eqn:E; [contradiction|].
      destruct ws as [|w' ws]; [|reflexivity].
      apply split_single in E. congruence.
Qed.

Lemma lastIndexOf_from_spec (c : ascii) (s : string) :
  forall i found,
    if freeOf c s then Js.lastIndexOf_from c s i found = found
    else
      let k := Z.to_nat (Js.lastIndexOf_from c s i found - i + 1) in
      (i <= Js.lastIndexOf_from c s i found < i + Z.of_nat (String.length s))%Z
      /\ substring k (String.length s - k) s = last (Js.split c s) "".
Proof.
  induction s as [|a s IH]; intros i found; [reflexivity|].
  rewrite last_split_cons.
  change (Js.lastIndexOf_from c (String a s) i found)
    with (Js.lastIndexOf_from c s (i + 1) (if Ascii.eqb a c then i else found)).
  specialize (IH (i + 1)%Z (if Ascii.eqb a c then i else found)).
  change (freeOf c (String a s)) with (negb (Ascii.eqb a c) && freeOf c s).
  destruct (freeOf c s) eqn:Hfree.
  - rewrite IH. destruct (Ascii.eqb a c); simpl negb; cbv beta iota delta [andb];
      [|reflexivity].
    cbv zeta. replace (Z.to_nat (i - i + 1)) with 1 by lia.
    split; [simpl String.length; lia|].
    simpl. rewrite Nat.sub_0_r, substring_all.
    now rewrite (split_free_id c s Hfree).
  - rewrite andb_false_r. cbv zeta in IH |- *.
    destruct IH as [Hrange Hsub].
    set (res := Js.lastIndexOf_from c s (i + 1) (if Ascii.eqb a c then i else found))
      in *.
    split; [simpl String.length; lia|].
    replace (Z.to_nat (res - i + 1)) with (S (Z.to_nat (res - (i + 1) + 1))) by lia.
    simpl. exact Hsub.
Qed.

Lemma simpleNameOf_last_segment (name : string) :
  simpleNameOf name = last (Js.split "." name) "".
Proof.
  unfold simpleNameOf, Js.substringFrom, Js.lastIndexOf.
  pose proof (lastIndexOf_from_spec "." name 0 (-1)) as H.
  destruct (freeOf "." name) eqn:Hfree.
  - rewrite H. simpl Z.to_nat. rewrite Nat.sub_0_r, substring_all.
    now rewrite (split_free_id "." name Hfree).
  - cbv zeta in H. destruct H as [_ H].
    replace (Js.lastIndexOf_from "." name 0 (-1) - 0 + 1)%Z
      with (Js.lastIndexOf_from "." name 0 (-1) + 1)%Z in H by lia.
    exact H.
Qed.

(** X17.  Where [save] puts a module.  The file is named after the simple name of
    the class, the name [generate] declares the class under, with ['.ts']
    appended, below one directory per package segment; the class name is
    read back from these segments by joining them with dots, so that [save]
    hands [path.join] the same segments for two modules only when they are
    modules of the same class. *)
Theorem save_places_each_class_in_its_own_file (name : string) :
  saveSegments name =
    removelast (Js.split "." name) ++ [simpleNameOf name +++ ".ts"]
  /\ Js.join "." (removelast (Js.split "." name) ++ [simpleNameOf name]) = name
  /\ (forall other, saveSegments other = saveSegments name <-> other = name).
Proof.
  split; [|split].
  - unfold saveSegments. now rewrite simpleNameOf_last_segment.
  - rewrite simpleNameOf_last_segment.
    rewrite <- (app_removelast_last "" (split_not_nil "." name)).
    apply join_split.
  - intros other. split; [|now intros ->].
    unfold saveSegments. intros H.
    apply app_inj_tail in H. destruct H as [Hinit Hlast].
    apply append_cancel_r in Hlast.
    rewrite <- (join_split "." other), <- (join_split "." name).
    rewrite (app_removelast_last "" (split_not_nil "." other)),
            (app_removelast_last "" (split_not_nil "." name)).
    now rewrite Hinit, Hlast.
Qed.

(** * Constructors and closure *)

(** ** Member Converter: the constructors and factories of a module *)

Lemma isFactory_withoutComments N e :
  isFactory N e = isFactory N (withoutComments e).
Proof. destruct e; reflexivity. Qed.

Lemma map_filter_comm {A B} (f : A -> B) (p : B -> bool) (l : list A) :
  map f (filter (fun a => p (f a)) l) = filter p (map f l).
Proof.
  induction l as [|a l IH]; simpl; [reflexivity|].
  destruct (p (f a)); simpl; now rewrite IH.
Qed.

Lemma filter_withoutComments (p : ts.ClassElement -> bool) (l : list ts.ClassElement) :
  (forall e, p e = p (withoutComments e)) ->
  map withoutComments (filter p l) = filter p (map withoutComments l).
Proof.
  intros Hp. rewrite <- map_filter_comm. f_equal.
  apply filter_ext. exact Hp.
Qed.

Lemma filter_flat_map {A B} (p : B -> bool) (g : A -> list B) (l : list A) :
  filter p (flat_map g l) = flat_map (fun a => filter p (g a)) l.
Proof.
  induction l as [|a l IH]; simpl; [reflexivity|].
  now rewrite filter_app, IH.
Qed.

Lemma flat_map_filter_key {V B} (f : string) (g : string * V -> list B)
    (l : list (string * V)) :
  (forall kv, (fst kv =? f) = false -> g kv = []) ->
  flat_map g l = flat_map g (filter (fun kv => fst kv =? f) l).
Proof.
  intros Hg. induction l as [|kv l IH]; simpl; [reflexivity|].
  destruct (fst kv =? f) eqn:E; simpl; rewrite IH; [reflexivity|].
  now rewrite (Hg kv E).
Qed.

Lemma filter_filter {A} (p q : A -> bool) (l : list A) :
  filter q (filter p l) = filter (fun a => p a && q a) l.
Proof.
  induction l as [|a l IH]; simpl; [reflexivity|].
  destruct (p a); simpl; [destruct (q a); simpl|]; now rewrite IH.
Qed.

Lemma append_Sync_not_newInstance (k : string) :
  (k +++ "Sync" =? "newInstance") = false.
Proof.
  apply String.eqb_neq. intros H.
  pose proof (endsWith_append k "Sync") as E. rewrite H in E. discriminate E.
Qed.

Section ConstructorDuality.

Context {Modifier : Modifier.ModifierClass}.

Lemma convertMethodEntries_value r entries this :
  map withoutComments (fst (convertMethodEntries r entries this)) =
  flat_map
    (fun kv =>
       flat_map
         (fun m =>
            [ methodSignature r this m (fst kv) false
                (Js.includes (fst kv) nonNullReturnMethods);
              methodSignature r this m (fst kv) true
                (Js.includes (fst kv) nonNullReturnMethods) ])
         (snd kv))
    entries.
Proof.
  induction entries as [|[key method] rest IH]; [reflexivity|].
  rewrite convertMethodEntries_cons, map_app, IH. simpl. f_equal.
  apply convertMethod_from_value.
Qed.

Lemma group_factories r this N key (group : list MethodDeclaration) :
  filter (isFactory N)
    (flat_map
       (fun m =>
          [ methodSignature r this m key false (Js.includes key nonNullReturnMethods);
            methodSignature r this m key true (Js.includes key nonNullReturnMethods) ])
       group) =
  if key =? "newInstance"
  then map (fun m => methodSignature r this m "newInstance" false false)
         (filter (fun m => isStatic m && (List.length (parameters m) =? N)%nat)
            group)
  else [].
Proof.
  induction group as [|m group IH].
  - simpl. now destruct (key =? "newInstance").
  - cbn [flat_map]. rewrite filter_app, IH. clear IH.
    destruct m as [rt ps st].
    unfold methodSignature at 1 2. cbn [filter isFactory app].
    rewrite append_Sync_not_newInstance, andb_false_r. cbn [andb].
    rewrite append_empty_r, length_parameterDeclarations.
    destruct (String.eqb_spec key "newInstance") as [->|Hne].
    + cbn [filter isStatic parameters returnType].
      destruct st; cbn [existsb isStaticKeyword orb andb app]; [|reflexivity].
      destruct (List.length ps =? N)%nat; reflexivity.
    + rewrite andb_false_r. reflexivity.
Qed.

Lemma entries_of_name (f : string) (methods : list DeclaredMethodClass) :
  f <> "__proto__" ->
  filter (fun kv => fst kv =? f) (JsObject.entries (convertMethods methods)) =
  match publicOverloads f methods with
  | [] => []
  | l => [(f, l)]
  end.
Proof.
  intros Hf. destruct (publicOverloads f methods) as [|m ms] eqn:Hov.
  - destruct (filter (fun kv => fst kv =? f)
                (JsObject.entries (convertMethods methods))) as [|[k l] rest] eqn:E;
      [reflexivity|].
    exfalso.
    assert (Hin : In (k, l) (filter (fun kv => fst kv =? f)
                               (JsObject.entries (convertMethods methods))))
      by (rewrite E; now left).
    apply filter_In in Hin. destruct Hin as [Hin Hk].
    simpl in Hk. apply String.eqb_eq in Hk. subst k.
    apply (Permutation_in _ (entries_Permutation _)) in Hin.
    apply In_get in Hin; [|apply convertMethods_loop_keys; constructor].
    unfold convertMethods in Hin.
    rewrite (convertMethods_loop_get f methods Hf) in Hin. simpl in Hin.
    rewrite Hov in Hin. discriminate.
  - now apply convertMethods_group.
Qed.

Lemma members_factories r this N cls :
  map withoutComments
    (filter (isFactory N)
       (fst (convertFields r (Js.filteri onlyUnique (getFields cls)) this)
        ++ fst (convertMethodEntries r
                  (JsObject.entries (convertMethods (getMethods cls))) this))) =
  map (fun m => methodSignature r this (toMethodDeclaration m) "newInstance" false false)
    (staticNewInstanceMethods N cls).
Proof.
  rewrite (filter_withoutComments _ _ (isFactory_withoutComments N)).
  rewrite map_app, filter_app, convertFields_value, convertMethodEntries_value.
  replace (filter (isFactory N)
             (map (fieldSignature r this)
                (filter (fun f => Modifier.isPublic (field_getModifiers f))
                   (Js.filteri onlyUnique (getFields cls)))))
    with (@nil ts.ClassElement).
  2:{ symmetry. generalize (filter (fun f => Modifier.isPublic (field_getModifiers f))
                    (Js.filteri onlyUnique (getFields cls))) as l.
      induction l; simpl; auto. }
  cbn [app].
  rewrite filter_flat_map.
  rewrite (flat_map_ext _ _ (fun kv => group_factories r this N (fst kv) (snd kv))).
  rewrite (flat_map_filter_key "newInstance")
    by (intros kv E; now rewrite E).
  rewrite entries_of_name by discriminate.
  unfold staticNewInstanceMethods, publicOverloads.
  set (named := filter (fun m => Modifier.isPublic (method_getModifiers m)
                                 && (method_getName m =? "newInstance"))
                  (getMethods cls)).
  assert (Hgoal :
            map (fun m => methodSignature r this m "newInstance" false false)
              (filter (fun m => isStatic m && (List.length (parameters m) =? N)%nat)
                 (map toMethodDeclaration named)) =
            map (fun m => methodSignature r this (toMethodDeclaration m)
                            "newInstance" false false)
              (filter
                 (fun m =>
                    Modifier.isPublic (method_getModifiers m)
                    && Modifier.isStatic (method_getModifiers m)
                    && (method_getName m =? "newInstance")
                    && (List.length (method_getParameterTypes m) =? N)%nat)
                 (getMethods cls))).
  { rewrite <- map_filter_comm, map_map. unfold named. rewrite filter_filter.
    f_equal. apply filter_ext. intros m. unfold toMethodDeclaration. simpl.
    rewrite length_map.
    destruct (Modifier.isPublic (method_getModifiers m)),
             (Modifier.isStatic (method_getModifiers m)),
             (method_getName m =? "newInstance"),
             (List.length (method_getParameterTypes m) =? N)%nat; reflexivity. }
  destruct (map toMethodDeclaration named) as [|m ms] eqn:Hnamed.
  - simpl in Hgoal. simpl. exact Hgoal.
  - cbn [flat_map fst snd]. rewrite String.eqb_refl, app_nil_r. exact Hgoal.
Qed.

Lemma declaredMembers_moduleNodes this cls members :
  declaredMembers (moduleNodes this cls members) =
  members ++ (if isAbstractOrInterface cls then [createPrivateConstructor] else []).
Proof.
  unfold moduleNodes, declaredMembers. rewrite !flat_map_app.
  replace (flat_map
             (fun n : option ts.Node =>
                match n with
                | Some (ts.ClassDeclaration _ _ _ members0 _) => members0
                | _ => []
                end)
             (map Some (getAdditionalImports this)))
    with (@nil ts.ClassElement).
  - simpl. rewrite !app_nil_r. destruct (isAbstractOrInterface cls); reflexivity.
  - unfold getAdditionalImports. rewrite map_map.
    generalize (Js.filteri unique
                  (filter (fun i => negb (i =? classname this))
                     (importsToResolve this))) as l.
    induction l; simpl; auto.
Qed.

(** C6, amended.  A concrete class with exactly one public constructor [k],
    of arity [N], gets at the end of its class body the static factory
    [newInstance] and the public constructor, both with [N] parameters
    typed in parameter position.  The constructor is the only constructor
    declaration of the module.  The factory is the only static
    [newInstance] of arity [N] that the constructor conversion declares,
    but not always the only one of the module: every public static method
    of the class that is named [newInstance] and takes [N] parameters is
    declared too, as any method is, so that the module declares one more
    static [newInstance] of arity [N] than the class has such methods,
    and exactly one when it has none.  An abstract class or an interface
    has no constructor declaration in its class body, whatever
    constructors its metadata declares; the only constructor of its module
    is the private stub, without parameters, of the exported class, and
    its only static [newInstance] declarations are those of its methods.
    The statement is on the syntax tree, where a constructor is a node
    built by [createConstructorDeclaration]. *)
Theorem constructor_duality (r : list string) (c : string) (cls : ClassClass) :
  let this := newGenerator c in
  let body := fst (classMembers r cls this) in
  let nodes := moduleNodes (snd (classMembers r cls this)) cls body in
  (forall k : DeclaredConstructorClass,
      isInterface cls = false ->
      Modifier.isAbstract (class_getModifiers cls) = false ->
      filter (fun k => Modifier.isPublic (constructor_getModifiers k))
        (getDeclaredConstructors cls) = [k] ->
      let t := map getTypeName (constructor_getParameterTypes k) in
      let N := List.length (constructor_getParameterTypes k) in
      exists members factory ctor,
        body = members ++ [factory; ctor]
        /\ filter ts.isConstructor members = []
        /\ map withoutComments (filter (isFactory N) members) =
           map (fun m =>
                  methodSignature r this (toMethodDeclaration m)
                    "newInstance" false false)
             (staticNewInstanceMethods N cls)
        /\ withoutComments factory =
           ts.MethodDeclaration [ts.PublicKeyword; ts.StaticKeyword] "newInstance"
             (parameterDeclarations r this 0 t)
             (ts.TypeReferenceNode "Promise"
                [fst (javaTypeToTypescriptType r c false false this)])
             []
        /\ isFactory N factory = true
        /\ withoutComments ctor =
           ts.ConstructorDeclaration [ts.PublicKeyword]
             (parameterDeclarations r this 0 t) None []
        /\ List.length (ts.elementParameters ctor) = N
        /\ declaredConstructors nodes = [ctor]
        /\ filter (isFactory N) (declaredMembers nodes) =
           filter (isFactory N) members ++ [factory]
        /\ List.length (filter (isFactory N) (declaredMembers nodes)) =
           List.length (staticNewInstanceMethods N cls) + 1)
  /\ (isInterface cls || Modifier.isAbstract (class_getModifiers cls) = true ->
      filter ts.isConstructor body = []
      /\ declaredConstructors nodes = [createPrivateConstructor]
      /\ ts.elementModifiers createPrivateConstructor = [ts.PrivateKeyword]
      /\ ts.elementParameters createPrivateConstructor = []
      /\ forall N,
           List.length (filter (isFactory N) (declaredMembers nodes)) =
           List.length (staticNewInstanceMethods N cls)).
Proof.
  intros this body nodes.
  set (members :=
         fst (convertFields r (Js.filteri onlyUnique (getFields cls)) this)
         ++ fst (convertMethodEntries r
                   (JsObject.entries (convertMethods (getMethods cls))) this)).
  assert (Hbody : body =
                  members
                  ++ (if isAbstractOrInterface cls then []
                      else fst (convertConstructors r
                                  (getDeclaredConstructors cls) this))).
  { subst body members. rewrite classMembers_value. now rewrite app_assoc. }
  assert (Hmembers : filter ts.isConstructor members = []).
  { subst members. rewrite filter_app.
    now rewrite convertFields_no_constructor, convertMethodEntries_no_constructor. }
  assert (Hcount : forall N,
             List.length (filter (isFactory N) members) =
             List.length (staticNewInstanceMethods N cls)).
  { intros N. rewrite <- (length_map withoutComments).
    subst members. rewrite members_factories. apply length_map. }
  split.
  - intros k Hinterface Habstract Hone t N.
    assert (Hconcrete : isAbstractOrInterface cls = false)
      by (unfold isAbstractOrInterface; now rewrite Hinterface, Habstract).
    rewrite Hconcrete in Hbody.
    pose proof (convertConstructors_value r (getDeclaredConstructors cls) this)
      as Hcs.
    unfold publicConstructorTypes in Hcs. rewrite Hone in Hcs.
    cbn [map app] in Hcs. fold t in Hcs.
    destruct (fst (convertConstructors r (getDeclaredConstructors cls) this))
      as [|factory [|ctor [|extra rest]]] eqn:Hlist; try discriminate Hcs.
    inversion Hcs as [[Hfactory Hctor]]. clear Hcs.
    assert (HisF : isFactory N factory = true).
    { rewrite isFactory_withoutComments, Hfactory.
      unfold methodSignature. cbn [isFactory isStatic parameters app existsb
                                     isStaticKeyword orb andb].
      rewrite length_parameterDeclarations. unfold t. rewrite length_map.
      fold N. now rewrite Nat.eqb_refl. }
    assert (HisC : ts.isConstructor ctor = true
                   /\ ts.isConstructor factory = false
                   /\ isFactory N ctor = false).
    { rewrite (isConstructor_withoutComments ctor),
              (isConstructor_withoutComments factory),
              (isFactory_withoutComments N ctor), Hctor, Hfactory.
      repeat split; reflexivity. }
    destruct HisC as (HC1 & HC2 & HC3).
    assert (Hnodes : declaredMembers nodes = members ++ [factory; ctor]).
    { subst nodes. rewrite declaredMembers_moduleNodes, Hconcrete, app_nil_r.
      exact Hbody. }
    exists members, factory, ctor.
    split; [exact Hbody|]. split; [exact Hmembers|].
    split; [subst members; apply members_factories|].
    split; [rewrite Hfactory; unfold methodSignature; now rewrite append_empty_r|].
    split; [exact HisF|].
    split; [exact Hctor|].
    split.
    { assert (Hp : ts.elementParameters ctor =
                   ts.elementParameters (withoutComments ctor))
        by (destruct ctor; reflexivity).
      rewrite Hp, Hctor. unfold constructorSignature. simpl.
      rewrite length_parameterDeclarations. unfold t. apply length_map. }
    split.
    { subst nodes. rewrite declaredConstructors_moduleNodes, Hconcrete, app_nil_r.
      rewrite Hbody, filter_app, Hmembers. simpl. now rewrite HC1, HC2. }
    assert (Hfilter : filter (isFactory N) (declaredMembers nodes) =
                      filter (isFactory N) members ++ [factory]).
    { rewrite Hnodes, filter_app. simpl. now rewrite HisF, HC3. }
    split; [exact Hfilter|].
    rewrite Hfilter, length_app, Hcount. reflexivity.
  - intros Habstract.
    assert (Hai : isAbstractOrInterface cls = true) by exact Habstract.
    rewrite Hai, app_nil_r in Hbody.
    split; [now rewrite Hbody|].
    split.
    { subst nodes. rewrite declaredConstructors_moduleNodes, Hai.
      now rewrite Hbody, Hmembers. }
    split; [reflexivity|]. split; [reflexivity|].
    intros N. subst nodes. rewrite declaredMembers_moduleNodes, Hai.
    rewrite filter_app, length_app, Hbody, Hcount. simpl. lia.
Qed.

End ConstructorDuality.

(** C6 on two classes: [a.B], concrete with the public constructor
    [B(int)] and no method named [newInstance], and the abstract class
    [a.Shape] with two public constructors. *)
Lemma constructor_duality_examples :
  (exists members factory ctor,
      fst (classMembers [] overloadedClass (newGenerator "a.B")) =
      members ++ [factory; ctor]
      /\ isFactory 1 factory = true
      /\ List.length (ts.elementParameters ctor) = 1
      /\ declaredConstructors
           (moduleNodes (snd (classMembers [] overloadedClass (newGenerator "a.B")))
              overloadedClass
              (fst (classMembers [] overloadedClass (newGenerator "a.B")))) =
         [ctor]
      /\ filter (isFactory 1)
           (declaredMembers
              (moduleNodes
                 (snd (classMembers [] overloadedClass (newGenerator "a.B")))
                 overloadedClass
                 (fst (classMembers [] overloadedClass (newGenerator "a.B"))))) =
         [factory])
  /\ declaredConstructors
       (moduleNodes (snd (classMembers [] abstractClass (newGenerator "a.Shape")))
          abstractClass
          (fst (classMembers [] abstractClass (newGenerator "a.Shape")))) =
     [createPrivateConstructor].
Proof.
  split.
  - destruct (proj1 (constructor_duality [] "a.B" overloadedClass)
                (mkDeclaredConstructor 1 [mkType "int"]))
      as (members & factory & ctor & Hb & _ & Hm & _ & Hf & _ & Hc & Hd & He & _);
      [reflexivity | reflexivity | reflexivity |].
    exists members, factory, ctor.
    split; [exact Hb|]. split; [exact Hf|]. split; [exact Hc|].
    split; [exact Hd|].
    assert (Hnone : filter (isFactory 1) members = [])
      by (apply (map_eq_nil withoutComments); exact Hm).
    change (filter (isFactory 1)
              (declaredMembers
                 (moduleNodes
                    (snd (classMembers [] overloadedClass (newGenerator "a.B")))
                    overloadedClass
                    (fst (classMembers [] overloadedClass (newGenerator "a.B"))))) =
            filter (isFactory 1) members ++ [factory]) in He.
    rewrite Hnone in He. exact He.
  - destruct (proj2 (constructor_duality [] "a.Shape" abstractClass))
      as (_ & Hd & _); [reflexivity | exact Hd].
Defined.

(** C6 (as stated, refuted): [a.F] is concrete and has exactly one public
    constructor, of arity 1, and a public static method [newInstance(int)].
    Its module declares one constructor of arity 1 and two static
    [newInstance] of arity 1: the one of the method and the factory of the
    constructor. *)
Lemma static_newInstance_method_yields_second_factory :
  let body := fst (classMembers [] factoryClass (newGenerator "a.F")) in
  let nodes :=
    moduleNodes (snd (classMembers [] factoryClass (newGenerator "a.F")))
      factoryClass body in
  isInterface factoryClass = false
  /\ Modifier.isAbstract (class_getModifiers factoryClass) = false
  /\ filter (fun k => Modifier.isPublic (constructor_getModifiers k))
       (getDeclaredConstructors factoryClass) =
     [mkDeclaredConstructor 1 [mkType "int"]]
  /\ List.length (declaredConstructors nodes) = 1
  /\ map (fun e => (ts.elementName e, List.length (ts.elementParameters e)))
       (filter (isFactory 1) (declaredMembers nodes)) =
     [(Some "newInstance", 1); (Some "newInstance", 1)]
  /\ List.length (filter (isFactory 1) (declaredMembers nodes)) <> 1.
Proof.
  cbv zeta. repeat split; try reflexivity. vm_compute. discriminate.
Qed.

(** ** Closure completeness *)

Lemma Pushes_ret {A} c (a : A) : Pushes c (ret a) [].
Proof. intros this Hc. simpl. now rewrite app_nil_r. Qed.

Lemma Pushes_bind {A B} c (m : Gen A) (k : A -> Gen B) d1 d2 :
  Pushes c m d1 -> (forall a, Pushes c (k a) d2) ->
  Pushes c (bind m k) (d1 ++ d2).
Proof.
  intros Hm Hk this Hc. rewrite bind_run.
  destruct (Hm this Hc) as [Hc1 Hi1].
  destruct (Hk (fst (m this)) (snd (m this)) Hc1) as [Hc2 Hi2].
  split; [exact Hc2|]. now rewrite Hi2, Hi1, app_assoc.
Qed.

Lemma Pushes_nil_bind {A B} c (m : Gen A) (k : A -> Gen B) d :
  Pushes c m [] -> (forall a, Pushes c (k a) d) -> Pushes c (bind m k) d.
Proof. intros Hm Hk. apply (Pushes_bind c m k [] d Hm Hk). Qed.

Lemma Pushes_bind_nil {A B} c (m : Gen A) (k : A -> Gen B) d :
  Pushes c m d -> (forall a, Pushes c (k a) []) -> Pushes c (bind m k) d.
Proof.
  intros Hm Hk. rewrite <- (app_nil_r d). apply (Pushes_bind c m k d [] Hm Hk).
Qed.

Lemma Pushes_createTypeReferenceNode c r isParam n :
  Pushes c (createTypeReferenceNode r isParam n) [n].
Proof.
  intros this Hc. unfold createTypeReferenceNode. rewrite !bind_run.
  simpl. split; [exact Hc | reflexivity].
Qed.

Lemma Pushes_createUnion c r javaType isParam strict kind additional :
  Pushes c (createUnion r javaType isParam strict kind additional)
    (if isParam then [primitiveToClassType javaType] else []).
Proof.
  unfold createUnion. destruct isParam; cbv beta iota delta [negb].
  - apply Pushes_bind_nil; [apply Pushes_createTypeReferenceNode|].
    intros ref. apply Pushes_ret.
  - apply Pushes_ret.
Qed.

Lemma Pushes_javaTypeToTypescriptType_depth c r (depth : nat) :
  forall javaType isParam strict,
    Pushes c (javaTypeToTypescriptType_depth depth r javaType isParam strict)
      (registered_depth depth javaType isParam).
Proof.
  induction depth as [|depth IH]; intros jt p st.
  - cbn [javaTypeToTypescriptType_depth registered_depth].
    unfold mappingCase, mapScalarType.
    repeat match goal with
           | |- context [if ?b then _ else _] =>
               match b with
               | context [String.eqb] => destruct b
               | Js.endsWith _ _ => destruct b
               end
           end;
      first [ apply Pushes_ret
            | apply Pushes_createUnion
            | apply Pushes_nil_bind;
              [intros this Hc; simpl; rewrite app_nil_r; tauto
              | intros ?; apply Pushes_ret]
            | apply Pushes_bind_nil;
              [apply Pushes_createTypeReferenceNode | intros ?; apply Pushes_ret] ].
  - cbn [javaTypeToTypescriptType_depth registered_depth].
    unfold mappingCase, mapScalarType.
    repeat match goal with
           | |- context [if ?b then _ else _] =>
               match b with
               | context [String.eqb] => destruct b
               | Js.endsWith _ _ => destruct b
               end
           end;
      first [ apply Pushes_ret
            | apply Pushes_createUnion
            | apply Pushes_bind_nil; [apply IH | intros ?; apply Pushes_ret]
            | apply Pushes_nil_bind;
              [intros this Hc; simpl; rewrite app_nil_r; tauto
              | intros ?; apply Pushes_ret]
            | apply Pushes_bind_nil;
              [apply Pushes_createTypeReferenceNode | intros ?; apply Pushes_ret] ].
Qed.

Lemma Pushes_javaTypeToTypescriptType c r javaType isParam strict :
  Pushes c (javaTypeToTypescriptType r javaType isParam strict)
    (registered javaType isParam).
Proof. apply Pushes_javaTypeToTypescriptType_depth. Qed.

Lemma Pushes_mapM {A B} c (f : A -> nat -> Gen B) (g : A -> list string) :
  (forall a i, Pushes c (f a i) (g a)) ->
  forall l i, Pushes c (mapM f i l) (flat_map g l).
Proof.
  intros Hf l. induction l as [|a l IH]; intros i; simpl.
  - apply Pushes_ret.
  - apply Pushes_bind; [apply Hf|]. intros b.
    apply Pushes_bind_nil; [apply IH|]. intros bs. apply Pushes_ret.
Qed.

Section PushesOfMembers.

Context {Modifier : Modifier.ModifierClass}.
Variable c : string.
Variable r : list string.

Lemma Pushes_convertParameter p i :
  Pushes c (convertParameter r p i) (registered p true).
Proof.
  unfold convertParameter.
  apply Pushes_bind_nil; [apply Pushes_javaTypeToTypescriptType|].
  intros t. apply Pushes_ret.
Qed.

Lemma Pushes_convertParameters params i :
  Pushes c (mapM (convertParameter r) i params) (parameterPushes params).
Proof. apply Pushes_mapM. intros p j. apply Pushes_convertParameter. Qed.

Lemma Pushes_createMethod m name i isSync nonNull :
  Pushes c (createMethod r m name i isSync nonNull) (methodPushes m).
Proof.
  unfold createMethod, methodPushes.
  apply Pushes_bind; [apply Pushes_javaTypeToTypescriptType|]. intros t.
  apply Pushes_bind_nil; [apply Pushes_convertParameters|]. intros ps.
  apply Pushes_ret.
Qed.

Lemma Pushes_convertMethod_from method name :
  forall i,
    Pushes c (convertMethod_from r i method name)
      (flat_map (fun m => methodPushes m ++ methodPushes m) method).
Proof.
  induction method as [|m rest IH]; intros i; simpl; [apply Pushes_ret|].
  rewrite <- app_assoc.
  apply Pushes_bind; [apply Pushes_createMethod|]. intros async.
  apply Pushes_bind; [apply Pushes_createMethod|]. intros sync.
  apply Pushes_bind_nil; [apply IH|]. intros res. apply Pushes_ret.
Qed.

Lemma Pushes_convertMethodEntries entries :
  Pushes c (convertMethodEntries r entries)
    (flat_map
       (fun kv => flat_map (fun m => methodPushes m ++ methodPushes m) (snd kv))
       entries).
Proof.
  induction entries as [|[key method] rest IH]; simpl; [apply Pushes_ret|].
  apply Pushes_bind; [apply Pushes_convertMethod_from|]. intros ms.
  apply Pushes_bind_nil; [apply IH|]. intros res. apply Pushes_ret.
Qed.

Lemma Pushes_convertFields fields :
  Pushes c (convertFields r fields)
    (flat_map (fun f => registered (getTypeName (field_getType f)) true)
       (filter (fun f => Modifier.isPublic (field_getModifiers f)) fields)).
Proof.
  induction fields as [|field rest IH]; simpl; [apply Pushes_ret|].
  destruct (Modifier.isPublic (field_getModifiers field)); [|exact IH].
  simpl. apply Pushes_bind; [apply Pushes_javaTypeToTypescriptType|]. intros t.
  apply Pushes_bind_nil; [apply IH|]. intros res. apply Pushes_ret.
Qed.

Lemma Pushes_getClassname_bind {B} (k : string -> Gen B) d :
  Pushes c (k c) d -> Pushes c (bind getClassname k) d.
Proof.
  intros Hk this Hc. rewrite bind_run. unfold getClassname. simpl.
  rewrite Hc. now apply Hk.
Qed.

Lemma Pushes_convertConstructors constructors :
  Pushes c (convertConstructors r constructors)
    (flat_map parameterPushes (publicConstructorTypes constructors)
     ++ flat_map
          (fun t => registered c false ++ parameterPushes t)
          (publicConstructorTypes constructors)).
Proof.
  unfold convertConstructors.
  apply Pushes_bind.
  - apply Pushes_mapM. intros t i.
    apply Pushes_bind_nil; [apply Pushes_convertParameters|].
    intros ps. apply Pushes_ret.
  - intros cs. apply Pushes_bind_nil.
    + apply Pushes_mapM. intros t i. apply Pushes_getClassname_bind.
      apply (Pushes_createMethod
               {| returnType := c; parameters := t; isStatic := true |}).
    + intros ns. apply Pushes_ret.
Qed.

Lemma Pushes_classMembers cls :
  Pushes c (classMembers r cls)
    (flat_map (fun f => registered (getTypeName (field_getType f)) true)
       (filter (fun f => Modifier.isPublic (field_getModifiers f))
          (Js.filteri onlyUnique (getFields cls)))
     ++ flat_map
          (fun kv => flat_map (fun m => methodPushes m ++ methodPushes m) (snd kv))
          (JsObject.entries (convertMethods (getMethods cls)))
     ++ (if isAbstractOrInterface cls then []
         else
           flat_map parameterPushes
             (publicConstructorTypes (getDeclaredConstructors cls))
           ++ flat_map
                (fun t => registered c false ++ parameterPushes t)
                (publicConstructorTypes (getDeclaredConstructors cls)))).
Proof.
  unfold classMembers.
  apply Pushes_bind; [apply Pushes_convertFields|]. intros fs.
  apply Pushes_bind; [apply Pushes_convertMethodEntries|]. intros ms.
  destruct (isAbstractOrInterface cls); cbv beta iota delta [negb].
  - apply Pushes_ret.
  - apply Pushes_bind_nil; [apply Pushes_convertConstructors|].
    intros cs. apply Pushes_ret.
Qed.

End PushesOfMembers.

Lemma In_signature n returnType (parameterTypes : list TypeClass) :
  In n (registered returnType false
        ++ parameterPushes (map getTypeName parameterTypes)) <->
  exists jt p,
    In (jt, p) (signatureTypes returnType parameterTypes)
    /\ In n (registered jt p).
Proof.
  unfold signatureTypes, parameterPushes. rewrite in_app_iff, in_flat_map. split.
  - intros [H|(q & Hq & Hn)].
    + exists returnType, false. split; [now left | exact H].
    + apply in_map_iff in Hq. destruct Hq as (ty & <- & Hty).
      exists (getTypeName ty), true. split; [|exact Hn].
      right. apply in_map_iff. now exists ty.
  - intros (jt & p & [E|Hq] & Hn).
    + inversion E; subst. now left.
    + apply in_map_iff in Hq. destruct Hq as (ty & E & Hty).
      inversion E; subst. right. exists (getTypeName ty).
      split; [now apply in_map | exact Hn].
Qed.

Section ReferencedNames.

Context {Modifier : Modifier.ModifierClass}.

Lemma convertMethods_groups (methods : list DeclaredMethodClass) f l :
  In (f, l) (JsObject.entries (convertMethods methods)) <->
  f <> "__proto__" /\ l <> [] /\ l = publicOverloads f methods.
Proof.
  assert (Hnd : NoDup (map fst (convertMethods methods)))
    by (apply convertMethods_loop_keys; constructor).
  assert (Hperm : Permutation (JsObject.entries (convertMethods methods))
                    (convertMethods methods))
    by apply entries_Permutation.
  split.
  - intros Hin. apply (Permutation_in _ Hperm) in Hin.
    assert (Hf : f <> "__proto__").
    { intros ->. apply (convertMethods_loop_no_proto methods JsObject.empty);
        [simpl; tauto|].
      apply (in_map fst) in Hin. exact Hin. }
    split; [exact Hf|].
    apply (In_get _ _ _ Hnd) in Hin. unfold convertMethods in Hin.
    rewrite (convertMethods_loop_get f methods Hf) in Hin. simpl in Hin.
    destruct (publicOverloads f methods) as [|m ms]; [discriminate|].
    inversion Hin. split; [discriminate | reflexivity].
  - intros (Hf & Hne & ->).
    apply (Permutation_in _ (Permutation_sym Hperm)). apply get_In.
    unfold convertMethods.
    rewrite (convertMethods_loop_get f methods Hf). simpl.
    destruct (publicOverloads f methods); [contradiction | reflexivity].
Qed.

Lemma grouped_method (methods : list DeclaredMethodClass) (md : MethodDeclaration) :
  (exists kv, In kv (JsObject.entries (convertMethods methods)) /\ In md (snd kv)) <->
  exists method,
    In method
      (filter (fun m => Modifier.isPublic (method_getModifiers m)
                        && negb (method_getName m =? "__proto__")) methods)
    /\ md = toMethodDeclaration method.
Proof.
  split.
  - intros ([f l] & Hkv & Hmd). apply convertMethods_groups in Hkv.
    destruct Hkv as (Hf & _ & ->). simpl in Hmd.
    unfold publicOverloads in Hmd. apply in_map_iff in Hmd.
    destruct Hmd as (method & <- & Hin). apply filter_In in Hin.
    destruct Hin as [Hin Hp]. apply andb_true_iff in Hp. destruct Hp as [Hpub Hn].
    apply String.eqb_eq in Hn. exists method. split; [|reflexivity].
    apply filter_In. split; [exact Hin|]. rewrite Hpub. simpl.
    apply negb_true_iff. apply String.eqb_neq. now rewrite Hn.
  - intros (method & Hin & ->). apply filter_In in Hin.
    destruct Hin as [Hin Hp]. apply andb_true_iff in Hp. destruct Hp as [Hpub Hn].
    apply negb_true_iff in Hn. apply String.eqb_neq in Hn.
    assert (Hmd : In (toMethodDeclaration method)
                    (publicOverloads (method_getName method) methods)).
    { unfold publicOverloads. apply in_map. apply filter_In.
      split; [exact Hin|]. now rewrite Hpub, String.eqb_refl. }
    exists (method_getName method, publicOverloads (method_getName method) methods).
    split; [|exact Hmd]. apply convertMethods_groups.
    split; [exact Hn|]. split; [|reflexivity].
    intros E. rewrite E in Hmd. contradiction.
Qed.

Lemma referencedNames_members (c : string) (cls : ClassClass) (n : string) :
  In n (referencedNames c cls) <->
  exists jt p,
    In (jt, p) (publicMemberTypes c cls) /\ In n (registered jt p).
Proof.
  unfold referencedNames.
  destruct (Pushes_classMembers c [] cls (newGenerator c) eq_refl) as [_ ->].
  cbn [importsToResolve newGenerator app].
  rewrite (filteri_first_index field_getName).
  unfold publicMemberTypes, isAbstractOrInterface.
  rewrite !in_app_iff. split.
  - intros [H|[H|H]].
    + apply in_flat_map in H. destruct H as (f & Hf & Hn).
      exists (getTypeName (field_getType f)), true. split; [|exact Hn].
      apply in_or_app. left. apply in_map_iff. now exists f.
    + apply in_flat_map in H. destruct H as (kv & Hkv & Hn).
      apply in_flat_map in Hn. destruct Hn as (md & Hmd & Hn).
      assert (Hn' : In n (methodPushes md))
        by (apply in_app_or in Hn; tauto).
      destruct (proj1 (grouped_method (getMethods cls) md))
        as (method & Hmethod & ->); [now exists kv|].
      apply In_signature in Hn'. destruct Hn' as (jt & p & Hjt & Hreg).
      exists jt, p. split; [|exact Hreg].
      apply in_or_app. right. apply in_or_app. left.
      apply in_flat_map. now exists method.
    + destruct (isInterface cls || Modifier.isAbstract (class_getModifiers cls));
        [contradiction|].
      assert (Hk : exists k,
                 In k (filter (fun k => Modifier.isPublic (constructor_getModifiers k))
                         (getDeclaredConstructors cls))
                 /\ In n (registered c false
                          ++ parameterPushes
                               (map getTypeName (constructor_getParameterTypes k)))).
      { unfold publicConstructorTypes in H. apply in_app_or in H.
        destruct H as [H|H]; apply in_flat_map in H; destruct H as (t & Ht & Hn);
          apply in_map_iff in Ht; destruct Ht as (k & Et & Hk); subst t;
          exists k; (split; [exact Hk|]);
          [apply in_or_app; right; exact Hn | exact Hn]. }
      destruct Hk as (k & Hk & Hn). apply In_signature in Hn.
      destruct Hn as (jt & p & Hjt & Hreg). exists jt, p. split; [|exact Hreg].
      apply in_or_app. right. apply in_or_app. right.
      apply in_flat_map. now exists k.
  - intros (jt & p & Hjt & Hreg).
    apply in_app_or in Hjt. destruct Hjt as [Hjt|Hjt].
    + left. apply in_map_iff in Hjt. destruct Hjt as (f & E & Hf).
      inversion E; subst. apply in_flat_map. now exists f.
    + apply in_app_or in Hjt. destruct Hjt as [Hjt|Hjt].
      * right. left. apply in_flat_map in Hjt. destruct Hjt as (method & Hm & Hjt).
        destruct (proj2 (grouped_method (getMethods cls) (toMethodDeclaration method)))
          as (kv & Hkv & Hmd); [now exists method|].
        apply in_flat_map. exists kv. split; [exact Hkv|].
        apply in_flat_map. exists (toMethodDeclaration method).
        split; [exact Hmd|]. apply in_or_app. left.
        apply (In_signature n (getTypeName (method_getReturnType method))
                 (method_getParameterTypes method)).
        now exists jt, p.
      * right. right.
        destruct (isInterface cls || Modifier.isAbstract (class_getModifiers cls));
          [contradiction|].
        apply in_flat_map in Hjt. destruct Hjt as (k & Hk & Hjt).
        apply in_or_app. right. apply in_flat_map.
        exists (map getTypeName (constructor_getParameterTypes k)).
        split; [unfold publicConstructorTypes; apply in_map_iff; now exists k|].
        apply In_signature. now exists jt, p.
Qed.

End ReferencedNames.

Lemma mappingCase_array javaType :
  mappingCase javaType = ArrayCase -> Js.endsWith javaType "[]" = true.
Proof.
  unfold mappingCase.
  repeat match goal with
         | |- context [if ?b then _ else _] =>
             match b with
             | context [String.eqb] => destruct b
             | Js.endsWith _ _ => destruct b
             end
         end; try discriminate; reflexivity.
Qed.

Lemma registered_depth_irrelevant (d1 : nat) :
  forall d2 javaType isParam,
    String.length javaType <= d1 -> String.length javaType <= d2 ->
    registered_depth d1 javaType isParam = registered_depth d2 javaType isParam.
Proof.
  induction d1 as [|d1 IH]; intros d2 jt p H1 H2.
  - destruct jt; simpl in H1; [|lia]. destruct d2; reflexivity.
  - destruct d2 as [|d2].
    + destruct jt; simpl in H2; [|lia]. reflexivity.
    + cbn [registered_depth].
      destruct (mappingCase jt) eqn:E; try reflexivity.
      apply mappingCase_array in E. apply endsWith_length in E. simpl in E.
      apply IH; rewrite length_substring; lia.
Qed.

Lemma registered_reference javaType isParam :
  reachesDefaultCase javaType = true -> registered javaType isParam = [javaType].
Proof.
  intros H. apply mappingCase_default in H. unfold registered.
  destruct (String.length javaType); cbn [registered_depth]; now rewrite H.
Qed.

Lemma registered_depth_array depth javaType isParam :
  mappingCase javaType = ArrayCase ->
  registered_depth (S depth) javaType isParam =
  registered_depth depth
    (substring 0 (String.length javaType - 2) javaType) isParam.
Proof. intros H. cbn [registered_depth]. now rewrite H. Qed.

Lemma registered_array elementType isParam :
  elementType <> "byte" -> elementType <> "java.lang.Byte" ->
  registered (elementType +++ "[]") isParam = registered elementType isParam.
Proof.
  intros Hbyte HByte.
  assert (Hcase : mappingCase (elementType +++ "[]") = ArrayCase).
  { unfold mappingCase.
    destruct (String.eqb_spec (elementType +++ "[]") "byte[]") as [E|_];
      [apply (append_cancel_r elementType "byte" "[]") in E; contradiction|].
    destruct (String.eqb_spec (elementType +++ "[]") "java.lang.Byte[]") as [E|_];
      [apply (append_cancel_r elementType "java.lang.Byte" "[]") in E;
       contradiction|].
    cbv beta iota delta [orb]. now rewrite endsWith_append. }
  unfold registered. rewrite length_append.
  replace (String.length elementType + String.length "[]")
    with (S (S (String.length elementType))) by (simpl; lia).
  rewrite (registered_depth_array _ _ _ Hcase), length_append.
  replace (String.length elementType + String.length "[]" - 2)
    with (String.length elementType) by (simpl; lia).
  rewrite substring_append_l.
  apply registered_depth_irrelevant; lia.
Qed.

Lemma signatureTypeNodes_withoutComments e :
  signatureTypeNodes e = signatureTypeNodes (withoutComments e).
Proof. destruct e; reflexivity. Qed.

Lemma In_parameterDeclarations r this params q :
  forall i,
    In q (parameterDeclarations r this i params) ->
    exists p,
      In p params
      /\ ts.parameterType q = fst (javaTypeToTypescriptType r p true true this).
Proof.
  unfold parameterDeclarations.
  induction params as [|p params IH]; intros i Hq; [contradiction|].
  simpl in Hq. destruct Hq as [<-|Hq].
  - exists p. split; [now left | reflexivity].
  - destruct (IH (S i) Hq) as (p' & Hp' & E). exists p'. split; [now right | exact E].
Qed.

Lemma methodSignature_types r this (types : list (string * bool))
    (rt : string) (ps : list TypeClass) (st : bool) name isSync nonNull T :
  incl (signatureTypes rt ps) types ->
  In T (signatureTypeNodes
          (methodSignature r this
             {| returnType := rt; parameters := map getTypeName ps; isStatic := st |}
             name isSync nonNull)) ->
  MappedFrom r this types T.
Proof.
  intros Hincl HT. unfold methodSignature in HT. cbn [signatureTypeNodes] in HT.
  cbn [returnType parameters] in HT. destruct HT as [<-|HT].
  - exists rt, false, (negb nonNull). split; [apply Hincl; now left|].
    destruct isSync; [now left | now right].
  - apply in_map_iff in HT. destruct HT as (q & <- & Hq).
    apply In_parameterDeclarations in Hq. destruct Hq as (p & Hp & ->).
    apply in_map_iff in Hp. destruct Hp as (ty & <- & Hty).
    exists (getTypeName ty), true, true. split; [|now left].
    apply Hincl. right. apply in_map_iff. now exists ty.
Qed.

Section EmittedTypes.

Context {Modifier : Modifier.ModifierClass}.

Lemma emitted_types_are_member_types r c cls e T :
  In e (fst (classMembers r cls (newGenerator c))) ->
  In T (signatureTypeNodes e) ->
  MappedFrom r (newGenerator c) (publicMemberTypes c cls) T.
Proof.
  intros He HT.
  rewrite signatureTypeNodes_withoutComments in HT.
  apply (in_map withoutComments) in He.
  remember (withoutComments e) as e' eqn:Ee. clear e Ee.
  rewrite classMembers_value, !map_app in He.
  rewrite convertFields_value, convertMethodEntries_value in He.
  rewrite (filteri_first_index field_getName) in He.
  apply in_app_or in He. destruct He as [He|He].
  - apply in_map_iff in He. destruct He as (f & <- & Hf).
    unfold fieldSignature in HT. cbn [signatureTypeNodes] in HT.
    destruct HT as [<-|[]].
    exists (getTypeName (field_getType f)), true, true. split; [|now left].
    unfold publicMemberTypes. apply in_or_app. left.
    apply in_map_iff. now exists f.
  - apply in_app_or in He. destruct He as [He|He].
    + apply in_flat_map in He. destruct He as (kv & Hkv & He).
      apply in_flat_map in He. destruct He as (md & Hmd & He).
      destruct (proj1 (grouped_method (getMethods cls) md))
        as (method & Hmethod & ->); [now exists kv|].
      assert (Hincl : incl (signatureTypes (getTypeName (method_getReturnType method))
                              (method_getParameterTypes method))
                        (publicMemberTypes c cls)).
      { intros x Hx. unfold publicMemberTypes. apply in_or_app. right.
        apply in_or_app. left. apply in_flat_map. now exists method. }
      unfold toMethodDeclaration in He.
      destruct He as [<-|[<-|[]]];
        (eapply methodSignature_types; [exact Hincl | exact HT]).
    + unfold isAbstractOrInterface in He.
      destruct (isInterface cls || Modifier.isAbstract (class_getModifiers cls))
        eqn:Hai; [contradiction|].
      rewrite convertConstructors_value in He. unfold publicConstructorTypes in He.
      assert (Hincl : forall k,
                 In k (filter (fun k => Modifier.isPublic (constructor_getModifiers k))
                         (getDeclaredConstructors cls)) ->
                 incl (signatureTypes c (constructor_getParameterTypes k))
                   (publicMemberTypes c cls)).
      { intros k Hk x Hx. unfold publicMemberTypes. rewrite Hai.
        apply in_or_app. right. apply in_or_app. right.
        apply in_flat_map. now exists k. }
      apply in_app_or in He. destruct He as [He|He];
        apply in_map_iff in He; destruct He as (t & <- & Ht);
        apply in_map_iff in Ht; destruct Ht as (k & <- & Hk).
      * eapply methodSignature_types; [exact (Hincl k Hk) | exact HT].
      * unfold constructorSignature in HT. cbn [signatureTypeNodes] in HT.
        apply in_map_iff in HT. destruct HT as (q & <- & Hq).
        apply In_parameterDeclarations in Hq. destruct Hq as (p & Hp & ->).
        apply in_map_iff in Hp. destruct Hp as (ty & <- & Hty).
        exists (getTypeName ty), true, true. split; [|now left].
        apply (Hincl k Hk). right. apply in_map_iff. now exists ty.
Qed.

End EmittedTypes.

Lemma closedUnderReferences_closedUniverse {Modifier : Modifier.ModifierClass}
    importClassAsync U :
  closedUnderReferences importClassAsync U -> closedUniverse importClassAsync U.
Proof.
  intros H c Hc. destruct (H c Hc) as (cls & Hcls & Hrefs).
  exists cls. split; [exact Hcls|].
  intros n Hn. apply referencedNames_members in Hn.
  destruct Hn as (jt & p & Hjt & Hreg). now apply (Hrefs jt p n).
Qed.

(** C2.  In a run started on an empty [resolvedImports] that resolves, take
    any emitted module and any type name of a member signature of its
    class: the type of a public field, the return type or a parameter
    type of a public method, a parameter type of a public constructor of a
    concrete class, or the class itself as the return type of its
    factories.  Every name that the type mapper hands to
    [createTypeReferenceNode] for that type name is the name of a module
    of the result.  These names are exactly what the mapper pushes to
    [importsToResolve]; a name that reaches the class-reference branch is
    one of them, for an array the names of its element type are, and, for
    a class, the names pushed while its members are converted are the
    names registered for its member types and no other; and every type
    node of an emitted signature is the mapping of one of these member
    types, or the [Promise] of it.  And the run does
    resolve, with a module for the root class, when the classes reachable
    from the root through member types are finitely many and the
    Reflection Client loads each of them. *)
Theorem generate_closure_is_complete
    {Modifier : Modifier.ModifierClass}
    (importClassAsync : string -> option ClassClass)
    (printNode : ts.Node -> string) :
  (forall fuel root res,
      snd (generate importClassAsync printNode fuel root []) = Resolved res ->
      forall m cls jt p n,
        In m res ->
        importClassAsync (name m) = Some cls ->
        In (jt, p) (publicMemberTypes (name m) cls) ->
        In n (registered jt p) ->
        In n (map name res))
  /\ (forall r javaType isParam strict this,
         importsToResolve
           (snd (javaTypeToTypescriptType r javaType isParam strict this)) =
         importsToResolve this ++ registered javaType isParam)
  /\ (forall javaType isParam,
         reachesDefaultCase javaType = true ->
         registered javaType isParam = [javaType])
  /\ (forall elementType isParam,
         elementType <> "byte" -> elementType <> "java.lang.Byte" ->
         registered (elementType +++ "[]") isParam =
         registered elementType isParam)
  /\ (forall r c cls n,
         In n (importsToResolve (snd (classMembers r cls (newGenerator c)))) <->
         exists jt p,
           In (jt, p) (publicMemberTypes c cls) /\ In n (registered jt p))
  /\ (forall r c cls e T,
         In e (fst (classMembers r cls (newGenerator c))) ->
         In T (signatureTypeNodes e) ->
         MappedFrom r (newGenerator c) (publicMemberTypes c cls) T)
  /\ (forall U root,
         closedUnderReferences importClassAsync U -> In root U ->
         exists res,
           snd (generate importClassAsync printNode (S (List.length U)) root []) =
           Resolved res
           /\ In root (map name res)).
Proof.
  split; [|split; [|split; [|split; [|split; [|split]]]]].
  - intros fuel root res Hres m cls jt p n Hm Hcls Hjt Hreg.
    destruct (generate_invariant importClassAsync printNode fuel root [])
      as (added & Hr' & Hout).
    rewrite Hres in Hout. destruct Hout as (Hp & _ & _ & _ & Hclosure).
    assert (Hn : In n (referencedNames (name m) cls))
      by (apply referencedNames_members; now exists jt, p).
    specialize (Hclosure m cls n Hm Hcls Hn).
    rewrite Hr' in Hclosure. simpl in Hclosure.
    now apply (Permutation_in _ Hp).
  - intros r jt p s this.
    apply (Pushes_javaTypeToTypescriptType (classname this) r jt p s this eq_refl).
  - intros. now apply registered_reference.
  - intros. now apply registered_array.
  - intros r c cls n.
    rewrite (proj1 (classMembers_imports r c cls)).
    apply referencedNames_members.
  - intros r c cls e T. apply emitted_types_are_member_types.
  - intros U root Hclosed Hroot.
    apply closedUnderReferences_closedUniverse in Hclosed.
    destruct (generate_terminates importClassAsync printNode U Hclosed
                (S (List.length U)) root []) as (res & Hres).
    + exact Hroot.
    + pose proof (unresolved_le U []). lia.
    + exists res. split; [exact Hres|].
      destruct (generate_invariant importClassAsync printNode
                  (S (List.length U)) root []) as (added & Hr' & Hout).
      rewrite Hres in Hout. destruct Hout as (Hp & _ & _ & Hc & _).
      specialize (Hc root (or_introl eq_refl)).
      rewrite Hr' in Hc. simpl in Hc.
      now apply (Permutation_in _ Hp).
Qed.

(** C2 on the classes of [lib]: [Shelf] references [Label] as a return
    type, [Book] as a parameter type and [Book[]] as the parameter type of
    its constructor, and itself as the return type of its factory; the
    run for [lib.Shelf] resolves with a module for each of the three. *)
Lemma library_closure_is_complete :
  closedUnderReferences libraryClasses ["lib.Shelf"; "lib.Book"; "lib.Label"]
  /\ publicMemberTypes "lib.Shelf" shelfClass =
     [ ("lib.Label", false); ("lib.Book", true);
       ("lib.Shelf", false); ("lib.Book[]", true) ]
  /\ registered "lib.Book[]" true = ["lib.Book"]
  /\ exists res,
       snd (generate libraryClasses kindPrinter 4 "lib.Shelf" []) = Resolved res
       /\ map name res = ["lib.Label"; "lib.Book"; "lib.Shelf"]
       /\ In "lib.Shelf" (map name res)
       /\ forall m cls jt p n,
            In m res ->
            libraryClasses (name m) = Some cls ->
            In (jt, p) (publicMemberTypes (name m) cls) ->
            In n (registered jt p) ->
            In n (map name res).
Proof.
  assert (Hclosed : closedUnderReferences libraryClasses
                      ["lib.Shelf"; "lib.Book"; "lib.Label"]).
  { intros c [<-|[<-|[<-|[]]]].
    - exists shelfClass. split; [reflexivity|].
      intros jt p n Hjt Hn. vm_compute in Hjt.
      destruct Hjt as [E|[E|[E|[E|[]]]]]; inversion E; subst;
        vm_compute in Hn; simpl; tauto.
    - exists bookClass. split; [reflexivity|].
      intros jt p n Hjt Hn. vm_compute in Hjt.
      destruct Hjt as [E|[]]; inversion E; subst;
        vm_compute in Hn; simpl; tauto.
    - exists labelClass. split; [reflexivity|].
      intros jt p n Hjt Hn. vm_compute in Hjt.
      destruct Hjt as [E|[]]; inversion E; subst;
        vm_compute in Hn; simpl; tauto. }
  split; [exact Hclosed|]. split; [reflexivity|]. split; [reflexivity|].
  destruct (proj2 (proj2 (proj2 (proj2 (proj2 (proj2
              (generate_closure_is_complete libraryClasses kindPrinter))))))
              ["lib.Shelf"; "lib.Book"; "lib.Label"] "lib.Shelf" Hclosed)
    as (res & Hres & Hroot); [simpl; tauto|].
  exists res. split; [exact Hres|].
  split; [vm_compute in Hres; inversion Hres; reflexivity|].
  split; [exact Hroot|].
  exact (proj1 (generate_closure_is_complete libraryClasses kindPrinter)
           (S (List.length ["lib.Shelf"; "lib.Book"; "lib.Label"]))
           "lib.Shelf" res Hres).
Defined.
